(** * baseClone: the cycle-tracking clone engine of lodash

    A shallow embedding of [src/.internal/baseClone.js] over an explicit
    object store.  JavaScript objects live in a heap (a list of cells
    addressed by position), values are primitives or references into the
    heap, and every function of the source that allocates or assigns
    threads the heap explicitly.  The traversal registry ([Stack]) is
    threaded next to the heap.  Recursion is bounded by a call-depth
    budget, the counterpart of the call stack of the host runtime. *)

From Stdlib Require Import ZArith.
From stdpp Require Import gmap strings list.

Open Scope string_scope.
Open Scope list_scope.
Open Scope nat_scope.

(** ** Values and objects *)

Abbreviation loc := nat.

Inductive prim :=
| PNull
| PBool (b : bool)
| PNum (n : Z)
| PStr (s : string)
| PSym (id : nat).

Inductive value :=
| VUndef
| VPrim (p : prim)
| VRef (l : loc).

#[global] Instance prim_eq_dec : EqDecision prim.
Proof. solve_decision. Defined.

#[global] Instance value_eq_dec : EqDecision value.
Proof. solve_decision. Defined.

Inductive ta_kind :=
| Float32 | Float64 | Int8 | Int16 | Int32
| Uint8 | Uint8Clamped | Uint16 | Uint32.

(** The internal slots of an object.  [KBuffer] is a Node.js [Buffer]: a
    byte view for which [isBuffer] answers true. *)
Inductive okind :=
| KObject
| KArguments
| KFunction
| KError
| KWeakMap
| KArray (elems : list value)
| KBoolean (b : bool)
| KDate (t : Z)
| KNumber (n : Z)
| KString (s : string)
| KSymbol (id : nat)
| KRegExp (source flags : string) (lastIndex : Z)
| KMap (entries : list (value * value))
| KSet (members : list value)
| KArrayBuffer (bytes : list Z)
| KDataView (buffer : loc) (byteOffset byteLength : nat)
| KTypedArray (t : ta_kind) (buffer : loc) (byteOffset len : nat)
| KBuffer (buffer : loc) (byteOffset len : nat).

(** An object: its internal slots, its prototype ([None] is the built-in
    prototype of its kind, which has no enumerable property) and its own
    enumerable properties in insertion order, keyed by a string or a
    symbol primitive.  The objects of a store have no own property that is
    not enumerable, apart from what their internal slots stand for (the
    length of an array), and their symbol keys are symbols that the
    program created.  An array holds what reading each index below its
    length gives: a hole reads [undefined] and is held as [VUndef]. *)
Record obj := Obj {
  kind : okind;
  proto : option loc;
  props : list (prim * value)
}.

Abbreviation heap := (list obj).

Definition alloc (h : heap) (o : obj) : value * heap :=
  (VRef (length h), h ++ [o]).

Definition empty_object : obj := Obj KObject None [].

(** JavaScript truthiness of a value. *)
Definition truthy (v : value) : bool :=
  match v with
  | VUndef => false
  | VPrim PNull => false
  | VPrim (PBool b) => b
  | VPrim (PNum n) => negb (n =? 0)%Z
  | VPrim (PStr s) => negb (String.eqb s "")
  | VPrim (PSym _) => true
  | VRef _ => true
  end.

Definition is_undefined (v : value) : bool :=
  match v with VUndef => true | _ => false end.

(** ** Constants of the source *)

Definition CLONE_DEEP_FLAG : Z := 1.
Definition CLONE_FLAT_FLAG : Z := 2.
Definition CLONE_SYMBOLS_FLAG : Z := 4.

Definition argsTag := "[object Arguments]".
Definition arrayTag := "[object Array]".
Definition boolTag := "[object Boolean]".
Definition dateTag := "[object Date]".
Definition errorTag := "[object Error]".
Definition mapTag := "[object Map]".
Definition numberTag := "[object Number]".
Definition objectTag := "[object Object]".
Definition regexpTag := "[object RegExp]".
Definition setTag := "[object Set]".
Definition stringTag := "[object String]".
Definition symbolTag := "[object Symbol]".
Definition weakMapTag := "[object WeakMap]".

Definition arrayBufferTag := "[object ArrayBuffer]".
Definition dataViewTag := "[object DataView]".
Definition float32Tag := "[object Float32Array]".
Definition float64Tag := "[object Float64Array]".
Definition int8Tag := "[object Int8Array]".
Definition int16Tag := "[object Int16Array]".
Definition int32Tag := "[object Int32Array]".
Definition uint8Tag := "[object Uint8Array]".
Definition uint8ClampedTag := "[object Uint8ClampedArray]".
Definition uint16Tag := "[object Uint16Array]".
Definition uint32Tag := "[object Uint32Array]".

(** The tag of a function; the source never names it, it only matters
    that [cloneableTags] has no entry for it. *)
Definition funcTag := "[object Function]".

(** [cloneableTags]: a JavaScript object used as a map from tag to
    boolean, filled by the chained assignments of lines 57-81. *)
Definition cloneableTags : gmap string bool :=
  <[weakMapTag := false]> (<[errorTag := false]> (
  <[argsTag := true]> (<[arrayTag := true]> (<[arrayBufferTag := true]> (
  <[dataViewTag := true]> (<[boolTag := true]> (<[dateTag := true]> (
  <[float32Tag := true]> (<[float64Tag := true]> (<[int8Tag := true]> (
  <[int16Tag := true]> (<[int32Tag := true]> (<[mapTag := true]> (
  <[numberTag := true]> (<[objectTag := true]> (<[regexpTag := true]> (
  <[setTag := true]> (<[stringTag := true]> (<[symbolTag := true]> (
  <[uint8Tag := true]> (<[uint8ClampedTag := true]> (<[uint16Tag := true]> (
  <[uint32Tag := true]> ∅))))))))))))))))))))))).

(** [cloneableTags[tag]] read as a condition: a missing entry is
    [undefined], which is falsy. *)
Definition cloneable (tag : string) : bool :=
  default false (cloneableTags !! tag).

(** A bit of the bitmask, read as a condition. *)
Definition flag (bitmask mask : Z) : bool :=
  negb (Z.land bitmask mask =? 0)%Z.

(** ** Collaborators of [baseClone]

    The helpers imported by the source (lines 1-22) are modelled here, each
    from the contract the specification gives it. *)

(** Modelled from the spec: [Stack.js], the traversal registry, "a mapping
    from an already-visited original Value (by identity) to its in-progress
    or completed clone".  The list keeps one pair per call of [set], newest
    first; [get] answers the newest binding of the key and [undefined]
    when there is none. *)
Abbreviation Stack := (list (value * value)).

Fixpoint stack_get (s : Stack) (key : value) : value :=
  match s with
  | [] => VUndef
  | (k, v) :: s' => if decide (k = key) then v else stack_get s' key
  end.

Definition stack_set (s : Stack) (key v : value) : Stack := (key, v) :: s.

(** Modelled from the spec: [getTag.js], "detecting the runtime tag of a
    value". *)
Definition getTag (o : obj) : string :=
  match kind o with
  | KObject => objectTag
  | KArguments => argsTag
  | KFunction => funcTag
  | KError => errorTag
  | KWeakMap => weakMapTag
  | KArray _ => arrayTag
  | KBoolean _ => boolTag
  | KDate _ => dateTag
  | KNumber _ => numberTag
  | KString _ => stringTag
  | KSymbol _ => symbolTag
  | KRegExp _ _ _ => regexpTag
  | KMap _ => mapTag
  | KSet _ => setTag
  | KArrayBuffer _ => arrayBufferTag
  | KDataView _ _ _ => dataViewTag
  | KTypedArray t _ _ _ =>
      match t with
      | Float32 => float32Tag | Float64 => float64Tag
      | Int8 => int8Tag | Int16 => int16Tag | Int32 => int32Tag
      | Uint8 => uint8Tag | Uint8Clamped => uint8ClampedTag
      | Uint16 => uint16Tag | Uint32 => uint32Tag
      end
  | KBuffer _ _ _ => uint8Tag
  end.

(** Modelled from the spec: [isObject.js], [isBuffer.js], [isTypedArray.js]
    and the built-ins [Array.isArray] and [typeof v === "function"], the
    "value-is-buffer / value-is-array-view" predicates. *)
Definition isObject (v : value) : bool :=
  match v with VRef _ => true | _ => false end.

Definition isArray (o : obj) : bool :=
  match kind o with KArray _ => true | _ => false end.

Definition isBuffer (o : obj) : bool :=
  match kind o with KBuffer _ _ _ => true | _ => false end.

Definition isTypedArray (o : obj) : bool :=
  match kind o with KTypedArray _ _ _ _ | KBuffer _ _ _ => true | _ => false end.

Definition isFunction (o : obj) : bool :=
  match kind o with KFunction => true | _ => false end.

(** *** Property access *)

Fixpoint own_get (ps : list (prim * value)) (k : prim) : option value :=
  match ps with
  | [] => None
  | (k', v) :: ps' => if decide (k' = k) then Some v else own_get ps' k
  end.

(** [o[k] = v] on the own properties: an existing key keeps its place. *)
Fixpoint own_set (ps : list (prim * value)) (k : prim) (v : value)
  : list (prim * value) :=
  match ps with
  | [] => [(k, v)]
  | (k', v') :: ps' =>
      if decide (k' = k) then (k, v) :: ps' else (k', v') :: own_set ps' k v
  end.

(** The objects on the prototype chain of [l], itself first.  A chain is
    no longer than the heap. *)
Fixpoint proto_chain (n : nat) (h : heap) (l : loc) : list obj :=
  match n with
  | 0 => []
  | S n' =>
      match h !! l with
      | None => []
      | Some o =>
          o :: match proto o with
               | Some p => proto_chain n' h p
               | None => []
               end
      end
  end.

Fixpoint chain_get (os : list obj) (k : prim) : value :=
  match os with
  | [] => VUndef
  | o :: os' =>
      match own_get (props o) k with
      | Some v => v
      | None => chain_get os' k
      end
  end.

Definition elems_of (o : obj) : list value :=
  match kind o with KArray es => es | _ => [] end.

(** The property read [target[key]]. *)
Definition get (h : heap) (target key : value) : value :=
  match target, key with
  | VRef l, VPrim p =>
      match h !! l, p with
      | Some (Obj (KArray es) _ _), PNum n =>
          if (0 <=? n)%Z then default VUndef (es !! Z.to_nat n)
          else chain_get (proto_chain (length h) h l) p
      | _, _ => chain_get (proto_chain (length h) h l) p
      end
  | _, _ => VUndef
  end.

Definition hasOwnProperty (o : obj) (k : prim) : bool :=
  bool_decide (is_Some (own_get (props o) k)).

(** Writing index [i] of an array; JavaScript extends the array when
    the index is past its end. *)
Definition set_elem (es : list value) (i : nat) (v : value) : list value :=
  if decide (i < length es) then <[i := v]> es
  else es ++ replicate (i - length es) VUndef ++ [v].

Definition assign_obj (key v : value) (o : obj) : obj :=
  match key with
  | VPrim p =>
      match kind o, p with
      | KArray es, PNum n =>
          if (0 <=? n)%Z
          then Obj (KArray (set_elem es (Z.to_nat n) v)) (proto o) (props o)
          else Obj (kind o) (proto o) (own_set (props o) p v)
      | _, _ => Obj (kind o) (proto o) (own_set (props o) p v)
      end
  | _ => o
  end.

(** Modelled from the spec: [assignValue.js], the "assignment-into-target"
    primitive: [object[key] = value]. *)
Definition assignValue (h : heap) (object key v : value) : heap :=
  match object with
  | VRef l => alter (assign_obj key v) l h
  | _ => h
  end.

Definition is_string_key (k : prim) : bool :=
  match k with PStr _ => true | _ => false end.

Definition is_symbol_key (k : prim) : bool :=
  match k with PSym _ => true | _ => false end.

(** Keep the first occurrence of every key. *)
Fixpoint nub (ks : list prim) : list prim :=
  match ks with
  | [] => []
  | k :: ks' => k :: filter (λ k', k' ≠ k) (nub ks')
  end.

Definition own_keys (f : prim → bool) (o : obj) : list prim :=
  filter (λ k, f k = true) (fst <$> props o).

Definition chain_keys (f : prim → bool) (h : heap) (l : loc) : list prim :=
  nub (concat (own_keys f <$> proto_chain (length h) h l)).

Definition keys_of (f : heap → loc → list prim) (h : heap) (v : value)
  : list value :=
  match v with
  | VRef l => VPrim <$> f h l
  | _ => []
  end.

Definition own_of (f : prim → bool) (h : heap) (l : loc) : list prim :=
  match h !! l with Some o => own_keys f o | None => [] end.

(** Modelled from the spec: [keys.js], [keysIn.js], [getAllKeys.js] and
    [getAllKeysIn.js], the "own/inherited key-enumeration functions (4
    variants: own-only vs. inherited, string-only vs. +symbol-like)". *)
Definition keys : heap → value → list value :=
  keys_of (own_of is_string_key).

Definition keysIn : heap → value → list value :=
  keys_of (chain_keys is_string_key).

Definition getSymbols : heap → value → list value :=
  keys_of (own_of is_symbol_key).

Definition getSymbolsIn : heap → value → list value :=
  keys_of (chain_keys is_symbol_key).

Definition getAllKeys (h : heap) (v : value) : list value :=
  keys h v ++ getSymbols h v.

Definition getAllKeysIn (h : heap) (v : value) : list value :=
  keysIn h v ++ getSymbolsIn h v.

(** Modelled from the spec: [copyObject.js], the one-level copy of the
    listed keys of [source] into [object]; answers [object]. *)
Definition copyObject (h : heap) (source : value) (ks : list value)
    (object : value) : value * heap :=
  (object, foldl (λ h' k, assignValue h' object k (get h' source k)) h ks).

(** Modelled from the spec: [copySymbols.js] and [copySymbolsIn.js], the
    one-level copy of the own (resp. own and inherited) symbol keys. *)
Definition copySymbols (h : heap) (source object : value) : value * heap :=
  copyObject h source (getSymbols h source) object.

Definition copySymbolsIn (h : heap) (source object : value) : value * heap :=
  copyObject h source (getSymbolsIn h source) object.

(** The built-in [Object.assign(target, source)]: every own enumerable
    property of [source], string keys and symbol keys, is assigned. *)
Definition Object_assign (h : heap) (target source : value) : value * heap :=
  copyObject h source (getAllKeys h source) target.

(** Modelled from the spec: [copyArray.js], the "element-wise array
    population" primitive; answers [array]. *)
Definition copyArray (h : heap) (source : list value) (array : value)
  : value * heap :=
  (array,
   foldl (λ h' '(i, v), assignValue h' array (VPrim (PNum (Z.of_nat i))) v)
     h (imap (λ i v, (i, v)) source)).

(** *** Allocation of clone shells *)

Definition bytes_of (h : heap) (l : loc) : list Z :=
  match kind <$> h !! l with
  | Some (KArrayBuffer bs) => bs
  | _ => []
  end.

(** Modelled from the spec: [cloneArrayBuffer.js], "copy the byte buffer
    verbatim (byte-for-byte duplicate, independent storage)". *)
Definition cloneArrayBuffer (h : heap) (l : loc) : value * heap :=
  alloc h (Obj (KArrayBuffer (bytes_of h l)) (h !! l ≫= proto) []).

Definition ref_or (d : loc) (v : value) : loc :=
  match v with VRef l => l | _ => d end.

(** Modelled from the spec: [cloneBuffer.js], a binary buffer is copied
    "verbatim (byte-for-byte duplicate, independent storage) or, when not
    deep, [as] a view over the original backing storage, sharing memory". *)
Definition cloneBuffer (h : heap) (o : obj) (isDeep : bool) : value * heap :=
  match kind o with
  | KBuffer b off n =>
      if isDeep then
        let '(b', h1) := cloneArrayBuffer h b in
        alloc h1 (Obj (KBuffer (ref_or b b') off n) (proto o) [])
      else alloc h (Obj (KBuffer b off n) (proto o) [])
  | _ => (VUndef, h)
  end.

(** Modelled from the spec: [cloneDataView.js] and [cloneTypedArray.js],
    "when deep, duplicate the full backing buffer; when shallow, construct
    a new view over the original's backing buffer". *)
Definition cloneDataView (h : heap) (o : obj) (isDeep : bool) : value * heap :=
  match kind o with
  | KDataView b off n =>
      if isDeep then
        let '(b', h1) := cloneArrayBuffer h b in
        alloc h1 (Obj (KDataView (ref_or b b') off n) (proto o) [])
      else alloc h (Obj (KDataView b off n) (proto o) [])
  | _ => (VUndef, h)
  end.

Definition cloneTypedArray (h : heap) (o : obj) (isDeep : bool)
  : value * heap :=
  match kind o with
  | KTypedArray t b off n =>
      if isDeep then
        let '(b', h1) := cloneArrayBuffer h b in
        alloc h1 (Obj (KTypedArray t (ref_or b b') off n) (proto o) [])
      else alloc h (Obj (KTypedArray t b off n) (proto o) [])
  | _ => (VUndef, h)
  end.

(** Modelled from the spec: [cloneRegExp.js], "reconstruct from source text
    and flags; if deep, also copy the current cursor/lastIndex position".
    The helper has one parameter, the object (line 130): it cannot tell a
    deep clone from a shallow one, and it copies the cursor. *)
Definition cloneRegExp (h : heap) (o : obj) : value * heap :=
  match kind o with
  | KRegExp source flags lastIndex =>
      alloc h (Obj (KRegExp source flags lastIndex) (proto o) [])
  | _ => (VUndef, h)
  end.

(** Modelled from the spec: [cloneSymbol.js], a wrapped symbol is
    "re-constructed from scratch" around the same payload. *)
Definition cloneSymbol (h : heap) (o : obj) : value * heap :=
  match kind o with
  | KSymbol id => alloc h (Obj (KSymbol id) None [])
  | _ => (VUndef, h)
  end.

(** Modelled from the spec: [initCloneObject.js], "a structure that
    replicates the prototype identity of the original but with no own
    properties yet". *)
Definition initCloneObject (h : heap) (o : obj) : value * heap :=
  alloc h (Obj KObject (proto o) []).

(** *** Calls that give no result

    A call of the source gives no result when it throws, or when it
    leaves what the store describes: it would run a function of the store,
    whose body the store does not hold, or produce a value that the model
    has no counterpart for (a number that is not an integer). *)
Inductive fault :=
| TypeError
| RangeError
| NotModelled.

Inductive res (A : Type) :=
| Ok (a : A)
| Fault (f : fault).

Arguments Ok {A} a.
Arguments Fault {A} f.

Definition res_option {A : Type} (r : res A) : option A :=
  match r with Ok a => Some a | Fault _ => None end.

(** *** [new object.constructor(...)]

    The shells of arrays, of boxed primitives, of Dates, of Maps and of
    Sets are made by [new] on the property [constructor] of the original
    (lines 99, 106, 123, 127, 133 and 149).  The property is read through
    the prototype chain.  The built-in prototypes are not cells of the
    store: a chain that ends at a cell without prototype cell goes on to
    the built-in prototype of the kind of that cell, whose [constructor] is
    the built-in constructor of that kind. *)
Inductive builtin :=
| BObject | BArray | BBoolean | BDate | BNumber | BString | BMap | BSet
| BOther.

#[global] Instance builtin_eq_dec : EqDecision builtin.
Proof. solve_decision. Defined.

Definition builtin_of (k : okind) : builtin :=
  match k with
  | KObject | KArguments => BObject
  | KArray _ => BArray
  | KBoolean _ => BBoolean
  | KDate _ => BDate
  | KNumber _ => BNumber
  | KString _ => BString
  | KMap _ => BMap
  | KSet _ => BSet
  | _ => BOther
  end.

(** The first cell of a chain that has the key as an own property. *)
Fixpoint chain_find (os : list obj) (k : prim) : option value :=
  match os with
  | [] => None
  | o :: os' =>
      match own_get (props o) k with
      | Some v => Some v
      | None => chain_find os' k
      end
  end.

(** The built-in prototype in which a chain ends. *)
Definition chain_builtin (os : list obj) : option builtin :=
  match last os with
  | Some o =>
      match proto o with
      | None => Some (builtin_of (kind o))
      | Some _ => None
      end
  | None => None
  end.

(** What [object.constructor] evaluates to: a value of the store, or a
    built-in constructor. *)
Inductive ctor :=
| CtorValue (v : value)
| CtorBuiltin (b : builtin).

Definition ctor_of (h : heap) (l : loc) : ctor :=
  let os := proto_chain (length h) h l in
  match chain_find os (PStr "constructor") with
  | Some v => CtorValue v
  | None =>
      match chain_builtin os with
      | Some b => CtorBuiltin b
      | None => CtorValue VUndef
      end
  end.

(** The conversion of a wrapper or a Date to its payload calls the
    methods [valueOf] and [toString] of the object.  They are the built-in
    methods of its kind when the prototype chain holds no property of
    these names and ends in the built-in prototype of the kind. *)
Definition plain_conversion (h : heap) (l : loc) (o : obj) : bool :=
  let os := proto_chain (length h) h l in
  bool_decide (chain_find os (PStr "valueOf") = None)
  && bool_decide (chain_find os (PStr "toString") = None)
  && bool_decide (chain_builtin os = Some (builtin_of (kind o))).

(** The largest time value of a Date. *)
Definition max_time : Z := 8640000000000000.

(** [+object] (line 106), and [ToNumber(object)] inside [new
    Number(object)]. *)
Definition to_number (h : heap) (l : loc) (o : obj) : res Z :=
  if plain_conversion h l o then
    match kind o with
    | KBoolean b => Ok (if b then 1 else 0)%Z
    | KDate t => Ok t
    | KNumber n => Ok n
    | _ => Fault NotModelled
    end
  else Fault NotModelled.

(** [ToString(object)] inside [new String(object)]. *)
Definition to_string (h : heap) (l : loc) (o : obj) : res string :=
  if plain_conversion h l o then
    match kind o with
    | KString s => Ok s
    | _ => Fault NotModelled
    end
  else Fault NotModelled.

(** The arguments that the source hands to a constructor: none (lines
    123 and 133), a number (lines 106 and 149) or the original itself
    (line 127). *)
Inductive ctor_arg :=
| NoArg
| NumArg (n : Z)
| ObjArg (l : loc).

Definition new_object (h : heap) (k : okind) : res (value * heap) :=
  Ok (alloc h (Obj k None [])).

(** [new B(arg)] for a built-in constructor [B].  The result has the
    built-in prototype of its kind.  [new Object(object)] answers the object
    itself; [new Array(n)] makes [n] holes and [new Array(object)] an
    array of one element; a number is not iterable, so that [new Map(n)]
    and [new Set(n)] throw; [new Date()] reads the clock. *)
Definition new_builtin (h : heap) (b : builtin) (arg : ctor_arg)
  : res (value * heap) :=
  match b, arg with
  | BObject, NoArg => new_object h KObject
  | BObject, NumArg n => new_object h (KNumber n)
  | BObject, ObjArg l => Ok (VRef l, h)
  | BArray, NoArg => new_object h (KArray [])
  | BArray, NumArg n =>
      if (0 <=? n)%Z && (n <? 4294967296)%Z
      then new_object h (KArray (replicate (Z.to_nat n) VUndef))
      else Fault RangeError
  | BArray, ObjArg l => new_object h (KArray [VRef l])
  | BBoolean, NoArg => new_object h (KBoolean false)
  | BBoolean, NumArg n => new_object h (KBoolean (negb (n =? 0)%Z))
  | BBoolean, ObjArg _ => new_object h (KBoolean true)
  | BDate, NumArg n =>
      if (- max_time <=? n)%Z && (n <=? max_time)%Z
      then new_object h (KDate n) else Fault NotModelled
  | BDate, _ => Fault NotModelled
  | BNumber, NoArg => new_object h (KNumber 0)
  | BNumber, NumArg n => new_object h (KNumber n)
  | BNumber, ObjArg l =>
      match h !! l with
      | Some o =>
          match to_number h l o with
          | Ok n => new_object h (KNumber n)
          | Fault f => Fault f
          end
      | None => Fault NotModelled
      end
  | BString, NoArg => new_object h (KString "")
  | BString, NumArg _ => Fault NotModelled
  | BString, ObjArg l =>
      match h !! l with
      | Some o =>
          match to_string h l o with
          | Ok s => new_object h (KString s)
          | Fault f => Fault f
          end
      | None => Fault NotModelled
      end
  | BMap, NoArg => new_object h (KMap [])
  | BMap, NumArg _ => Fault TypeError
  | BMap, ObjArg _ => Fault NotModelled
  | BSet, NoArg => new_object h (KSet [])
  | BSet, NumArg _ => Fault TypeError
  | BSet, ObjArg _ => Fault NotModelled
  | BOther, _ => Fault NotModelled
  end.

(** [new object.constructor(arg)], [l] being the object: a value that
    is not a function is not a constructor; a function of the store has no
    body in the store. *)
Definition construct (h : heap) (l : loc) (arg : ctor_arg)
  : res (value * heap) :=
  match ctor_of h l with
  | CtorBuiltin b => new_builtin h b arg
  | CtorValue (VRef f) =>
      match h !! f with
      | Some fo => if isFunction fo then Fault NotModelled else Fault TypeError
      | None => Fault TypeError
      end
  | CtorValue _ => Fault TypeError
  end.

Definition tag_in (tag : string) (tags : list string) : bool :=
  existsb (String.eqb tag) tags.

(** [initCloneByTag] (lines 98-138).  The [switch] has no default: a tag
    outside its cases leaves the result [undefined].  The argument
    [+object] of line 106 is evaluated before the constructor is called. *)
Definition initCloneByTag (h : heap) (l : loc) (object : obj) (tag : string)
    (isDeep : bool) : res (value * heap) :=
  if String.eqb tag arrayBufferTag then Ok (cloneArrayBuffer h l)
  else if tag_in tag [boolTag; dateTag] then
    match to_number h l object with
    | Ok n => construct h l (NumArg n)
    | Fault f => Fault f
    end
  else if String.eqb tag dataViewTag then Ok (cloneDataView h object isDeep)
  else if tag_in tag [float32Tag; float64Tag; int8Tag; int16Tag; int32Tag;
                      uint8Tag; uint8ClampedTag; uint16Tag; uint32Tag]
  then Ok (cloneTypedArray h object isDeep)
  else if String.eqb tag mapTag then construct h l NoArg
  else if tag_in tag [numberTag; stringTag] then construct h l (ObjArg l)
  else if String.eqb tag regexpTag then Ok (cloneRegExp h object)
  else if String.eqb tag setTag then construct h l NoArg
  else if String.eqb tag symbolTag then Ok (cloneSymbol h object)
  else Ok (VUndef, h).

Definition is_string_value (v : value) : bool :=
  match v with VPrim (PStr _) => true | _ => false end.

(** [initCloneArray] (lines 147-161). *)
Definition initCloneArray (h : heap) (l : loc) (array : obj)
  : res (value * heap) :=
  let len := length (elems_of array) in
  match construct h l (NumArg (Z.of_nat len)) with
  | Ok (result, h1) =>
      if negb (len =? 0)
         && is_string_value (default VUndef (elems_of array !! 0))
         && hasOwnProperty array (PStr "index")
      then
        let h2 := assignValue h1 result (VPrim (PStr "index"))
                    (get h1 (VRef l) (VPrim (PStr "index"))) in
        let h3 := assignValue h2 result (VPrim (PStr "input"))
                    (get h2 (VRef l) (VPrim (PStr "input"))) in
        Ok (result, h3)
      else Ok (result, h1)
  | Fault f => Fault f
  end.

(** ** The clone engine *)

(** A customizer observes the value, its key, its parent, the registry
    and the store, and answers a replacement or [undefined]. *)
Definition Customizer : Type :=
  value → value → value → option Stack → heap → value.

(** The outcome of a call: the returned value, the registry denoted by
    the variable [stack] when the call returns ([None] when none was passed
    and none was created) and the store.  [None] as a whole outcome means
    that the call gives no result: the call-depth budget ran out, a
    reference dangles, or the call ends in a [fault]. *)
Definition outcome : Type := option (value * option Stack * heap).

Definition clone_fn : Type :=
  value → Z → option Customizer → value → value → option Stack → heap →
  outcome.

(** The state seen by the callbacks of the traversal loops: the registry
    object and the store. *)
Definition St : Type := Stack * heap.

(** [forEach]/[arrayEach]: the callback runs on every entry in order. *)
Fixpoint forEach (items : list (value * value))
    (callback : value → value → St → option St) (st : St) : option St :=
  match items with
  | [] => Some st
  | (subValue, key) :: rest =>
      st' ← callback subValue key st; forEach rest callback st'
  end.

(** Modelled from the spec: [arrayEach.js], which hands the callback each
    element with its index, in ascending index order. *)
Definition arrayEach (array : list value)
    (iteratee : value → value → St → option St) (st : St) : option St :=
  forEach (imap (λ i v, (v, VPrim (PNum (Z.of_nat i)))) array) iteratee st.

(** The entries [Map.prototype.forEach] and [Set.prototype.forEach] hand
    to their callback, as (value, key), in insertion order. *)
Definition map_entries (o : obj) : list (value * value) :=
  match kind o with
  | KMap es => (λ e, (e.2, e.1)) <$> es
  | _ => []
  end.

Definition set_entries (o : obj) : list (value * value) :=
  match kind o with
  | KSet ms => (λ v, (v, v)) <$> ms
  | _ => []
  end.

Fixpoint entries_set (es : list (value * value)) (k v : value)
  : list (value * value) :=
  match es with
  | [] => [(k, v)]
  | (k', v') :: es' =>
      if decide (k' = k) then (k, v) :: es' else (k', v') :: entries_set es' k v
  end.

Definition Map_set_obj (key v : value) (o : obj) : obj :=
  match kind o with
  | KMap es => Obj (KMap (entries_set es key v)) (proto o) (props o)
  | _ => o
  end.

(** Does the cell [l] hold an object that satisfies the test? *)
Definition has_kind (test : okind → bool) (h : heap) (l : loc) : bool :=
  from_option (λ o, test (kind o)) false (h !! l).

Definition is_map (k : okind) : bool :=
  match k with KMap _ => true | _ => false end.

Definition is_set (k : okind) : bool :=
  match k with KSet _ => true | _ => false end.

(** [result.set(key, v)] (line 256): the built-in method of a Map.  A
    shell that is not a Map is a new object without property and has no
    method [set]: the call throws. *)
Definition Map_set (h : heap) (result key v : value) : res heap :=
  match result with
  | VRef l =>
      if has_kind is_map h l then Ok (alter (Map_set_obj key v) l h)
      else Fault TypeError
  | _ => Fault TypeError
  end.

(** A Set holds a value once, at the place of its first insertion. *)
Definition add_once (ms : list value) (v : value) : list value :=
  if decide (v ∈ ms) then ms else ms ++ [v].

Definition Set_add_obj (v : value) (o : obj) : obj :=
  match kind o with
  | KSet ms => Obj (KSet (add_once ms v)) (proto o) (props o)
  | _ => o
  end.

(** [result.add(v)] (line 266): the built-in method of a Set; a shell
    that is not a Set has no method [add]. *)
Definition Set_add (h : heap) (result v : value) : res heap :=
  match result with
  | VRef l =>
      if has_kind is_set h l then Ok (alter (Set_add_obj v) l h)
      else Fault TypeError
  | _ => Fault TypeError
  end.

(** The first half of [baseClone] (lines 202-242) returns, leaves a
    shell in [result], or gives no result. *)
Inductive phase :=
| Return (r : value) (h : heap)
| Shell (result : value) (h : heap)
| Raise (f : fault).

Definition init_phase (object value : value) (l : loc) (o : obj)
    (bitmask : Z) (h : heap) : phase :=
  let isDeep := flag bitmask CLONE_DEEP_FLAG in
  let isFlat := flag bitmask CLONE_FLAT_FLAG in
  let isArr := isArray o in
  let tag := getTag o in
  if isArr then
    match initCloneArray h l o with
    | Ok (result, h1) =>
        if negb isDeep then
          let '(r, h2) := copyArray h1 (elems_of o) result in Return r h2
        else Shell result h1
    | Fault f => Raise f
    end
  else
    let isFunc := isFunction o in
    if isBuffer o then
      let '(r, h1) := cloneBuffer h o isDeep in Return r h1
    else if String.eqb tag objectTag || String.eqb tag argsTag
            || (isFunc && negb (truthy object)) then
      let '(result, h1) :=
        if isFlat || isFunc then alloc h empty_object
        else initCloneObject h o in
      if negb isDeep then
        if isFlat then
          let '(r1, h2) := copyObject h1 value (keysIn h1 value) result in
          let '(r2, h3) := copySymbolsIn h2 value r1 in Return r2 h3
        else
          let '(r1, h2) := Object_assign h1 result value in
          let '(r2, h3) := copySymbols h2 value r1 in Return r2 h3
      else Shell result h1
    else if isFunc || negb (cloneable tag) then
      if truthy object then Return value h
      else let '(r, h1) := alloc h empty_object in Return r h1
    else
      match initCloneByTag h l o tag isDeep with
      | Ok (result, h1) => Shell result h1
      | Fault f => Raise f
      end.

(** The registry object after a call that was handed the registry [s]. *)
Definition stack_after (s : Stack) (out : option Stack) : Stack :=
  default s out.

(** The second half of an activation (lines 253-302): the shell [result]
    of [value] is registered and receives the clones of the children;
    [rec] stands for the recursive calls. *)
Definition populate (rec : clone_fn) (value result : value) (o : obj)
    (bitmask : Z) (customizer : option Customizer) (stack : Stack)
    (h1 : heap) : outcome :=
  let isFlat := flag bitmask CLONE_FLAT_FLAG in
  let isFull := flag bitmask CLONE_SYMBOLS_FLAG in
  let isArr := isArray o in
  let tag := getTag o in
  if String.eqb tag mapTag then
    '(s', h') ← forEach (map_entries o)
      (λ subValue key '(s, h),
         '(r, out, h2) ←
           rec subValue bitmask customizer key value (Some s) h;
         h3 ← res_option (Map_set h2 result key r);
         Some (stack_after s out, h3))
      (stack, h1);
    Some (result, Some s', h')
  else if String.eqb tag setTag then
    '(s', h') ← forEach (set_entries o)
      (λ subValue _ '(s, h),
         '(r, out, h2) ←
           rec subValue bitmask customizer subValue value (Some s) h;
         h3 ← res_option (Set_add h2 result r);
         Some (stack_after s out, h3))
      (stack, h1);
    Some (result, Some s', h')
  else if isTypedArray o then Some (result, Some stack, h1)
  else
    let keysFunc :=
      if isFull then (if isFlat then getAllKeysIn else getAllKeys)
      else (if isFlat then keysIn else keys) in
    let props := if isArr then None else Some (keysFunc h1 value) in
    '(s', h') ← arrayEach (default (elems_of o) props)
      (λ subValue key '(s, h),
         let key := if props is Some _ then subValue else key in
         let subValue :=
           if props is Some _ then get h value key else subValue in
         '(r, out, h2) ←
           rec subValue bitmask customizer key value (Some s) h;
         Some (stack_after s out, assignValue h2 result key r))
      (stack, h1);
    Some (result, Some s', h').

(** One activation of [baseClone] (lines 179-303). *)
Definition baseClone_body (rec : clone_fn) : clone_fn :=
  λ value bitmask customizer key object stack h,
  let result :=
    match customizer with
    | Some customizer =>
        if truthy object then customizer value key object stack h
        else customizer value VUndef VUndef None h
    | None => VUndef
    end in
  if negb (is_undefined result) then Some (result, stack, h)
  else if negb (isObject value) then Some (value, stack, h)
  else
    match value with
    | VRef l =>
        o ← h !! l;
        match init_phase object value l o bitmask h with
        | Raise _ => None
        | Return r h1 => Some (r, stack, h1)
        | Shell result h1 =>
            let stack := default [] stack in
            let stacked := stack_get stack value in
            if truthy stacked then Some (stacked, Some stack, h1)
            else
              let stack := stack_set stack value result in
              populate rec value result o bitmask customizer stack h1
        end
    | _ => Some (value, stack, h)
    end.

(** [baseClone] with a call-depth budget. *)
Fixpoint baseClone (depth : nat) : clone_fn :=
  match depth with
  | 0 => λ _ _ _ _ _ _ _, None
  | S d => baseClone_body (baseClone d)
  end.

(** The public entry points the specification names. *)
Definition shallowClone (depth : nat) (v : value) (h : heap) : outcome :=
  baseClone depth v 0%Z None VUndef VUndef None h.

Definition deepClone (depth : nat) (v : value) (h : heap) : outcome :=
  baseClone depth v CLONE_DEEP_FLAG None VUndef VUndef None h.

Definition deepCloneWith (depth : nat) (v : value) (customizer : Customizer)
    (h : heap) : outcome :=
  baseClone depth v CLONE_DEEP_FLAG (Some customizer) VUndef VUndef None h.

(** The recursive calls of an activation that passes the customizer [c]
    on to the children, whatever customizer it is asked to pass. *)
Definition hand_on (c : option Customizer) (rec : clone_fn) : clone_fn :=
  λ value bitmask _ key object stack h,
    rec value bitmask c key object stack h.

(** ** Well-formed stores *)

Definition val_ok (n : nat) (v : value) : bool :=
  match v with VRef l => l <? n | _ => true end.

(** The values an object holds: elements, entries, members and property
    values. *)
Definition child_values (o : obj) : list value :=
  match kind o with
  | KArray es => es
  | KMap es => es.*1 ++ es.*2
  | KSet ms => ms
  | _ => []
  end ++ (props o).*2.

Definition key_ok (k : prim) : bool := is_string_key k || is_symbol_key k.

(** The kinds whose shell is made through [object.constructor]. *)
Definition uses_ctor (k : okind) : bool :=
  match k with
  | KArray _ | KBoolean _ | KDate _ | KNumber _ | KString _ | KMap _
  | KSet _ => true
  | _ => false
  end.

Definition no_own (o : obj) (names : list string) : bool :=
  forallb (λ name, bool_decide (own_get (props o) (PStr name) = None)) names.

(** An object that the source clones through [object.constructor] is an
    instance of the built-in constructor of its kind: its prototype is the
    built-in one and it has no property [constructor] of its own; a wrapper
    or a Date has no method [valueOf] or [toString] of its own either, and
    an array length and a time value are in the range of the language. *)
Definition ctor_ok (o : obj) : bool :=
  match kind o with
  | KArray es =>
      bool_decide (proto o = None) && no_own o ["constructor"]
      && (Z.of_nat (length es) <? 4294967296)%Z
  | KMap _ | KSet _ =>
      bool_decide (proto o = None) && no_own o ["constructor"]
  | KBoolean _ | KNumber _ | KString _ =>
      bool_decide (proto o = None)
      && no_own o ["constructor"; "valueOf"; "toString"]
  | KDate t =>
      bool_decide (proto o = None)
      && no_own o ["constructor"; "valueOf"; "toString"]
      && (- max_time <=? t)%Z && (t <=? max_time)%Z
  | _ => true
  end.

(** A cell of a closed store of size [n]: every reference it holds is
    below [n], its property keys are strings or symbols, a Map holds
    each key once, and the cell is an instance of the built-in constructor
    of its kind. *)
Definition obj_ok (n : nat) (o : obj) : bool :=
  forallb (val_ok n) (child_values o)
  && from_option (λ p, p <? n) true (proto o)
  && forallb key_ok (props o).*1
  && match kind o with
     | KMap es => bool_decide (NoDup es.*1)
     | _ => true
     end
  && ctor_ok o.

Definition heap_ok (h : heap) : bool := forallb (obj_ok (length h)) h.

(** ** The frame of a call: cells are never changed, only added *)

Definition frame (h h' : heap) : Prop :=
  ∀ l o, h !! l = Some o → h' !! l = Some o.

(** How [baseClone] treats an object, by the branch of lines 208-241 it
    takes. *)
Inductive cls := CSame | CEmpty | CBuffer | CShallow | CReg.

Definition classify (object : value) (bitmask : Z) (o : obj) : cls :=
  let isDeep := flag bitmask CLONE_DEEP_FLAG in
  if isArray o then (if isDeep then CReg else CShallow)
  else if isBuffer o then CBuffer
  else if String.eqb (getTag o) objectTag || String.eqb (getTag o) argsTag
          || (isFunction o && negb (truthy object))
  then (if isDeep then CReg else CShallow)
  else if isFunction o || negb (cloneable (getTag o))
  then (if truthy object then CSame else CEmpty)
  else CReg.

(** The tag tests of the source, read off the kind of the object. *)
Definition plain_kind (k : okind) : bool :=
  match k with KObject | KArguments => true | _ => false end.

Definition cloneable_kind (k : okind) : bool :=
  match k with KFunction | KError | KWeakMap => false | _ => true end.

(** The shell that [initCloneByTag] makes for an instance of a built-in
    constructor, by its kind. *)
Definition shell_by_kind (h : heap) (l : loc) (o : obj) (isDeep : bool)
  : value * heap :=
  match kind o with
  | KArrayBuffer _ => cloneArrayBuffer h l
  | KBoolean b => alloc h (Obj (KBoolean b) None [])
  | KDate t => alloc h (Obj (KDate t) None [])
  | KDataView _ _ _ => cloneDataView h o isDeep
  | KTypedArray _ _ _ _ | KBuffer _ _ _ => cloneTypedArray h o isDeep
  | KMap _ => alloc h (Obj (KMap []) None [])
  | KNumber n => alloc h (Obj (KNumber n) None [])
  | KString s => alloc h (Obj (KString s) None [])
  | KRegExp _ _ _ => cloneRegExp h o
  | KSet _ => alloc h (Obj (KSet []) None [])
  | KSymbol _ => cloneSymbol h o
  | _ => (VUndef, h)
  end.

(** The shell that [initCloneArray] makes for an instance of [Array]. *)
Definition array_shell (h : heap) (l : loc) (array : obj) : value * heap :=
  let len := length (elems_of array) in
  let '(result, h1) := alloc h (Obj (KArray (replicate len VUndef)) None []) in
  if negb (len =? 0)
     && is_string_value (default VUndef (elems_of array !! 0))
     && hasOwnProperty array (PStr "index")
  then
    let h2 := assignValue h1 result (VPrim (PStr "index"))
                (get h1 (VRef l) (VPrim (PStr "index"))) in
    let h3 := assignValue h2 result (VPrim (PStr "input"))
                (get h2 (VRef l) (VPrim (PStr "input"))) in
    (result, h3)
  else (result, h1).

(** The first half of an activation on an instance of a built-in
    constructor: no fault occurs and the shells are those of
    [array_shell] and [shell_by_kind]. *)
Definition init_plain (object value : value) (l : loc) (o : obj)
    (bitmask : Z) (h : heap) : phase :=
  let isDeep := flag bitmask CLONE_DEEP_FLAG in
  let isFlat := flag bitmask CLONE_FLAT_FLAG in
  let isArr := isArray o in
  let tag := getTag o in
  if isArr then
    let '(result, h1) := array_shell h l o in
    if negb isDeep then
      let '(r, h2) := copyArray h1 (elems_of o) result in Return r h2
    else Shell result h1
  else
    let isFunc := isFunction o in
    if isBuffer o then
      let '(r, h1) := cloneBuffer h o isDeep in Return r h1
    else if String.eqb tag objectTag || String.eqb tag argsTag
            || (isFunc && negb (truthy object)) then
      let '(result, h1) :=
        if isFlat || isFunc then alloc h empty_object
        else initCloneObject h o in
      if negb isDeep then
        if isFlat then
          let '(r1, h2) := copyObject h1 value (keysIn h1 value) result in
          let '(r2, h3) := copySymbolsIn h2 value r1 in Return r2 h3
        else
          let '(r1, h2) := Object_assign h1 result value in
          let '(r2, h3) := copySymbols h2 value r1 in Return r2 h3
      else Shell result h1
    else if isFunc || negb (cloneable tag) then
      if truthy object then Return value h
      else let '(r, h1) := alloc h empty_object in Return r h1
    else
      let '(result, h1) := shell_by_kind h l o isDeep in Shell result h1.

(** An allocating helper answers a reference to a new cell that
    satisfies [P] and keeps the cells of [h]. *)
Definition fresh_at (h : heap) (P : obj → Prop) (p : value * heap) : Prop :=
  ∃ c h1 o', p = (VRef c, h1) ∧ frame h h1 ∧ length h ≤ c < length h1
             ∧ h1 !! c = Some o' ∧ P o'.

(** The kind of the shell of a collection. *)
Definition shell_of (o shell0 : obj) : Prop :=
  match kind o with
  | KMap _ => kind shell0 = KMap []
  | KSet _ => kind shell0 = KSet []
  | _ => True
  end.

(** The objects whose own properties a deep clone populates key by key
    (lines 279-301), functions apart. *)
Definition copies_props (k : okind) : bool :=
  match k with
  | KObject | KArguments | KBoolean _ | KDate _ | KNumber _ | KString _
  | KSymbol _ | KRegExp _ _ _ | KArrayBuffer _ | KDataView _ _ _ => true
  | _ => false
  end.


(** The objects that get a registry entry when a deep clone meets them
    as a child: everything but functions, errors, weak maps and binary
    buffers. *)
Definition registrable (k : okind) : bool :=
  match k with
  | KFunction | KError | KWeakMap | KBuffer _ _ _ => false
  | _ => true
  end.


(** ** Invariants of a traversal

    A traversal starts from a closed store [h0] of [n0] cells, the
    originals.  Every clone lives at or above [n0]. *)

(** The registry maps originals to clones, each original once; every
    key is an original that reaches the registry when it is cloned at the
    root (a binary buffer is never a key). *)
Definition stack_inv (h0 : heap) (bitmask : Z) (h : heap) (s : Stack) : Prop :=
  NoDup s.*1 ∧
  Forall (λ p, ∃ l c o, p = (VRef l, VRef c) ∧ h0 !! l = Some o
                        ∧ classify VUndef bitmask o = CReg
                        ∧ length h0 ≤ c < length h) s.

(** The originals that have no registry entry yet: the measure that
    bounds the depth of the recursion. *)
Definition unreg (n0 : nat) (s : Stack) : nat :=
  length (filter (λ l, VRef l ∉ s.*1) (seq 0 n0)).


(** The one-level copy of a plain structure. *)
Definition shallow_copy_plain (o o' : obj) : Prop :=
  kind o' = KObject ∧
  ∀ p v, own_get (props o) p = Some v → own_get (props o') p = Some v.

(** A one-level copy [o'] of [o]: the same elements, or the same own
    properties, the children shared by reference. *)
Definition shallow_copy (o o' : obj) : Prop :=
  match kind o with
  | KArray es => kind o' = KArray es
  | _ => shallow_copy_plain o o'
  end.

(** [buffer_copy h0 isDeep h b b' o o']: the cell [o'] is the copy that
    [cloneBuffer] makes of the binary buffer [o]: a view of the same
    prototype on as many bytes at the same offset.  With the Deep flag its
    storage is a new [ArrayBuffer], allocated by the same call (between
    [b] and [b']), that holds the bytes of the storage of [o]; without the
    flag it is the storage of [o] itself. *)
Definition buffer_copy (h0 : heap) (isDeep : bool) (h : heap) (b b' : nat)
    (o o' : obj) : Prop :=
  match kind o with
  | KBuffer buf off n =>
      if isDeep then
        ∃ nb bs pr,
          o' = Obj (KBuffer nb off n) (proto o) [] ∧ b ≤ nb < b'
          ∧ h !! nb = Some (Obj (KArrayBuffer bs) pr [])
          ∧ ∀ ob, h0 !! buf = Some ob → bs = bytes_of h0 buf ∧ pr = proto ob
      else o' = Obj (KBuffer buf off n) (proto o) []
  | _ => False
  end.

(** [clone_in h0 object bitmask s h b b' v r]: [r] is what a call of
    [baseClone] on the original [v] with parent [object] answers, in a
    state with registry [s] and store [h], the call having allocated the
    cells from [b] up to [b']. *)
Definition clone_in (h0 : heap) (object : value) (bitmask : Z)
    (s : Stack) (h : heap) (b b' : nat) (v r : value) : Prop :=
  match v with
  | VRef l =>
      match h0 !! l with
      | Some o =>
          match classify object bitmask o with
          | CSame => r = v
          | CEmpty =>
              ∃ c, r = VRef c ∧ b ≤ c < b' ∧ h !! c = Some empty_object
          | CBuffer =>
              ∃ c o', r = VRef c ∧ b ≤ c < b' ∧ h !! c = Some o'
                      ∧ buffer_copy h0 (flag bitmask CLONE_DEEP_FLAG) h b b'
                          o o'
          | CShallow =>
              ∃ c o', r = VRef c ∧ b ≤ c < b' ∧ h !! c = Some o'
                      ∧ shallow_copy o o'
          | CReg =>
              stack_get s v = r ∧ ∃ c, r = VRef c ∧ length h0 ≤ c < length h
          end
      | None => False
      end
  | _ => r = v
  end.

(** The results [rs] of the calls a traversal loop makes on the children
    [subs], in order, starting with the store at size [b]. *)
Fixpoint trace_ok (h0 : heap) (object : value) (bitmask : Z)
    (s : Stack) (h : heap) (b : nat) (subs rs : list value) : Prop :=
  match subs, rs with
  | [], [] => b ≤ length h
  | v :: subs', r :: rs' =>
      ∃ b', b ≤ b'
            ∧ clone_in h0 object bitmask s h b b' v r
            ∧ trace_ok h0 object bitmask s h b' subs' rs'
  | _, _ => False
  end.

(** The loop that populates the shell of [o] (lines 254-301): its
    entries, the child and the key it hands to the recursive call, and how
    the result enters the shell. *)
Definition loop_items (o : obj) (ks : list value) : list (value * value) :=
  match kind o with
  | KMap _ => map_entries o
  | KSet _ => set_entries o
  | KArray es => imap (λ i v, (v, VPrim (PNum (Z.of_nat i)))) es
  | _ => imap (λ i v, (v, VPrim (PNum (Z.of_nat i)))) ks
  end.

Definition loop_sub (o : obj) (parent : value) (h : heap)
    (x : value * value) : value :=
  match kind o with
  | KMap _ | KSet _ | KArray _ => x.1
  | _ => get h parent x.1
  end.

Definition loop_key (o : obj) (x : value * value) : value :=
  match kind o with
  | KMap _ | KArray _ => x.2
  | _ => x.1
  end.

Definition loop_put (o : obj) (key r : value) : obj → obj :=
  match kind o with
  | KMap _ => Map_set_obj key r
  | KSet _ => Set_add_obj r
  | _ => assign_obj key r
  end.

(** How the loop stores a result in the shell [c]: through the methods
    [set] and [add] of the shell of a Map and of a Set, by assignment
    otherwise. *)
Definition loop_store (o : obj) (c : loc) (key r : value) (h : heap)
  : option heap :=
  match kind o with
  | KMap _ => res_option (Map_set h (VRef c) key r)
  | KSet _ => res_option (Set_add h (VRef c) r)
  | _ => Some (assignValue h (VRef c) key r)
  end.

(** The shell of a Map stays a Map, and the shell of a Set a Set. *)
Definition keeps_kind (o oc : obj) : Prop :=
  match kind o with
  | KMap _ => is_map (kind oc) = true
  | KSet _ => is_set (kind oc) = true
  | _ => True
  end.

(** The callback of the three loops, in one form. *)
Definition loop_cb (rec : clone_fn) (bitmask : Z) (o : obj) (parent : value)
    (c : loc) : value → value → St → option St :=
  λ x k '(s, h),
    '(r, out, h2) ← rec (loop_sub o parent h (x, k)) bitmask None
                      (loop_key o (x, k)) parent (Some s) h;
    h3 ← loop_store o c (loop_key o (x, k)) r h2;
    Some (stack_after s out, h3).

(** The shell [c] of the original [o] after its children were visited. *)
Definition populated (h0 : heap) (bitmask : Z) (v : value) (o : obj)
    (c : loc) (s' : Stack) (h' : heap) : Prop :=
  isTypedArray o = true ∨
  ∃ ks subs rs shell0 b,
    (∀ p, p ∈ (props o).*1 → is_string_key p = true → VPrim p ∈ ks)
    ∧ Forall2 (λ x sub, ∃ hx, frame h0 hx ∧ sub = loop_sub o v hx x)
        (loop_items o ks) subs
    ∧ shell_of o shell0
    ∧ h' !! c = Some (foldl (λ o' xr, loop_put o (loop_key o xr.1) xr.2 o')
                        shell0 (zip (loop_items o ks) rs))
    ∧ c < b
    ∧ trace_ok h0 v bitmask s' h' b subs rs.

(** What a call does to the registry: a value of class [CReg] is found
    in it, or is entered into it (below everything the call enters
    later); any other value leaves the variable [stack] as it was. *)
Definition stack_post (h0 : heap) (object : value) (bitmask : Z)
    (v : value) (stack : option Stack) (h : heap) (r : value)
    (stack' : option Stack) (h' : heap) : Prop :=
  let s := default [] stack in
  let s' := stack_after s stack' in
  match v with
  | VRef l =>
      match h0 !! l with
      | Some o =>
          match classify object bitmask o with
          | CReg =>
              stack' = Some s' ∧
              ((v ∈ s.*1 ∧ s' = s) ∨
               ((v ∉ s.*1) ∧
                ∃ add c, r = VRef c ∧ length h ≤ c ∧ s' = add ++ (v, r) :: s
                         ∧ populated h0 bitmask v o c s' h'))
          | CSame => stack' = stack ∧ h' = h
          | _ => stack' = stack
          end
      | None => stack' = stack
      end
  | _ => stack' = stack ∧ h' = h
  end.

Definition call_pre (h0 : heap) (bitmask : Z) (m : nat) (v : value)
    (stack : option Stack) (h : heap) : Prop :=
  frame h0 h ∧ stack_inv h0 bitmask h (default [] stack)
  ∧ val_ok (length h0) v = true ∧ unreg (length h0) (default [] stack) < m.

Definition call_post (h0 : heap) (object : value) (bitmask : Z)
    (v : value) (stack : option Stack) (h : heap) (r : value)
    (stack' : option Stack) (h' : heap) : Prop :=
  let s := default [] stack in
  let s' := stack_after s stack' in
  frame h h' ∧ stack_inv h0 bitmask h' s' ∧ (∃ add, s' = add ++ s)
  ∧ clone_in h0 object bitmask s' h' (length h) (length h') v r
  ∧ stack_post h0 object bitmask v stack h r stack' h'.

(** A function that behaves as [baseClone] without customizer on every
    state whose measure is below [m]. *)
Definition clones (h0 : heap) (m : nat) (rec : clone_fn) : Prop :=
  ∀ v bitmask key object stack h,
    call_pre h0 bitmask m v stack h →
    ∃ r stack' h',
      rec v bitmask None key object stack h = Some (r, stack', h')
      ∧ call_post h0 object bitmask v stack h r stack' h'.

(** The store [h'] keeps every cell of [h] but the cell [c]. *)
Definition frame_but (c : loc) (h h' : heap) : Prop :=
  length h ≤ length h' ∧ ∀ l o, l ≠ c → h !! l = Some o → h' !! l = Some o.

(** ** The finished clones of a traversal *)

(** [image h0 parent bitmask s v r]: [r] stands in the clone of [parent]
    where [parent] holds [v].  A value that is not an object stands for
    itself, and so does an object that line 237 returns as it is; an
    object that reaches the registry is replaced by the clone that the
    registry [s] records for it; any other object by a new one. *)
Definition image (h0 : heap) (parent : value) (bitmask : Z) (s : Stack)
    (v r : value) : Prop :=
  match v with
  | VRef l =>
      match h0 !! l with
      | Some o =>
          match classify parent bitmask o with
          | CSame => r = v
          | CReg => stack_get s v = r ∧ ∃ c, r = VRef c ∧ length h0 ≤ c
          | _ => ∃ c, r = VRef c ∧ length h0 ≤ c
          end
      | None => False
      end
  | _ => r = v
  end.

(** The shell that lines 225-241 make for an object that is neither an
    array nor a view on a buffer: its internal slots and its prototype. *)
Definition shell_slots (isFlat : bool) (o : obj) : option (okind * option loc) :=
  match kind o with
  | KObject | KArguments => Some (KObject, if isFlat then None else proto o)
  | KFunction => Some (KObject, None)
  | KBoolean b => Some (KBoolean b, proto o)
  | KDate t => Some (KDate t, proto o)
  | KNumber n => Some (KNumber n, proto o)
  | KString s => Some (KString s, proto o)
  | KSymbol id => Some (KSymbol id, None)
  | KRegExp source flags lastIndex =>
      Some (KRegExp source flags lastIndex, proto o)
  | KMap _ => Some (KMap [], proto o)
  | KSet _ => Some (KSet [], proto o)
  | KArrayBuffer bytes => Some (KArrayBuffer bytes, proto o)
  | _ => None
  end.

(** The named properties of the shell of an array: [index] and [input]
    of the result of [RegExp#exec] (lines 153-159). *)
Definition match_props (o : obj) : list (prim * value) :=
  if negb (length (elems_of o) =? 0)
     && is_string_value (default VUndef (elems_of o !! 0))
     && hasOwnProperty o (PStr "index")
  then [(PStr "index", default VUndef (own_get (props o) (PStr "index")));
        (PStr "input", default VUndef (own_get (props o) (PStr "input")))]
  else [].

(** The shell that the first half of an activation registers: an array
    of as many empty slots, an empty Map or Set, and for another object
    a cell without properties that has the slots and the prototype of
    [shell_slots]. *)
Definition shell_ok (isFlat : bool) (o shell0 : obj) : Prop :=
  match kind o with
  | KArray es =>
      shell0 = Obj (KArray (replicate (length es) VUndef)) None (match_props o)
  | KMap _ => shell0 = Obj (KMap []) None []
  | KSet _ => shell0 = Obj (KSet []) None []
  | _ =>
      props shell0 = [] ∧ (∀ es, kind shell0 ≠ KArray es)
      ∧ ∀ k p, shell_slots isFlat o = Some (k, p) →
               kind shell0 = k ∧ proto shell0 = p
  end.

(** The pair [(v, r)] of the registry [s] is finished in the store [h]:
    the cell of [r] is the shell of [v] into which the image of every
    child of [v] has been put, in the order of the traversal. *)
Definition finished (h0 : heap) (bitmask : Z) (s : Stack) (h : heap)
    (v r : value) : Prop :=
  ∃ l c o,
    v = VRef l ∧ r = VRef c ∧ h0 !! l = Some o ∧ length h0 ≤ c
    ∧ (isTypedArray o = true ∨
       ∃ ks subs rs shell0,
         (∀ p, p ∈ (props o).*1 → is_string_key p = true → VPrim p ∈ ks)
         ∧ Forall2 (λ x sub, ∃ hx, frame h0 hx ∧ sub = loop_sub o v hx x)
             (loop_items o ks) subs
         ∧ shell_ok (flag bitmask CLONE_FLAT_FLAG) o shell0
         ∧ h !! c = Some (foldl (λ o' xr, loop_put o (loop_key o xr.1) xr.2 o')
                            shell0 (zip (loop_items o ks) rs))
         ∧ Forall2 (image h0 v bitmask s) subs rs).

(** Every pair of the registry is finished, but those of the originals
    [open], whose children are being visited; no clone is recorded
    twice. *)
Definition finished_but (h0 : heap) (bitmask : Z) (open : list value)
    (s : Stack) (h : heap) : Prop :=
  NoDup s.*2 ∧ ∀ v r, (v, r) ∈ s → v ∈ open ∨ finished h0 bitmask s h v r.

(** A function that, like [baseClone] without customizer, leaves every
    pair finished that it found finished or entered itself. *)
Definition finishes (h0 : heap) (m : nat) (rec : clone_fn) : Prop :=
  ∀ v bitmask key object stack h open r stack' h',
    call_pre h0 bitmask m v stack h →
    finished_but h0 bitmask open (default [] stack) h →
    rec v bitmask None key object stack h = Some (r, stack', h') →
    finished_but h0 bitmask open (stack_after (default [] stack) stack') h'.

(** [clone_of h0 bitmask s l o oc]: the cell [oc] is the finished clone of
    the original [o] at [l], with the registry [s].  The clone of an array
    is an instance of [Array] that holds the image of each element, and of
    the named properties those of [match_props] alone; the clone of a Map
    holds the keys of the original, as they are and in the same order, each
    with the image of its value; the clone of a Set holds the images of the
    members, in the same order; the clone of another object has the slots
    and the prototype of [shell_slots] and holds, under every own string
    key of the original, the image of the value.  (Nothing is said here of
    a view on a buffer, whose shell is final, nor of the kinds that are
    never registered.) *)
Definition clone_of (h0 : heap) (bitmask : Z) (s : Stack) (l : loc)
    (o oc : obj) : Prop :=
  match kind o with
  | KArray es =>
      ∃ rs, oc = Obj (KArray rs) None (match_props o)
            ∧ Forall2 (image h0 (VRef l) bitmask s) es rs
  | KMap es =>
      ∃ rs, oc = Obj (KMap (zip es.*1 rs)) None []
            ∧ Forall2 (image h0 (VRef l) bitmask s) es.*2 rs
  | KSet ms =>
      ∃ rs, oc = Obj (KSet (foldl add_once [] rs)) None []
            ∧ Forall2 (image h0 (VRef l) bitmask s) ms rs
  | KTypedArray _ _ _ _ | KBuffer _ _ _ | KError | KWeakMap => True
  | _ =>
      (∀ k p, shell_slots (flag bitmask CLONE_FLAT_FLAG) o = Some (k, p) →
              kind oc = k ∧ proto oc = p)
      ∧ ∀ p sub,
          own_get (props o) p = Some sub → is_string_key p = true →
          ∃ r, own_get (props oc) p = Some r
               ∧ image h0 (VRef l) bitmask s sub r
  end.


(** ** Sample stores and customizers *)

(** An object whose properties ["p"] and ["q"] refer to one buffer. *)
Definition buffer_twice : heap :=
  [Obj KObject None [(PStr "p", VRef 1); (PStr "q", VRef 1)];
   Obj (KBuffer 2 0 2) None [];
   Obj (KArrayBuffer [1; 2]%Z) None []].

(** A structure whose property ["err"] is an error object. *)
Definition holds_error : heap :=
  [Obj KObject None [(PStr "err", VRef 1)];
   Obj KError None [(PStr "message", VPrim (PStr "boom"))]].

(** A Map with a primitive and an object among its values, keyed by a
    string and by an object. *)
Definition sample_map : heap :=
  [Obj (KMap [(VPrim (PStr "x"), VRef 1); (VRef 1, VPrim (PNum 3))]) None [];
   Obj KObject None [(PStr "y", VPrim (PNum 1))]].

(** A structure and an array that hold the same nested object. *)
Definition nested : heap :=
  [Obj KObject None [(PStr "child", VRef 2)];
   Obj (KArray [VPrim (PNum 7); VRef 2]) None [];
   Obj KObject None [(PStr "n", VPrim (PNum 1))]].

(** A function whose property ["self"] refers to the function. *)
Definition fn_self : heap := [Obj KFunction None [(PStr "self", VRef 0)]].

(** An array with a named property ["self"] that refers to the array. *)
Definition arr_self : heap :=
  [Obj (KArray [VPrim (PNum 1)]) None [(PStr "self", VRef 0)]].

(** An object whose properties ["left"] and ["right"] refer to one
    buffer. *)
Definition shared_buffer : heap :=
  [Obj KObject None [(PStr "left", VRef 1); (PStr "right", VRef 1)];
   Obj (KBuffer 2 0 2) None [];
   Obj (KArrayBuffer [1; 2]%Z) None []].

(** An error object and a Date, each with a property ["child"] that
    refers to a plain object. *)
Definition error_child : heap :=
  [Obj KObject None [(PStr "n", VPrim (PNum 1))];
   Obj KError None [(PStr "child", VRef 0)]].

Definition date_child : heap :=
  [Obj KObject None [(PStr "n", VPrim (PNum 1))];
   Obj (KDate 0) None [(PStr "child", VRef 0)]].

(** A Map with an error object among its values. *)
Definition map_error : heap :=
  [Obj (KMap [(VPrim (PStr "e"), VRef 1)]) None [];
   Obj KError None []].


(** An array with two named properties that refer to one object. *)
Definition named_on_array : heap :=
  [Obj (KArray []) None [(PStr "left", VRef 1); (PStr "right", VRef 1)];
   Obj KObject None []].


(** The key enumeration chosen on lines 279-285. *)
Definition keysFunc (bitmask : Z) : heap → value → list value :=
  if flag bitmask CLONE_SYMBOLS_FLAG
  then (if flag bitmask CLONE_FLAT_FLAG then getAllKeysIn else getAllKeys)
  else (if flag bitmask CLONE_FLAT_FLAG then keysIn else keys).

(** The boxed primitives and dates that lines 104-106 and 125-127
    rebuild through their own constructor. *)
Definition boxed (k : okind) : bool :=
  match k with
  | KBoolean _ | KDate _ | KNumber _ | KString _ => true
  | _ => false
  end.

(** A Date with a property, and an object with string and symbol keys,
    the last one a reference to the Date. *)
Definition keyed_store : heap :=
  [Obj (KDate 86400000) None [(PStr "label", VPrim (PStr "day one"))];
   Obj KObject None [(PStr "a", VPrim (PNum 1)); (PSym 7, VPrim (PNum 2));
                     (PStr "when", VRef 0)]].


(** The result of a [RegExp#exec] call, with its [index] and [input],
    and an array of numbers with an [index] of its own. *)
Definition exec_result : heap :=
  [Obj (KArray [VPrim (PStr "ab"); VPrim (PStr "b")]) None
     [(PStr "index", VPrim (PNum 3)); (PStr "input", VPrim (PStr "xyzab"));
      (PStr "groups", VUndef)];
   Obj (KArray [VPrim (PNum 1)]) None [(PStr "index", VPrim (PNum 3))]].


(** Two objects that refer to each other, the second one holding a
    function and an array of both. *)
Definition pair_cycle : heap :=
  [Obj KObject None [(PStr "b", VRef 1); (PStr "n", VPrim (PNum 1))];
   Obj KObject None [(PStr "a", VRef 0); (PStr "f", VRef 2);
                     (PStr "both", VRef 3)];
   Obj KFunction None [];
   Obj (KArray [VRef 0; VRef 1; VPrim (PStr "end")]) None []].


(** An object with an inherited property. *)
Definition with_proto : heap :=
  [Obj KObject None [(PStr "inherited", VPrim (PNum 1))];
   Obj KObject (Some 0) [(PStr "own", VPrim (PNum 2))]].


(** An array, a Map and a Set that refer to each other in a cycle. *)
Definition tangled : heap :=
  [Obj (KArray [VPrim (PNum 1); VRef 1]) None [];
   Obj (KMap [(VPrim (PStr "k"), VRef 2)]) None [];
   Obj (KSet [VRef 0; VPrim (PStr "m")]) None [(PStr "back", VRef 1)]].


(** A customizer that answers [42] for every node. *)
Definition always_42 : Customizer := λ _ _ _ _ _, VPrim (PNum 42).

(** A customizer whose chosen replacement is [undefined]. *)
Definition always_undefined : Customizer := λ _ _ _ _ _, VUndef.

(** A customizer that has no opinion on the root and answers, for a
    child, the key of the child. *)
Definition key_of_child : Customizer :=
  λ v key object _ _,
    if truthy object then
      match key with VUndef => VPrim PNull | _ => key end
    else VUndef.


(** A RegExp in the middle of a global search. *)
Definition searching : heap := [Obj (KRegExp "ab" "g" 3) None []].

(** * Properties *)

(** ** Stores and frames *)

Lemma frame_refl h : frame h h.
Proof. by intros l o. Qed.

Lemma frame_trans h1 h2 h3 : frame h1 h2 → frame h2 h3 → frame h1 h3.
Proof. intros H12 H23 l o Hl. eauto. Qed.

Lemma frame_app h ext : frame h (h ++ ext).
Proof. intros l o Hl. by apply lookup_app_l_Some. Qed.

Lemma frame_length h h' : frame h h' → length h ≤ length h'.
Proof.
  intros Hf. destruct (decide (length h = 0)) as [->|Hne]; [lia|].
  destruct (lookup_lt_is_Some_2 h (pred (length h))) as [o Ho]; [lia|].
  apply Hf, lookup_lt_Some in Ho. lia.
Qed.

Lemma frame_alter h h' (f : obj → obj) c :
  length h ≤ c → frame h h' → frame h (alter f c h').
Proof.
  intros Hc Hf l o Hl. rewrite list_lookup_alter_ne; [by apply Hf|].
  apply lookup_lt_Some in Hl. lia.
Qed.

Lemma alloc_spec h o :
  alloc h o = (VRef (length h), h ++ [o]).
Proof. done. Qed.

Lemma lookup_alloc h (o : obj) : (h ++ [o]) !! length h = Some o.
Proof. by rewrite lookup_app_r, Nat.sub_diag. Qed.

(** ** The registry *)

Lemma stack_get_absent (s : Stack) k : k ∉ s.*1 → stack_get s k = VUndef.
Proof.
  induction s as [|[k' v] s IH]; simpl; [done|]. intros Hk.
  rewrite not_elem_of_cons in Hk. destruct Hk as [Hne Hk].
  destruct (decide (k' = k)); [congruence|auto].
Qed.

Lemma stack_get_app (add s : Stack) k :
  k ∉ add.*1 → stack_get (add ++ s) k = stack_get s k.
Proof.
  induction add as [|[k' v] add IH]; simpl; [done|]. intros Hk.
  rewrite not_elem_of_cons in Hk. destruct Hk as [Hne Hk].
  destruct (decide (k' = k)); [congruence|auto].
Qed.

Lemma stack_get_elem (s : Stack) k :
  k ∈ s.*1 → (k, stack_get s k) ∈ s.
Proof.
  induction s as [|[k' v] s IH]; simpl; [by intros ?%elem_of_nil|].
  intros Hk. destruct (decide (k' = k)) as [->|Hne]; [left|].
  right. apply IH. apply elem_of_cons in Hk as [?|?]; [congruence|done].
Qed.

Lemma stack_inv_truthy h0 bitmask h s k :
  stack_inv h0 bitmask h s → k ∈ s.*1 →
  ∃ l c o, k = VRef l ∧ stack_get s k = VRef c ∧ h0 !! l = Some o
           ∧ classify VUndef bitmask o = CReg ∧ length h0 ≤ c < length h.
Proof.
  intros [_ Hall] Hk. apply stack_get_elem in Hk.
  rewrite Forall_forall in Hall.
  destruct (Hall _ Hk) as (l & c & o & Heq & ? & ? & ?).
  exists l, c, o. by simplify_eq.
Qed.

Lemma stack_miss h0 bitmask h s k :
  stack_inv h0 bitmask h s → truthy (stack_get s k) = false → k ∉ s.*1.
Proof.
  intros Hinv Hf Hk.
  destruct (stack_inv_truthy _ _ _ _ _ Hinv Hk) as (l & c & o & _ & Hc & _).
  by rewrite Hc in Hf.
Qed.

Lemma stack_get_grow h0 bitmask h (add s : Stack) k :
  stack_inv h0 bitmask h (add ++ s) → k ∈ s.*1 →
  stack_get (add ++ s) k = stack_get s k.
Proof.
  intros [Hnd _] Hk. apply stack_get_app.
  rewrite fmap_app in Hnd. apply NoDup_app in Hnd as (_ & Hdisj & _).
  intros Hin. by apply (Hdisj k).
Qed.

Lemma stack_inv_mono h0 bitmask h h' s :
  length h ≤ length h' →
  stack_inv h0 bitmask h s → stack_inv h0 bitmask h' s.
Proof.
  intros Hlen [Hnd Hall]. split; [done|].
  eapply Forall_impl; [done|]. intros p (l & c & o & -> & ? & ? & ?).
  exists l, c, o. split_and!; try done; lia.
Qed.

Lemma stack_inv_nil h0 bitmask h : stack_inv h0 bitmask h [].
Proof. split; [constructor|constructor]. Qed.

Lemma stack_inv_set h0 bitmask h s l c o :
  stack_inv h0 bitmask h s → VRef l ∉ s.*1 → h0 !! l = Some o →
  classify VUndef bitmask o = CReg → length h0 ≤ c < length h →
  stack_inv h0 bitmask h (stack_set s (VRef l) (VRef c)).
Proof.
  intros [Hnd Hall] Hl Ho Hb Hc. split.
  - simpl. by constructor.
  - constructor; [|done]. by exists l, c, o.
Qed.

Lemma unreg_app n0 (add s : Stack) : unreg n0 (add ++ s) ≤ unreg n0 s.
Proof.
  unfold unreg.
  rewrite (list_filter_iff (λ l, VRef l ∉ (add ++ s).*1)
             (λ l, (VRef l ∉ add.*1) ∧ VRef l ∉ s.*1)).
  - rewrite <- list_filter_filter. apply length_filter.
  - intros l. rewrite fmap_app, not_elem_of_app. done.
Qed.

Lemma unreg_set n0 (s : Stack) l v :
  l < n0 → VRef l ∉ s.*1 → unreg n0 (stack_set s (VRef l) v) < unreg n0 s.
Proof.
  intros Hl Hnew. unfold unreg, stack_set.
  rewrite (list_filter_iff (λ l', VRef l' ∉ ((VRef l, v) :: s).*1)
             (λ l', l' ≠ l ∧ VRef l' ∉ s.*1)).
  - rewrite <- list_filter_filter. apply (length_filter_lt _ _ l).
    + apply list_elem_of_filter. split; [done|]. apply elem_of_seq. lia.
    + by intros ?.
  - intros l'. rewrite fmap_cons, not_elem_of_cons. simpl.
    split; (intros [? ?]; split; [congruence|done]).
Qed.

(** ** Results stay valid while the traversal goes on *)

Lemma stack_get_ref_elem (s : Stack) k c : stack_get s k = VRef c → k ∈ s.*1.
Proof.
  intros Hget. destruct (decide (k ∈ s.*1)) as [|Hn]; [done|].
  by rewrite (stack_get_absent _ _ Hn) in Hget.
Qed.

Lemma frame_but_refl c h : frame_but c h h.
Proof. split; [lia|by intros]. Qed.

Lemma frame_but_trans c h1 h2 h3 :
  frame_but c h1 h2 → frame_but c h2 h3 → frame_but c h1 h3.
Proof. intros [? H12] [? H23]. split; [lia|]. intros l o ? ?. eauto. Qed.

Lemma frame_frame_but c h h' : frame h h' → frame_but c h h'.
Proof. intros Hf. split; [by apply frame_length|]. intros l o _. apply Hf. Qed.

Lemma frame_but_alter c (f : obj → obj) h : frame_but c h (alter f c h).
Proof.
  split; [by rewrite length_alter|]. intros l o Hne Hl.
  by rewrite list_lookup_alter_ne.
Qed.

Lemma frame_but_frame c h0 h h' :
  length h0 ≤ c → frame h0 h → frame_but c h h' → frame h0 h'.
Proof.
  intros Hc Hf [_ Hb] l o Hl. apply Hb; [|by apply Hf].
  apply lookup_lt_Some in Hl. lia.
Qed.

Lemma clone_in_stable h0 object bitmask s1 add h1 h' c b b' v r :
  clone_in h0 object bitmask s1 h1 b b' v r →
  c < b → frame_but c h1 h' →
  stack_inv h0 bitmask h' (add ++ s1) →
  clone_in h0 object bitmask (add ++ s1) h' b b' v r.
Proof.
  intros Hcl Hc [Hlen Hfb] Hinv. unfold clone_in in *.
  destruct v as [|p|l]; [done..|]. destruct (h0 !! l) as [o|]; [|done].
  destruct (classify object bitmask o).
  - done.
  - destruct Hcl as (c' & -> & ? & Hc'). exists c'.
    split_and!; [done|lia|lia|]. apply Hfb; [lia|done].
  - destruct Hcl as (c' & o' & -> & ? & Hc' & Hcopy). exists c', o'.
    split_and!; [done|lia|lia|apply Hfb; [lia|done]|].
    revert Hcopy. unfold buffer_copy. destruct (kind o); try done.
    destruct (flag bitmask CLONE_DEEP_FLAG); [|done].
    intros (nb & bs & pr & ? & ? & Hnb & ?). exists nb, bs, pr.
    split_and!; [done|lia|lia|apply Hfb; [lia|done]|done].
  - destruct Hcl as (c' & o' & -> & ? & Hc' & ?). exists c', o'.
    split_and!; [done|lia|lia| |done]. apply Hfb; [lia|done].
  - destruct Hcl as (Hget & c' & -> & ?). split.
    + rewrite (stack_get_grow _ _ _ _ _ _ Hinv); [done|].
      by eapply stack_get_ref_elem.
    + exists c'. split; [done|lia].
Qed.

Lemma trace_ok_bound h0 object bitmask s h b subs rs :
  trace_ok h0 object bitmask s h b subs rs → b ≤ length h.
Proof.
  revert b rs. induction subs as [|v subs IH]; intros b [|r rs]; simpl; try done.
  intros (b' & ? & _ & Htr). apply IH in Htr. lia.
Qed.

Lemma trace_ok_length h0 object bitmask s h b subs rs :
  trace_ok h0 object bitmask s h b subs rs → length rs = length subs.
Proof.
  revert b rs. induction subs as [|v subs IH]; intros b [|r rs]; simpl; try done.
  intros (b' & ? & _ & Htr). f_equal. by eapply IH.
Qed.

(** ** The traversal loops

    One lemma for the three loops of lines 254-301: they differ in the
    children they enumerate and in how a result enters the shell [c]. *)
Section Loop.
Context (h0 : heap) (bitmask : Z) (m : nat) (rec : clone_fn).
Context (parent : value) (c : loc) (g : value → value → obj → obj).
Context (sub_of : heap → value * value → value).
Context (key_of : value * value → value).
Context (cb : value → value → St → option St).
Context (put : value → value → heap → option heap) (P : obj → Prop).
Hypothesis Hrec : clones h0 m rec.
Hypothesis Hcb : ∀ x k s h,
  cb x k (s, h) =
  '(r, out, h2) ← rec (sub_of h (x, k)) bitmask None (key_of (x, k)) parent
                    (Some s) h;
  h3 ← put (key_of (x, k)) r h2;
  Some (stack_after s out, h3).
Hypothesis Hput : ∀ key r h oc,
  h !! c = Some oc → P oc →
  put key r h = Some (alter (g key r) c h) ∧ P (g key r oc).

Lemma loop_trace items : ∀ s h shell0,
  frame h0 h → stack_inv h0 bitmask h s → unreg (length h0) s < m →
  length h0 ≤ c < length h → h !! c = Some shell0 → P shell0 →
  (∀ x hx, x ∈ items → frame h0 hx → val_ok (length h0) (sub_of hx x) = true) →
  ∃ subs rs s' h',
    forEach items cb (s, h) = Some (s', h')
    ∧ Forall2 (λ x sub, ∃ hx, frame h0 hx ∧ sub = sub_of hx x) items subs
    ∧ h' !! c = Some (foldl (λ o xr, g (key_of xr.1) xr.2 o) shell0
                        (zip items rs))
    ∧ frame_but c h h'
    ∧ (∃ add, s' = add ++ s)
    ∧ stack_inv h0 bitmask h' s'
    ∧ trace_ok h0 parent bitmask s' h' (length h) subs rs.
Proof.
  induction items as [|[x k] items IH];
    intros s h shell0 Hf Hinv Hm Hc Hshell HP Hsub.
  - exists [], [], s, h. simpl.
    split_and!; [done|constructor|done|apply frame_but_refl|by exists []|done|lia].
  - simpl. rewrite Hcb.
    destruct (Hrec (sub_of h (x, k)) bitmask (key_of (x, k)) parent (Some s) h)
      as (r & out & h1 & Hcall & Hfr & Hinv1 & [add1 Hadd1] & Hclone & _).
    { unfold call_pre. split_and!; [done|done| |done].
      apply Hsub; [left|done]. }
    rewrite Hcall.
    destruct (Hput (key_of (x, k)) r h1 shell0 (Hfr _ _ Hshell) HP)
      as [Hstore HP1].
    cbn [mbind option_bind]. rewrite Hstore. simpl in *.
    set (s1 := stack_after s out) in *.
    set (h1' := alter (g (key_of (x, k)) r) c h1).
    assert (Hlen1 : length h ≤ length h1) by by apply frame_length.
    assert (Hlen1' : length h1' = length h1) by apply length_alter.
    destruct (IH s1 h1' (g (key_of (x, k)) r shell0))
      as (subs & rs & s' & h' & Hloop & HF2 & Hc' & Hfb & [add Hadd] & Hinv' & Htr).
    { apply frame_alter; [lia|]. by eapply frame_trans. }
    { eapply stack_inv_mono; [|done]. lia. }
    { rewrite Hadd1. pose proof (unreg_app (length h0) add1 s). lia. }
    { lia. }
    { unfold h1'. rewrite list_lookup_alter_eq, (Hfr _ _ Hshell). done. }
    { done. }
    { intros y hy Hy. apply Hsub. by right. }
    exists (sub_of h (x, k) :: subs), (r :: rs), s', h'.
    rewrite Hloop. split_and!; try done.
    + constructor; [|done]. by exists h.
    + eapply frame_but_trans; [|done].
      eapply frame_but_trans; [by apply frame_frame_but|apply frame_but_alter].
    + exists (add ++ add1). by rewrite Hadd, Hadd1, app_assoc.
    + exists (length h1). split; [done|]. split; [|by rewrite <- Hlen1'].
      rewrite Hadd.
      eapply (clone_in_stable _ _ _ _ _ h1 _ c); [done|lia| |by rewrite <- Hadd].
      eapply frame_but_trans; [apply (frame_but_alter c)|done].
Qed.

End Loop.

(** ** The first half of an activation: classification and shells *)

Ltac by_kind o :=
  destruct o as [[| | | | | | | | | | | | | | | | [] | ] ? ?]; reflexivity.

Lemma tag_plain o :
  String.eqb (getTag o) objectTag || String.eqb (getTag o) argsTag
  = plain_kind (kind o).
Proof. by_kind o. Qed.

Lemma tag_cloneable o : cloneable (getTag o) = cloneable_kind (kind o).
Proof. by_kind o. Qed.

(** *** Instances of the built-in constructors *)

Lemma proto_chain_own h l o :
  h !! l = Some o → proto o = None → proto_chain (length h) h l = [o].
Proof.
  intros Hl Hp. destruct (length h) as [|n] eqn:Hlen.
  - apply lookup_lt_Some in Hl. lia.
  - simpl. by rewrite Hl, Hp.
Qed.

Lemma ctor_of_own h l o :
  h !! l = Some o → proto o = None →
  own_get (props o) (PStr "constructor") = None →
  ctor_of h l = CtorBuiltin (builtin_of (kind o)).
Proof.
  intros Hl Hp Hc. unfold ctor_of. rewrite (proto_chain_own h l o Hl Hp).
  cbn [chain_find chain_builtin last]. by rewrite Hc, Hp.
Qed.

Lemma plain_conversion_own h l o :
  h !! l = Some o → proto o = None →
  own_get (props o) (PStr "valueOf") = None →
  own_get (props o) (PStr "toString") = None →
  plain_conversion h l o = true.
Proof.
  intros Hl Hp Hv Ht. unfold plain_conversion.
  rewrite (proto_chain_own h l o Hl Hp).
  cbn [chain_find chain_builtin last]. rewrite Hv, Ht, Hp.
  by rewrite !bool_decide_eq_true_2.
Qed.

(** What [ctor_ok] says of an object that is cloned through its
    constructor. *)
Lemma ctor_ok_array o es :
  ctor_ok o = true → kind o = KArray es →
  proto o = None ∧ own_get (props o) (PStr "constructor") = None
  ∧ (Z.of_nat (length es) < 4294967296)%Z.
Proof.
  unfold ctor_ok, no_own. intros Hc Hk. rewrite Hk in Hc. cbn [forallb] in Hc.
  rewrite !andb_true_iff, !bool_decide_eq_true, Z.ltb_lt in Hc. tauto.
Qed.

Lemma ctor_ok_collection o :
  ctor_ok o = true → is_map (kind o) || is_set (kind o) = true →
  proto o = None ∧ own_get (props o) (PStr "constructor") = None.
Proof.
  unfold ctor_ok, no_own. intros Hc Hk.
  destruct (kind o); try discriminate; cbn [forallb] in Hc;
    rewrite !andb_true_iff, !bool_decide_eq_true in Hc; tauto.
Qed.

Lemma ctor_ok_boxed o :
  ctor_ok o = true →
  match kind o with
  | KBoolean _ | KNumber _ | KString _ | KDate _ => true
  | _ => false
  end = true →
  proto o = None ∧ own_get (props o) (PStr "constructor") = None
  ∧ own_get (props o) (PStr "valueOf") = None
  ∧ own_get (props o) (PStr "toString") = None.
Proof.
  unfold ctor_ok, no_own. intros Hc Hk.
  destruct (kind o); try discriminate; cbn [forallb] in Hc;
    rewrite !andb_true_iff, !bool_decide_eq_true in Hc; tauto.
Qed.

Lemma ctor_ok_date o t :
  ctor_ok o = true → kind o = KDate t →
  (- max_time <=? t)%Z && (t <=? max_time)%Z = true.
Proof.
  unfold ctor_ok. intros Hc Hk. rewrite Hk in Hc.
  rewrite !andb_true_iff in Hc. rewrite andb_true_iff. tauto.
Qed.

Lemma initCloneByTag_kind h l o d :
  h !! l = Some o → ctor_ok o = true →
  initCloneByTag h l o (getTag o) d = Ok (shell_by_kind h l o d).
Proof.
  intros Hl Hc. unfold initCloneByTag, shell_by_kind, getTag.
  destruct (kind o) as [| | | | | | | | | | | | | | | | [] | ] eqn:Hk;
    try reflexivity.
  - destruct (ctor_ok_boxed o Hc) as (Hp & Hcn & Hv & Ht); [by rewrite Hk|].
    cbn [String.eqb Ascii.eqb Bool.eqb tag_in existsb orb].
    unfold to_number, construct.
    rewrite (plain_conversion_own h l o), (ctor_of_own h l o), Hk by done.
    by destruct b.
  - destruct (ctor_ok_boxed o Hc) as (Hp & Hcn & Hv & Ht); [by rewrite Hk|].
    cbn [String.eqb Ascii.eqb Bool.eqb tag_in existsb orb].
    unfold to_number, construct.
    rewrite (plain_conversion_own h l o), (ctor_of_own h l o), Hk by done.
    cbn [builtin_of new_builtin]. by rewrite (ctor_ok_date o t Hc Hk).
  - destruct (ctor_ok_boxed o Hc) as (Hp & Hcn & Hv & Ht); [by rewrite Hk|].
    cbn [String.eqb Ascii.eqb Bool.eqb tag_in existsb orb].
    unfold construct. rewrite (ctor_of_own h l o), Hk by done.
    cbn [builtin_of new_builtin]. rewrite Hl. unfold to_number.
    by rewrite (plain_conversion_own h l o), Hk by done.
  - destruct (ctor_ok_boxed o Hc) as (Hp & Hcn & Hv & Ht); [by rewrite Hk|].
    cbn [String.eqb Ascii.eqb Bool.eqb tag_in existsb orb].
    unfold construct. rewrite (ctor_of_own h l o), Hk by done.
    cbn [builtin_of new_builtin]. rewrite Hl. unfold to_string.
    by rewrite (plain_conversion_own h l o), Hk by done.
  - destruct (ctor_ok_collection o Hc) as (Hp & Hcn); [by rewrite Hk|].
    cbn [String.eqb Ascii.eqb Bool.eqb tag_in existsb orb].
    unfold construct. by rewrite (ctor_of_own h l o), Hk by done.
  - destruct (ctor_ok_collection o Hc) as (Hp & Hcn); [by rewrite Hk|].
    cbn [String.eqb Ascii.eqb Bool.eqb tag_in existsb orb].
    unfold construct. by rewrite (ctor_of_own h l o), Hk by done.
Qed.

Lemma initCloneArray_plain h l o :
  h !! l = Some o → ctor_ok o = true → isArray o = true →
  initCloneArray h l o = Ok (array_shell h l o).
Proof.
  intros Hl Hc Ha. unfold isArray in Ha.
  destruct (kind o) as [| | | | |es| | | | | | | | | | | | ] eqn:Hk; try done.
  destruct (ctor_ok_array o es Hc Hk) as (Hp & Hcn & Hlen).
  unfold initCloneArray, array_shell, construct, elems_of.
  rewrite (ctor_of_own h l o), Hk by done. cbn [builtin_of new_builtin].
  assert (Hrange : (0 <=? Z.of_nat (length es))%Z
                   && (Z.of_nat (length es) <? 4294967296)%Z = true).
  { apply andb_true_iff. split; [apply Z.leb_le; lia|by apply Z.ltb_lt]. }
  rewrite Hrange, Nat2Z.id. unfold new_object. rewrite alloc_spec.
  by destruct (negb _ && _ && _).
Qed.

(** On an instance of a built-in constructor the first half of an
    activation is [init_plain]. *)
Lemma init_phase_plain object l o bitmask h :
  h !! l = Some o → ctor_ok o = true →
  init_phase object (VRef l) l o bitmask h
  = init_plain object (VRef l) l o bitmask h.
Proof.
  intros Hl Hc. unfold init_phase, init_plain.
  destruct (isArray o) eqn:Ha.
  - rewrite (initCloneArray_plain h l o Hl Hc Ha). by destruct (array_shell h l o).
  - rewrite (initCloneByTag_kind h l o _ Hl Hc).
    by destruct (shell_by_kind h l o _).
Qed.

Lemma fresh_alloc h o (P : obj → Prop) : P o → fresh_at h P (alloc h o).
Proof.
  intros HP. exists (length h), (h ++ [o]), o. split_and!; try done.
  - apply frame_app.
  - rewrite length_app. simpl. lia.
  - apply lookup_alloc.
Qed.

Lemma fresh_at_frame h h' P p :
  frame h h' → fresh_at h' P p → fresh_at h P p.
Proof.
  intros Hf (c & h1 & o' & -> & ? & ? & ? & ?). exists c, h1, o'.
  apply frame_length in Hf as Hlen.
  split_and!; [done|by eapply frame_trans|lia|lia|done|done].
Qed.

Lemma fresh_view h b (k : loc → okind) p (P : obj → Prop) (isDeep : bool) :
  (∀ b', P (Obj (k b') p [])) →
  fresh_at h P
    (if isDeep then
       let '(b', h1) := cloneArrayBuffer h b in
       alloc h1 (Obj (k (ref_or b b')) p [])
     else alloc h (Obj (k b) p [])).
Proof.
  intros HP. destruct isDeep; [|by apply fresh_alloc].
  unfold cloneArrayBuffer. rewrite alloc_spec.
  eapply fresh_at_frame; [apply frame_app|]. by apply fresh_alloc.
Qed.

Lemma fresh_initCloneArray h l o :
  fresh_at h (λ _, True) (array_shell h l o).
Proof.
  unfold array_shell. rewrite alloc_spec.
  set (o' := Obj _ _ _).
  assert (Hlen : length (h ++ [o']) = S (length h))
    by (rewrite length_app; simpl; lia).
  destruct (_ && _).
  - unfold assignValue.
    match goal with |- fresh_at _ _ (_, ?hh) =>
      destruct (lookup_lt_is_Some_2 hh (length h)) as [o'' Ho'']
    end; [rewrite !length_alter; lia|].
    eexists _, _, o''. split_and!; [done| | |rewrite !length_alter; lia|done|done].
    + do 2 (apply frame_alter; [lia|]). apply frame_app.
    + lia.
  - eexists _, _, o'. split_and!; [done|apply frame_app|lia|lia| |done].
    apply lookup_alloc.
Qed.

Lemma fresh_at_impl h (P Q : obj → Prop) p :
  (∀ o, P o → Q o) → fresh_at h P p → fresh_at h Q p.
Proof.
  intros HPQ (c & h1 & o' & ? & ? & ? & ? & ?). exists c, h1, o'. auto 10.
Qed.

Lemma fresh_cloneDataView h o d b off n :
  kind o = KDataView b off n → fresh_at h (λ _, True) (cloneDataView h o d).
Proof.
  intros Hk. unfold cloneDataView. rewrite Hk.
  by apply (fresh_view h b (λ b', KDataView b' off n)).
Qed.

Lemma fresh_cloneTypedArray h o d t b off n :
  kind o = KTypedArray t b off n →
  fresh_at h (λ _, True) (cloneTypedArray h o d).
Proof.
  intros Hk. unfold cloneTypedArray. rewrite Hk.
  by apply (fresh_view h b (λ b', KTypedArray t b' off n)).
Qed.

Lemma fresh_cloneBuffer h o d b off n :
  kind o = KBuffer b off n →
  fresh_at h (λ o', isBuffer o' = true) (cloneBuffer h o d).
Proof.
  intros Hk. unfold cloneBuffer. rewrite Hk.
  by apply (fresh_view h b (λ b', KBuffer b' off n)).
Qed.

Ltac init_simpl :=
  unfold init_phase, init_plain, classify;
  rewrite ?tag_plain, ?tag_cloneable;
  cbn [isArray isBuffer isFunction kind proto props plain_kind cloneable_kind
       shell_by_kind orb andb negb elems_of].

Ltac init_cases o bitmask object :=
  destruct o as [[] ? ?]; init_simpl;
  destruct (flag bitmask CLONE_DEEP_FLAG) eqn:?; cbn [negb andb orb];
  try destruct (truthy object) eqn:?; cbn [negb andb orb];
  try discriminate; intros _.

Lemma init_phase_reg object bitmask l o h :
  h !! l = Some o → ctor_ok o = true →
  classify object bitmask o = CReg →
  ∃ p, init_phase object (VRef l) l o bitmask h = Shell p.1 p.2
       ∧ fresh_at h (shell_of o) p.
Proof.
  intros Hl Hc. rewrite (init_phase_plain _ _ _ _ _ Hl Hc). clear Hl Hc.
  assert (Hlet : ∀ X : value * heap,
    (let '(result, h1) := X in Shell result h1) = Shell X.1 X.2)
    by by intros [].
  init_cases o bitmask object; rewrite Hlet; eexists; (split; [done|]).
  all: unfold cloneArrayBuffer, initCloneObject, cloneRegExp,
         cloneSymbol, shell_of;
       cbn [kind proto props].
  all: try (by apply fresh_alloc).
  all: try (destruct (flag bitmask CLONE_FLAT_FLAG); by apply fresh_alloc).
  all: try (eapply fresh_at_impl; [|apply fresh_initCloneArray]; done).
  all: try (by eapply fresh_cloneDataView).
  all: by eapply fresh_cloneTypedArray.
Qed.

Lemma classify_reg_not_buffer object bitmask o :
  classify object bitmask o = CReg → isBuffer o = false.
Proof. by init_cases o bitmask object. Qed.

(** A value that reaches the registry under a parent reaches it at the
    root as well; the converse holds for every value but a function. *)
Lemma classify_reg_root object bitmask o :
  classify object bitmask o = CReg → classify VUndef bitmask o = CReg.
Proof. by init_cases o bitmask object. Qed.

Lemma classify_reg_child object bitmask o :
  classify VUndef bitmask o = CReg → isFunction o = false →
  classify object bitmask o = CReg.
Proof.
  destruct o as [[] ? ?]; init_simpl;
    destruct (flag bitmask CLONE_DEEP_FLAG); cbn [negb andb orb]; done.
Qed.

Lemma init_phase_same object bitmask l o h :
  classify object bitmask o = CSame →
  init_phase object (VRef l) l o bitmask h = Return (VRef l) h.
Proof. init_cases o bitmask object; done. Qed.

Lemma init_phase_empty object bitmask l o h :
  classify object bitmask o = CEmpty →
  init_phase object (VRef l) l o bitmask h
  = Return (VRef (length h)) (h ++ [empty_object]).
Proof. init_cases o bitmask object; done. Qed.

Lemma init_phase_buffer object bitmask l o h :
  classify object bitmask o = CBuffer →
  ∃ p, init_phase object (VRef l) l o bitmask h = Return p.1 p.2
       ∧ fresh_at h (λ o', isBuffer o' = true) p.
Proof.
  assert (Hlet : ∀ X : value * heap,
    (let '(r, h1) := X in Return r h1) = Return X.1 X.2)
    by by intros [].
  init_cases o bitmask object; rewrite Hlet; eexists; (split; [done|]).
  all: by eapply fresh_cloneBuffer.
Qed.

Lemma init_phase_cloneBuffer object bitmask l o h :
  classify object bitmask o = CBuffer →
  init_phase object (VRef l) l o bitmask h
  = Return (cloneBuffer h o (flag bitmask CLONE_DEEP_FLAG)).1
      (cloneBuffer h o (flag bitmask CLONE_DEEP_FLAG)).2.
Proof.
  assert (Hlet : ∀ X : value * heap,
    (let '(r, h1) := X in Return r h1) = Return X.1 X.2)
    by by intros [].
  init_cases o bitmask object; by rewrite Hlet.
Qed.

Lemma bytes_of_frame (h0 h : heap) buf ob :
  frame h0 h → h0 !! buf = Some ob →
  bytes_of h buf = bytes_of h0 buf ∧ h !! buf ≫= proto = proto ob.
Proof.
  intros Hf Hb. unfold bytes_of. by rewrite (Hf _ _ Hb), Hb.
Qed.

(** What [cloneBuffer] allocates, in a store that keeps the originals. *)
Lemma cloneBuffer_copy (h0 h : heap) o d :
  frame h0 h → isBuffer o = true →
  ∃ c h1 o',
    cloneBuffer h o d = (VRef c, h1) ∧ frame h h1 ∧ length h ≤ c < length h1
    ∧ h1 !! c = Some o'
    ∧ buffer_copy h0 d h1 (length h) (length h1) o o'.
Proof.
  intros Hf Hb. unfold isBuffer in Hb. unfold cloneBuffer, buffer_copy.
  destruct (kind o) as [| | | | | | | | | | | | | | | | |buf off n]; try done.
  destruct d.
  - unfold cloneArrayBuffer, alloc. cbn [ref_or].
    set (ab := Obj (KArrayBuffer _) _ []). set (view := Obj (KBuffer _ _ _) _ []).
    exists (length (h ++ [ab])), ((h ++ [ab]) ++ [view]), view.
    assert (Hlen1 : length (h ++ [ab]) = S (length h))
      by (rewrite length_app; simpl; lia).
    assert (Hlen2 : length ((h ++ [ab]) ++ [view]) = S (S (length h)))
      by (rewrite length_app, Hlen1; simpl; lia).
    split_and!; [done| |lia|lia|apply lookup_alloc|].
    + intros l' o' Hl'. by do 2 apply lookup_app_l_Some.
    + exists (length h), (bytes_of h buf), (h !! buf ≫= proto).
      split_and!; [done|lia|lia| |].
      * apply lookup_app_l_Some. apply lookup_alloc.
      * intros ob Hob. by apply bytes_of_frame.
  - unfold alloc. set (view := Obj (KBuffer _ _ _) _ []).
    exists (length h), (h ++ [view]), view. rewrite length_app. cbn [length].
    split_and!; [done|apply frame_app|lia|lia|apply lookup_alloc|done].
Qed.

(** ** One-level copies *)

Lemma own_get_set_eq ps k v : own_get (own_set ps k v) k = Some v.
Proof.
  induction ps as [|[k' v'] ps IH]; simpl.
  - by rewrite decide_True.
  - destruct (decide (k' = k)) as [->|Hne]; simpl.
    + by rewrite decide_True.
    + by rewrite decide_False.
Qed.

Lemma own_get_set_ne ps k k' v :
  k ≠ k' → own_get (own_set ps k v) k' = own_get ps k'.
Proof.
  intros Hne. induction ps as [|[k0 v0] ps IH]; simpl.
  - by rewrite decide_False.
  - destruct (decide (k0 = k)) as [->|Hne0]; simpl.
    + by rewrite !decide_False.
    + destruct (decide (k0 = k')); [done|apply IH].
Qed.

Lemma own_get_elem ps k v : own_get ps k = Some v → k ∈ ps.*1.
Proof.
  induction ps as [|[k' v'] ps IH]; simpl; [done|].
  destruct (decide (k' = k)) as [->|Hne]; [by left|]. intros ?. right. auto.
Qed.

Lemma own_get_value ps k v : own_get ps k = Some v → v ∈ ps.*2.
Proof.
  induction ps as [|[k' v'] ps IH]; simpl; [done|].
  destruct (decide (k' = k)) as [->|Hne].
  - intros [= ->]. by left.
  - intros ?. right. auto.
Qed.

Lemma proto_chain_head h l o n :
  h !! l = Some o → ∃ os, proto_chain (S n) h l = o :: os.
Proof. intros Hl. simpl. rewrite Hl. by eexists. Qed.

(** Reading an own property finds the own value. *)
Lemma get_own h l o p v :
  h !! l = Some o → key_ok p = true → own_get (props o) p = Some v →
  get h (VRef l) (VPrim p) = v.
Proof.
  intros Hl Hk Hown. unfold get. rewrite Hl.
  assert (Hchain : chain_get (proto_chain (length h) h l) p = v).
  { destruct (length h) as [|n] eqn:Hlen.
    - apply lookup_lt_Some in Hl. lia.
    - destruct (proto_chain_head h l o n Hl) as [os ->]. simpl. by rewrite Hown. }
  destruct o as [[] ? ?], p; try done.
Qed.

Lemma assign_obj_plain p v o :
  kind o = KObject →
  assign_obj (VPrim p) v o = Obj KObject (proto o) (own_set (props o) p v).
Proof. intros Hk. unfold assign_obj. rewrite Hk. by destruct p. Qed.

(** The cell [c] after [copyObject]: the copied keys hold the values
    read from the source. *)
Lemma copyObject_inv ks : ∀ (Q : prim → Prop) h l c o oc,
  l ≠ c → h !! l = Some o → Forall (λ k, key_ok k = true) (props o).*1 →
  h !! c = Some oc → kind oc = KObject →
  (∀ p v, Q p → own_get (props o) p = Some v → own_get (props oc) p = Some v) →
  ∃ oc', (copyObject h (VRef l) ks (VRef c)).2 !! c = Some oc'
    ∧ kind oc' = KObject
    ∧ proto oc' = proto oc
    ∧ frame_but c h (copyObject h (VRef l) ks (VRef c)).2
    ∧ length (copyObject h (VRef l) ks (VRef c)).2 = length h
    ∧ (∀ p v, Q p ∨ VPrim p ∈ ks → own_get (props o) p = Some v →
              own_get (props oc') p = Some v).
Proof.
  unfold copyObject. cbn [snd].
  induction ks as [|k ks IH]; intros Q h l c o oc Hne Hl Hkeys Hc Hkind HQ;
    cbn [foldl].
  - exists oc. split_and!; [done|done|done|apply frame_but_refl|done|].
    intros p v [?|Hin]; [by apply HQ|]. by apply elem_of_nil in Hin.
  - change (assignValue h (VRef c) k (get h (VRef l) k))
      with (alter (assign_obj k (get h (VRef l) k)) c h).
    set (h1 := alter (assign_obj k (get h (VRef l) k)) c h).
    set (oc1 := assign_obj k (get h (VRef l) k) oc).
    assert (Hc1 : h1 !! c = Some oc1)
      by (unfold h1; by rewrite list_lookup_alter_eq, Hc).
    assert (Hl1 : h1 !! l = Some o)
      by (unfold h1; by rewrite list_lookup_alter_ne).
    assert (Hoc1 : kind oc1 = KObject ∧ proto oc1 = proto oc).
    { unfold oc1. destruct k as [|p|]; [done| |done].
      by rewrite assign_obj_plain. }
    destruct Hoc1 as [Hk1 Hp1].
    destruct (IH (λ p, Q p ∨ VPrim p = k) h1 l c o oc1 Hne Hl1 Hkeys Hc1 Hk1)
      as (oc' & Hc' & Hk' & Hp' & Hfb & Hlen & Hall).
    { intros p v [HQp|<-] Hown.
      - unfold oc1. destruct k as [|p'|]; [by apply HQ| |by apply HQ].
        rewrite assign_obj_plain by done. cbn [props].
        destruct (decide (p' = p)) as [->|Hpp].
        + rewrite own_get_set_eq. f_equal. eapply get_own; [done| |done].
          apply own_get_elem in Hown. rewrite Forall_forall in Hkeys. auto.
        + rewrite own_get_set_ne by done. by apply HQ.
      - unfold oc1. rewrite assign_obj_plain by done. cbn [props].
        rewrite own_get_set_eq. f_equal. eapply get_own; [done| |done].
        apply own_get_elem in Hown. rewrite Forall_forall in Hkeys. auto. }
    exists oc'. split_and!; [done|done|congruence| |by rewrite Hlen; apply length_alter|].
    + eapply frame_but_trans; [apply frame_but_alter|done].
    + intros p v [HQp|Hin] Hown; apply (Hall p v); auto.
      apply elem_of_cons in Hin as [->|?]; auto.
Qed.

Lemma elem_of_nub x ks : x ∈ ks → x ∈ nub ks.
Proof.
  induction ks as [|k ks IH]; simpl; [done|]. intros Hx.
  destruct (decide (x = k)) as [->|Hne]; [by left|]. right.
  apply list_elem_of_filter. split; [done|].
  apply IH. apply elem_of_cons in Hx as [?|?]; [congruence|done].
Qed.

Lemma own_keys_elem (f : prim → bool) o p :
  p ∈ (props o).*1 → f p = true → p ∈ own_keys f o.
Proof. intros Hp Hf. unfold own_keys. by apply list_elem_of_filter. Qed.

Lemma chain_keys_own (f : prim → bool) h l o p :
  h !! l = Some o → p ∈ (props o).*1 → f p = true → p ∈ chain_keys f h l.
Proof.
  intros Hl Hp Hf. unfold chain_keys. apply elem_of_nub.
  destruct (length h) as [|n] eqn:Hlen.
  { apply lookup_lt_Some in Hl. lia. }
  destruct (proto_chain_head h l o n Hl) as [os ->].
  rewrite fmap_cons. simpl. apply elem_of_app. left. by apply own_keys_elem.
Qed.

(** Every own key is enumerated, by each of the two one-level copies. *)
Lemma own_key_copied h h' l o p :
  h !! l = Some o → h' !! l = Some o → p ∈ (props o).*1 → key_ok p = true →
  VPrim p ∈ getAllKeys h (VRef l) ++ getSymbols h' (VRef l)
  ∧ VPrim p ∈ keysIn h (VRef l) ++ getSymbolsIn h' (VRef l).
Proof.
  intros Hl Hl' Hp Hk. unfold getAllKeys, keys, keysIn, getSymbols,
    getSymbolsIn, keys_of, own_of. rewrite Hl, Hl'.
  apply orb_true_iff in Hk as [Hs|Hs].
  - split; apply elem_of_app; left; [apply elem_of_app; left|];
      apply list_elem_of_fmap_2; [by apply own_keys_elem|by eapply chain_keys_own].
  - split; apply elem_of_app; right;
      apply list_elem_of_fmap_2; [by apply own_keys_elem|by eapply chain_keys_own].
Qed.

(** ** Copies of arrays *)

Lemma copy_elems p ps es2 : ∀ es1 xs2,
  length xs2 = length es2 →
  kind (foldl (λ o (x : nat * value),
                 assign_obj (VPrim (PNum (Z.of_nat x.1))) x.2 o)
          (Obj (KArray (es1 ++ xs2)) p ps)
          (imap (λ i v, (length es1 + i, v)) es2))
  = KArray (es1 ++ es2).
Proof.
  induction es2 as [|v es2 IH]; intros es1 [|x xs2] Hlen; simpl in Hlen;
    try done.
  cbn [imap foldl]. unfold assign_obj at 2. cbn [kind proto props fst snd].
  assert ((0 <=? Z.of_nat (length es1 + 0))%Z = true) as ->
    by (apply Z.leb_le; lia).
  rewrite Nat2Z.id, Nat.add_0_r. unfold set_elem.
  rewrite decide_True by (rewrite length_app; simpl; lia).
  rewrite insert_app_r_alt, Nat.sub_diag by lia. cbn [insert list_insert].
  rewrite (cons_middle v es1 xs2), app_assoc.
  rewrite (imap_ext _ (λ i v0, (length (es1 ++ [v]) + i, v0))).
  - rewrite IH by lia. by rewrite <- app_assoc.
  - intros i y _. simpl. rewrite length_app. simpl. f_equal. lia.
Qed.

Lemma foldl_alter_ext {A} (F : heap → A → heap) (f : A → obj → obj) c xs :
  (∀ h x, F h x = alter (f x) c h) →
  ∀ h, foldl F h xs = alter (λ o, foldl (λ o' x, f x o') o xs) c h.
Proof.
  intros HF. induction xs as [|x xs IH]; intros h; simpl.
  - symmetry. by apply list_alter_id.
  - by rewrite IH, HF, list_alter_alter_eq.
Qed.

Lemma copyArray_spec h c es p ps xs :
  h !! c = Some (Obj (KArray xs) p ps) → length xs = length es →
  ∃ o', (copyArray h es (VRef c)).2 !! c = Some o' ∧ kind o' = KArray es.
Proof.
  intros Hc Hlen. unfold copyArray. cbn [snd].
  rewrite (foldl_alter_ext _
             (λ x, assign_obj (VPrim (PNum (Z.of_nat x.1))) x.2) c)
    by by intros ? [].
  rewrite list_lookup_alter_eq, Hc. eexists. split; [done|].
  exact (copy_elems p ps es [] xs Hlen).
Qed.

Lemma copyArray_frame h c es : frame_but c h (copyArray h es (VRef c)).2.
Proof.
  unfold copyArray. cbn [snd].
  rewrite (foldl_alter_ext _
             (λ x, assign_obj (VPrim (PNum (Z.of_nat x.1))) x.2) c)
    by by intros ? [].
  apply frame_but_alter.
Qed.

Lemma initCloneArray_spec h l o :
  ∃ h1 ps',
    array_shell h l o = (VRef (length h), h1)
    ∧ frame h h1 ∧ length h1 = S (length h)
    ∧ h1 !! length h
      = Some (Obj (KArray (replicate (length (elems_of o)) VUndef))
                None ps').
Proof.
  unfold array_shell. rewrite alloc_spec.
  set (o' := Obj _ _ _).
  assert (Hlen : length (h ++ [o']) = S (length h))
    by (rewrite length_app; simpl; lia).
  destruct (_ && _).
  - unfold assignValue. eexists _, _. split; [done|]. split_and!.
    + do 2 (apply frame_alter; [lia|]). apply frame_app.
    + by rewrite !length_alter.
    + rewrite !list_lookup_alter_eq, lookup_alloc. done.
  - eexists _, _. split; [done|]. split_and!; [apply frame_app|done|].
    apply lookup_alloc.
Qed.

(** Two passes of [copyObject] over the key lists [ks1] and [ks2] into
    the new plain object [c] copy every own property of [l]. *)
Lemma copy_twice h l c o oc (ks1 : list value) (ks2 : heap → list value) :
  l ≠ c → h !! l = Some o → Forall (λ k, key_ok k = true) (props o).*1 →
  h !! c = Some oc → kind oc = KObject →
  (∀ h2 p, h2 !! l = Some o → p ∈ (props o).*1 → VPrim p ∈ ks1 ++ ks2 h2) →
  let h2 := (copyObject h (VRef l) ks1 (VRef c)).2 in
  let h3 := (copyObject h2 (VRef l) (ks2 h2) (VRef c)).2 in
  frame_but c h h3 ∧ length h3 = length h ∧
  ∃ oc', h3 !! c = Some oc' ∧ shallow_copy_plain o oc'.
Proof.
  intros Hne Hl Hkeys Hc Hk Hcover h2 h3.
  destruct (copyObject_inv ks1 (λ _, False) h l c o oc Hne Hl Hkeys Hc Hk)
    as (oc1 & Hc1 & Hk1 & _ & Hfb1 & Hlen1 & Hall1); [done|].
  fold h2 in Hc1, Hfb1, Hlen1.
  assert (Hl2 : h2 !! l = Some o) by (by apply Hfb1).
  destruct (copyObject_inv (ks2 h2) (λ p, VPrim p ∈ ks1) h2 l c o oc1
              Hne Hl2 Hkeys Hc1 Hk1)
    as (oc2 & Hc2 & Hk2 & _ & Hfb2 & Hlen2 & Hall2).
  { intros p v Hin Hown. apply Hall1; auto. }
  fold h3 in Hc2, Hfb2, Hlen2. split_and!.
  - by eapply frame_but_trans.
  - lia.
  - exists oc2. split; [done|]. split; [done|]. intros p v Hown.
    apply Hall2; [|done].
    pose proof (Hcover h2 p Hl2 (own_get_elem _ _ _ Hown)) as Hin.
    apply elem_of_app in Hin as [?|?]; auto.
Qed.

Lemma init_phase_shallow object bitmask l o h :
  classify object bitmask o = CShallow →
  h !! l = Some o → Forall (λ k, key_ok k = true) (props o).*1 →
  ctor_ok o = true →
  ∃ h' o',
    init_phase object (VRef l) l o bitmask h = Return (VRef (length h)) h'
    ∧ frame h h' ∧ length h < length h'
    ∧ h' !! length h = Some o' ∧ shallow_copy o o'.
Proof.
  intros Hcls Hl Hkeys Hctor. rewrite (init_phase_plain _ _ _ _ _ Hl Hctor).
  clear Hctor. revert Hcls.
  assert (Hne : l ≠ length h) by (apply lookup_lt_Some in Hl; lia).
  assert (Hplain : ∀ oc,
    kind oc = KObject → (∀ es, kind o ≠ KArray es) →
    ∃ h' o',
      (let '(result, h1) := alloc h oc in
       if flag bitmask CLONE_FLAT_FLAG then
         let '(r1, h2) := copyObject h1 (VRef l) (keysIn h1 (VRef l)) result in
         let '(r2, h3) := copySymbolsIn h2 (VRef l) r1 in Return r2 h3
       else
         let '(r1, h2) := Object_assign h1 result (VRef l) in
         let '(r2, h3) := copySymbols h2 (VRef l) r1 in Return r2 h3)
      = Return (VRef (length h)) h'
      ∧ frame h h' ∧ length h < length h'
      ∧ h' !! length h = Some o' ∧ shallow_copy o o').
  { intros oc Hoc Hnarr. rewrite alloc_spec.
    unfold Object_assign, copySymbols, copySymbolsIn.
    set (h1 := h ++ [oc]).
    assert (Hl1 : h1 !! l = Some o) by by apply lookup_app_l_Some.
    assert (Hc1 : h1 !! length h = Some oc) by apply lookup_alloc.
    assert (Hsh : ∀ oc', shallow_copy_plain o oc' → shallow_copy o oc').
    { intros oc' ?. unfold shallow_copy. destruct (kind o) eqn:?; try done.
      by edestruct Hnarr. }
    destruct (flag bitmask CLONE_FLAT_FLAG).
    - destruct (copy_twice h1 l (length h) o oc (keysIn h1 (VRef l))
                  (λ h2, getSymbolsIn h2 (VRef l)) Hne Hl1 Hkeys Hc1 Hoc)
        as (Hfb & Hlen & oc' & Hc' & Hcopy).
      { intros h2 p Hl2 Hp. eapply own_key_copied; try done.
        rewrite Forall_forall in Hkeys. auto. }
      match type of Hlen with length ?h3 = _ => exists h3, oc' end.
      split; [done|]. split_and!.
      + eapply (frame_but_frame (length h)); [lia|apply frame_app|done].
      + rewrite Hlen. unfold h1. rewrite length_app. simpl. lia.
      + done.
      + auto.
    - destruct (copy_twice h1 l (length h) o oc (getAllKeys h1 (VRef l))
                  (λ h2, getSymbols h2 (VRef l)) Hne Hl1 Hkeys Hc1 Hoc)
        as (Hfb & Hlen & oc' & Hc' & Hcopy).
      { intros h2 p Hl2 Hp. eapply own_key_copied; try done.
        rewrite Forall_forall in Hkeys. auto. }
      match type of Hlen with length ?h3 = _ => exists h3, oc' end.
      split; [done|]. split_and!.
      + eapply (frame_but_frame (length h)); [lia|apply frame_app|done].
      + rewrite Hlen. unfold h1. rewrite length_app. simpl. lia.
      + done.
      + auto. }
  init_cases o bitmask object.
  all: try (unfold initCloneObject; cbn [proto];
            rewrite ?orb_false_r, ?orb_true_r;
            destruct (flag bitmask CLONE_FLAT_FLAG) eqn:Hflat; cbv iota;
            match goal with
            | |- context [alloc _ ?oc] => specialize (Hplain oc eq_refl)
            end;
            apply Hplain; by intros ?).
  all: match goal with
       | |- context [array_shell _ _ ?o] =>
           destruct (initCloneArray_spec h l o)
             as (h1 & ps' & -> & Hf & Hlen & Hc)
       end;
       cbn [elems_of kind proto] in *;
       match goal with
       | |- context [copyArray _ ?es _] =>
           destruct (copyArray_spec h1 (length h) es _ _ _ Hc)
             as (o' & Hc' & Hk'); [by rewrite length_replicate|];
           pose proof (copyArray_frame h1 (length h) es) as [Hlen' Hfb];
           exists (copyArray h1 es (VRef (length h))).2, o'
       end;
       (split_and!; [done| |lia|done|done]);
       eapply (frame_but_frame (length h)); [lia|done|by split].
Qed.

(** ** Closed stores *)

Lemma obj_ok_unpack n o :
  obj_ok n o = true →
  Forall (λ v, val_ok n v = true) (child_values o)
  ∧ (∀ p, proto o = Some p → p < n)
  ∧ Forall (λ k, key_ok k = true) (props o).*1
  ∧ (∀ es, kind o = KMap es → NoDup es.*1).
Proof.
  unfold obj_ok. rewrite !andb_true_iff. intros [[[[Hc Hp] Hk] Hm] _].
  split_and!.
  - apply Forall_forall. intros v Hv. rewrite forallb_forall in Hc.
    apply Hc. by apply list_elem_of_In.
  - intros p Hpr. rewrite Hpr in Hp. simpl in Hp. by apply Nat.ltb_lt.
  - apply Forall_forall. intros v Hv. rewrite forallb_forall in Hk.
    apply Hk. by apply list_elem_of_In.
  - intros es Hes. rewrite Hes in Hm. by apply bool_decide_eq_true in Hm.
Qed.

Lemma heap_ok_lookup (h0 : heap) l o :
  heap_ok h0 = true → h0 !! l = Some o → obj_ok (length h0) o = true.
Proof.
  unfold heap_ok. rewrite forallb_forall. intros Hall Hl. apply Hall.
  apply list_elem_of_In. by eapply list_elem_of_lookup_2.
Qed.

Lemma obj_ok_ctor n o : obj_ok n o = true → ctor_ok o = true.
Proof. unfold obj_ok. rewrite !andb_true_iff. tauto. Qed.

Lemma heap_ok_ctor (h0 : heap) l o :
  heap_ok h0 = true → h0 !! l = Some o → ctor_ok o = true.
Proof. intros Hok Hl. eapply obj_ok_ctor. by eapply heap_ok_lookup. Qed.

Lemma val_ok_lookup (h0 : heap) l :
  val_ok (length h0) (VRef l) = true → ∃ o, h0 !! l = Some o.
Proof.
  simpl. intros Hl%Nat.ltb_lt. by apply lookup_lt_is_Some_2.
Qed.

Section Closed.
Context (h0 : heap) (Hok : heap_ok h0 = true).

Lemma chain_ok hx n : ∀ l,
  frame h0 hx → l < length h0 →
  Forall (λ o, obj_ok (length h0) o = true) (proto_chain n hx l).
Proof.
  induction n as [|n IH]; intros l Hf Hl; simpl; [constructor|].
  destruct (lookup_lt_is_Some_2 h0 l Hl) as [o Ho].
  rewrite (Hf _ _ Ho). pose proof (heap_ok_lookup _ _ _ Hok Ho) as Hobj.
  constructor; [done|]. destruct (proto o) as [p|] eqn:Hp; [|constructor].
  apply IH; [done|]. by apply (obj_ok_unpack _ _ Hobj).
Qed.

Lemma chain_get_ok os p :
  Forall (λ o, obj_ok (length h0) o = true) os →
  val_ok (length h0) (chain_get os p) = true.
Proof.
  induction 1 as [|o os Hobj _ IH]; simpl; [done|].
  destruct (own_get (props o) p) as [v|] eqn:Hown; [|done].
  apply obj_ok_unpack in Hobj as (Hc & _). rewrite Forall_forall in Hc.
  apply Hc. unfold child_values. apply elem_of_app. right.
  by eapply own_get_value.
Qed.

Lemma get_ok hx l k :
  frame h0 hx → l < length h0 →
  val_ok (length h0) (get hx (VRef l) k) = true.
Proof.
  intros Hf Hl. unfold get. destruct k as [|p|]; [done| |done].
  pose proof (chain_get_ok (proto_chain (length hx) hx l) p
                (chain_ok hx _ l Hf Hl)) as Hchain.
  destruct (lookup_lt_is_Some_2 h0 l Hl) as [o Ho]. rewrite (Hf _ _ Ho).
  destruct o as [[] ? ?], p; try done.
  destruct (0 <=? n)%Z; [|done].
  destruct (elems !! Z.to_nat n) as [v|] eqn:Hv; [|done]. simpl.
  apply heap_ok_lookup in Ho; [|done].
  apply obj_ok_unpack in Ho as (Hc & _). rewrite Forall_forall in Hc.
  apply Hc. unfold child_values. simpl. apply elem_of_app. left.
  by eapply list_elem_of_lookup_2.
Qed.

Lemma loop_sub_ok l o ks x hx :
  h0 !! l = Some o → x ∈ loop_items o ks → frame h0 hx →
  val_ok (length h0) (loop_sub o (VRef l) hx x) = true.
Proof.
  intros Ho Hx Hf.
  assert (Hl : l < length h0) by by eapply lookup_lt_Some.
  pose proof (heap_ok_lookup _ _ _ Hok Ho) as Hobj.
  apply obj_ok_unpack in Hobj as (Hc & _). rewrite Forall_forall in Hc.
  unfold loop_sub, loop_items, map_entries, set_entries, child_values in *.
  destruct (kind o) eqn:Hk; try by apply get_ok.
  - apply Hc. apply elem_of_app. left.
    apply elem_of_lookup_imap in Hx as (i & v & -> & Hv). simpl.
    by eapply list_elem_of_lookup_2.
  - apply Hc. apply elem_of_app. left. apply elem_of_app. right.
    apply list_elem_of_fmap in Hx as (e & -> & He). simpl.
    by apply list_elem_of_fmap_2.
  - apply Hc. apply elem_of_app. left.
    apply list_elem_of_fmap in Hx as (e & -> & He). done.
Qed.

End Closed.

(** ** One activation of [baseClone] *)

Lemma stack_after_default (stack : option Stack) :
  stack_after (default [] stack) stack = default [] stack.
Proof. by destruct stack. Qed.

(** The key enumeration chosen on lines 279-285. *)
Lemma own_string_key_enumerated bitmask h l o p :
  h !! l = Some o → p ∈ (props o).*1 → is_string_key p = true →
  VPrim p ∈ (if flag bitmask CLONE_SYMBOLS_FLAG
             then (if flag bitmask CLONE_FLAT_FLAG
                   then getAllKeysIn else getAllKeys)
             else (if flag bitmask CLONE_FLAT_FLAG then keysIn else keys))
              h (VRef l).
Proof.
  intros Hl Hp Hs.
  assert (VPrim p ∈ keys h (VRef l)) as Hown.
  { unfold keys, keys_of, own_of. rewrite Hl.
    apply list_elem_of_fmap_2. by apply own_keys_elem. }
  assert (VPrim p ∈ keysIn h (VRef l)) as Hin.
  { unfold keysIn, keys_of. apply list_elem_of_fmap_2.
    by eapply chain_keys_own. }
  unfold getAllKeysIn, getAllKeys.
  destruct (flag bitmask CLONE_SYMBOLS_FLAG), (flag bitmask CLONE_FLAT_FLAG);
    rewrite ?elem_of_app; auto.
Qed.

Lemma populate_loop rec bitmask o l c stack h1 :
  ∃ ks,
    (∀ p, p ∈ (props o).*1 → is_string_key p = true →
          h1 !! l = Some o → VPrim p ∈ ks)
    ∧ populate rec (VRef l) (VRef c) o bitmask None stack h1
      = if isTypedArray o then Some (VRef c, Some stack, h1)
        else '(s', h') ← forEach (loop_items o ks)
                          (loop_cb rec bitmask o (VRef l) c) (stack, h1);
             Some (VRef c, Some s', h').
Proof.
  exists ((if flag bitmask CLONE_SYMBOLS_FLAG
           then (if flag bitmask CLONE_FLAT_FLAG
                 then getAllKeysIn else getAllKeys)
           else (if flag bitmask CLONE_FLAT_FLAG then keysIn else keys))
            h1 (VRef l)).
  split.
  - intros p Hp Hs Hl. by eapply own_string_key_enumerated.
  - destruct o as [[| | | | | | | | | | | | | | | | [] | ] ? ?]; reflexivity.
Qed.

(** The shell of a Map has the method [set], the shell of a Set the
    method [add]: storing a result is the update of the cell. *)
Lemma loop_store_put o c key r (h : heap) oc :
  h !! c = Some oc → keeps_kind o oc →
  loop_store o c key r h = Some (alter (loop_put o key r) c h)
  ∧ keeps_kind o (loop_put o key r oc).
Proof.
  intros Hc Hk. unfold loop_store, loop_put, keeps_kind, Map_set, Set_add,
    has_kind in *. rewrite Hc.
  destruct (kind o); try done; cbn [from_option] in *; rewrite Hk;
    (split; [done|]); unfold Map_set_obj, Set_add_obj;
    by destruct (kind oc).
Qed.

Lemma loop_store_alter o c key r (h h3 : heap) :
  loop_store o c key r h = Some h3 → h3 = alter (loop_put o key r) c h.
Proof.
  unfold loop_store, loop_put, Map_set, Set_add.
  destruct (kind o); try (by intros [= <-]);
    destruct (has_kind _ h c); by intros [= <-].
Qed.

Lemma shell_of_keeps o shell0 : shell_of o shell0 → keeps_kind o shell0.
Proof.
  unfold shell_of, keeps_kind. destruct (kind o); try done; by intros ->.
Qed.

Lemma truthy_stack_get (s : Stack) k :
  truthy (stack_get s k) = true → k ∈ s.*1.
Proof.
  intros Ht. destruct (decide (k ∈ s.*1)) as [|Hn]; [done|].
  by rewrite (stack_get_absent _ _ Hn) in Ht.
Qed.

Section Body.
Context (h0 : heap) (Hok : heap_ok h0 = true).
Context (m : nat) (rec : clone_fn) (Hrec : clones h0 m rec).

(** The shell [c] of [l] is registered and populated. *)
Lemma populate_ok bitmask l o c s h1 shell0 :
  h0 !! l = Some o → classify VUndef bitmask o = CReg → frame h0 h1 →
  stack_inv h0 bitmask h1 s → VRef l ∉ s.*1 → unreg (length h0) s < S m →
  length h0 ≤ c < length h1 → h1 !! c = Some shell0 → shell_of o shell0 →
  ∃ s' h',
    populate rec (VRef l) (VRef c) o bitmask None
      (stack_set s (VRef l) (VRef c)) h1 = Some (VRef c, Some s', h')
    ∧ frame_but c h1 h'
    ∧ stack_inv h0 bitmask h' s'
    ∧ (∃ add, s' = add ++ (VRef l, VRef c) :: s)
    ∧ populated h0 bitmask (VRef l) o c s' h'.
Proof.
  intros Ho Hroot Hf Hinv Hmiss Hm Hc Hshell Hsh.
  pose proof (classify_reg_not_buffer _ _ _ Hroot) as Hnb.
  assert (Hl : l < length h0) by by eapply lookup_lt_Some.
  set (s2 := stack_set s (VRef l) (VRef c)).
  assert (Hinv2 : stack_inv h0 bitmask h1 s2) by by eapply stack_inv_set.
  assert (Hm2 : unreg (length h0) s2 < m).
  { pose proof (unreg_set (length h0) s l (VRef c) Hl Hmiss). unfold s2. lia. }
  destruct (populate_loop rec bitmask o l c s2 h1) as (ks & Hks & ->).
  destruct (isTypedArray o) eqn:Htyped.
  - exists s2, h1. split_and!; [done|apply frame_but_refl|done|by exists []|].
    by left.
  - destruct (loop_trace h0 bitmask m rec (VRef l) c (loop_put o)
                (loop_sub o (VRef l)) (loop_key o)
                (loop_cb rec bitmask o (VRef l) c)
                (loop_store o c) (keeps_kind o) Hrec
                (λ _ _ _ _, eq_refl) (loop_store_put o c)
                (loop_items o ks) s2 h1 shell0
                Hf Hinv2 Hm2 Hc Hshell (shell_of_keeps _ _ Hsh))
      as (subs & rs & s' & h' & -> & HF2 & Hc' & Hfb & [add ->] & Hinv' & Htr).
    { intros x hx Hx Hfx. by eapply loop_sub_ok. }
    exists (add ++ s2), h'. split_and!; [done|done|done|by exists add|].
    right. exists ks, subs, rs, shell0, (length h1).
    split_and!; [|done|done|done|lia|done].
    intros p Hp Hs. apply Hks; [done|done|by apply Hf].
Qed.

Lemma body_clones : clones h0 (S m) (baseClone_body rec).
Proof.
  intros v bitmask key object stack h (Hf & Hinv & Hv & Hm).
  unfold baseClone_body. cbn [is_undefined negb].
  assert (Hprim : ∀ v', (∀ l, v' ≠ VRef l) →
    call_post h0 object bitmask v' stack h v' stack h).
  { intros v' Hv'. unfold call_post, stack_post, clone_in.
    rewrite stack_after_default.
    split_and!; [apply frame_refl|done|by exists []|..];
      destruct v'; try done. all: by edestruct Hv'. }
  destruct v as [|p|l]; [eexists _, _, _; split; [done|by apply Hprim]..|].
  cbn [isObject negb]. destruct (val_ok_lookup _ _ Hv) as [o Ho].
  rewrite (Hf _ _ Ho). cbn [mbind option_bind].
  assert (Hl : l < length h0) by by eapply lookup_lt_Some.
  assert (Hlen : length h0 ≤ length h) by by apply frame_length.
  pose proof (heap_ok_lookup _ _ _ Hok Ho) as Hobj.
  apply obj_ok_unpack in Hobj as (Hchildren & Hproto & Hkeys & Hmap).
  destruct (classify object bitmask o) eqn:Hcls.
  - rewrite (init_phase_same _ _ _ _ _ Hcls). eexists _, _, _. split; [done|].
    unfold call_post, stack_post, clone_in.
    rewrite Ho, Hcls, stack_after_default.
    split_and!; [apply frame_refl|done|by exists []|done..].
  - rewrite (init_phase_empty _ _ _ _ _ Hcls). eexists _, _, _. split; [done|].
    unfold call_post, stack_post, clone_in.
    rewrite Ho, Hcls, stack_after_default.
    split_and!; [apply frame_app| |by exists []| |done].
    + eapply stack_inv_mono; [|done]. rewrite length_app. lia.
    + exists (length h). rewrite length_app. simpl.
      split_and!; [done|lia|lia|apply lookup_alloc].
  - rewrite (init_phase_cloneBuffer object bitmask l o h Hcls).
    destruct (cloneBuffer_copy h0 h o (flag bitmask CLONE_DEEP_FLAG) Hf)
      as (c & h1 & o' & -> & Hfr & Hc & Hc' & Hbuf).
    { unfold classify in Hcls. destruct (isArray o); [by destruct (flag _ _)|].
      destruct (isBuffer o); [done|]. by repeat case_match. }
    eexists _, _, _. split; [done|]. cbn [fst snd].
    unfold call_post, stack_post, clone_in.
    rewrite Ho, Hcls, stack_after_default.
    split_and!; [done| |by exists []| |done].
    + eapply stack_inv_mono; [|done]. lia.
    + exists c, o'. split_and!; [done|lia|lia|done|done].
  - destruct (init_phase_shallow object bitmask l o h Hcls (Hf _ _ Ho) Hkeys
                (heap_ok_ctor _ _ _ Hok Ho))
      as (h' & o' & -> & Hfr & Hlt & Hc' & Hcopy).
    eexists _, _, _. split; [done|].
    unfold call_post, stack_post, clone_in.
    rewrite Ho, Hcls, stack_after_default.
    split_and!; [done| |by exists []| |done].
    + eapply stack_inv_mono; [|done]. lia.
    + exists (length h), o'. split_and!; [done|lia|lia|done|done].
  - destruct (init_phase_reg object bitmask l o h (Hf _ _ Ho)
                (heap_ok_ctor _ _ _ Hok Ho) Hcls)
      as ([r h1] & -> & c & h1' & shell0 & [= -> ->] & Hfr & Hc & Hc' & Hshell).
    cbn [fst snd]. set (s := default [] stack) in *.
    pose proof (frame_length _ _ Hfr) as Hlen1.
    assert (Hinv1 : stack_inv h0 bitmask h1' s)
      by (eapply stack_inv_mono; [|done]; lia).
    destruct (truthy (stack_get s (VRef l))) eqn:Hhit.
    + apply truthy_stack_get in Hhit as Hin.
      destruct (stack_inv_truthy _ _ _ _ _ Hinv1 Hin)
        as (l' & c' & o' & [= <-] & Hget & _ & _ & Hc'').
      eexists _, _, _. split; [done|].
      unfold call_post, stack_post, clone_in. rewrite Ho, Hcls. fold s.
      cbn [stack_after default].
      split_and!; try done; [by exists []| |by left].
      exists c'. split; [done|lia].
    + apply (stack_miss _ _ _ _ _ Hinv) in Hhit as Hmiss.
      destruct (populate_ok bitmask l o c s h1' shell0)
        as (s' & h' & -> & Hfb & Hinv' & [add Hadd] & Hpop); try done.
      { by eapply classify_reg_root. }
      { by eapply frame_trans. }
      { lia. }
      pose proof Hfb as [Hlen' _].
      eexists _, _, _. split; [done|].
      unfold call_post, stack_post, clone_in. rewrite Ho, Hcls. fold s.
      cbn [stack_after default].
      assert (Hget : stack_get s' (VRef l) = VRef c).
      { rewrite Hadd. rewrite (stack_get_grow h0 bitmask h' add); cycle 1.
        - by rewrite <- Hadd.
        - left.
        - simpl. by rewrite decide_True. }
      split_and!; try done.
      * eapply (frame_but_frame c); [lia|done|done].
      * exists (add ++ [(VRef l, VRef c)]). by rewrite <- app_assoc.
      * exists c. split; [done|lia].
      * right. split; [done|]. exists add, c. split_and!; [done|lia|done|done].
Qed.

End Body.

(** ** Every call returns

    On a closed store a call returns as soon as the call-depth budget
    exceeds the number of originals that are not registered yet. *)

Lemma baseClone_clones h0 depth :
  heap_ok h0 = true → clones h0 depth (baseClone depth).
Proof.
  intros Hok. induction depth as [|d IH].
  - intros v bitmask key object stack h (_ & _ & _ & Hm). lia.
  - simpl. by apply body_clones.
Qed.

Lemma unreg_bound n0 s : unreg n0 s ≤ n0.
Proof.
  unfold unreg. etransitivity; [apply length_filter|]. by rewrite length_seq.
Qed.

Lemma top_level h v bitmask key object depth :
  heap_ok h = true → val_ok (length h) v = true → length h < depth →
  ∃ r stack' h',
    baseClone depth v bitmask None key object None h = Some (r, stack', h')
    ∧ call_post h object bitmask v None h r stack' h'.
Proof.
  intros Hok Hv Hd. apply (baseClone_clones h depth Hok).
  split_and!; [apply frame_refl|apply stack_inv_nil|done|].
  pose proof (unreg_bound (length h) []). simpl. lia.
Qed.

(** ** Reading a trace *)

Lemma clone_in_weaken h0 object bitmask s h b1 b2 b1' b2' v r :
  clone_in h0 object bitmask s h b1 b2 v r → b1' ≤ b1 → b2 ≤ b2' →
  clone_in h0 object bitmask s h b1' b2' v r.
Proof.
  intros Hcl ? ?. unfold clone_in in *.
  destruct v as [| |l]; [done..|]. destruct (h0 !! l) as [o|]; [|done].
  destruct (classify object bitmask o); [done|..|done].
  - destruct Hcl as (c & ? & ? & ?). exists c. split_and!; [done|lia|lia|done].
  - destruct Hcl as (c & o' & ? & ? & ? & Hcopy). exists c, o'.
    split_and!; [done|lia|lia|done|].
    revert Hcopy. unfold buffer_copy. destruct (kind o); try done.
    destruct (flag bitmask CLONE_DEEP_FLAG); [|done].
    intros (nb & bs & pr & ? & ? & ? & ?). exists nb, bs, pr.
    split_and!; [done|lia|lia|done|done].
  - destruct Hcl as (c & o' & ? & ? & ? & ?). exists c, o'.
    split_and!; [done|lia|lia|done|done].
Qed.

(** The result at position [i] of a trace. *)
Lemma trace_ok_lookup h0 object bitmask s h subs : ∀ b rs i v,
  trace_ok h0 object bitmask s h b subs rs → subs !! i = Some v →
  ∃ r b1 b2, rs !! i = Some r ∧ b ≤ b1 ∧ b1 ≤ b2 ∧ b2 ≤ length h
             ∧ clone_in h0 object bitmask s h b1 b2 v r.
Proof.
  induction subs as [|v0 subs IH]; intros b [|r0 rs] i v Htr Hi; try done.
  destruct Htr as (b' & Hb & Hcl & Htr).
  pose proof (trace_ok_bound _ _ _ _ _ _ _ _ Htr) as Hb'.
  destruct i as [|i]; simpl in Hi.
  - injection Hi as ->. exists r0, b, b'. by split_and!.
  - destruct (IH b' rs i v Htr Hi) as (r & b1 & b2 & ? & ? & ? & ? & ?).
    exists r, b1, b2. split_and!; [done|lia|done..].
Qed.

(** The results at two positions [i < j] come from disjoint stretches of
    the store. *)
Lemma trace_ok_lookup2 h0 object bitmask s h subs : ∀ b rs i j vi vj,
  trace_ok h0 object bitmask s h b subs rs → i < j →
  subs !! i = Some vi → subs !! j = Some vj →
  ∃ ri rj b1 b2 b3,
    rs !! i = Some ri ∧ rs !! j = Some rj ∧ b ≤ b1 ∧ b1 ≤ b2 ∧ b2 ≤ b3
    ∧ clone_in h0 object bitmask s h b1 b2 vi ri
    ∧ clone_in h0 object bitmask s h b3 (length h) vj rj.
Proof.
  induction subs as [|v0 subs IH]; intros b [|r0 rs] i j vi vj Htr Hij Hi Hj;
    try done.
  destruct Htr as (b' & Hb & Hcl & Htr).
  destruct j as [|j]; [lia|]. simpl in Hj. destruct i as [|i]; simpl in Hi.
  - injection Hi as ->.
    destruct (trace_ok_lookup _ _ _ _ _ _ _ _ _ _ Htr Hj)
      as (rj & b1 & b2 & ? & ? & ? & ? & Hclj).
    exists r0, rj, b, b', b1. split_and!; try done.
    eapply clone_in_weaken; [done|lia|lia].
  - destruct (IH b' rs i j vi vj Htr)
      as (ri & rj & b1 & b2 & b3 & ? & ? & ? & ? & ? & ? & ?);
      [lia|done|done|].
    exists ri, rj, b1, b2, b3. split_and!; [done|done|lia|done..].
Qed.

(** ** The populated shell of a structure *)

Lemma assign_obj_get_eq p v o :
  key_ok p = true → own_get (props (assign_obj (VPrim p) v o)) p = Some v.
Proof.
  intros Hk. unfold assign_obj.
  destruct (kind o), p; try done; cbn [props]; apply own_get_set_eq.
Qed.

Lemma assign_obj_get_ne k p v o :
  k ≠ VPrim p → own_get (props (assign_obj k v o)) p = own_get (props o) p.
Proof.
  intros Hne. unfold assign_obj. destruct k as [|p'|]; [done| |done].
  assert (p' ≠ p) by congruence.
  destruct (kind o), p'; try destruct (0 <=? n)%Z; cbn [props];
    try done; by apply own_get_set_ne.
Qed.

Lemma fold_assign_other items : ∀ rs shell0 p,
  VPrim p ∉ items.*1 →
  own_get (props (foldl (λ o' (xr : value * value * value),
                           assign_obj xr.1.1 xr.2 o') shell0 (zip items rs))) p
  = own_get (props shell0) p.
Proof.
  induction items as [|x items IH]; intros [|r rs] shell0 p Hp; try done.
  rewrite fmap_cons, not_elem_of_cons in Hp. destruct Hp as [Hx Hp].
  cbn [zip zip_with foldl]. rewrite IH by done. cbn [fst snd].
  by apply assign_obj_get_ne.
Qed.

(** The value of a copied key is the result of the last call made for
    that key. *)
Lemma fold_assign_last items : ∀ rs shell0 p,
  key_ok p = true → length rs = length items → VPrim p ∈ items.*1 →
  ∃ j r, items.*1 !! j = Some (VPrim p) ∧ rs !! j = Some r
    ∧ own_get (props (foldl (λ o' (xr : value * value * value),
                               assign_obj xr.1.1 xr.2 o') shell0
                        (zip items rs))) p = Some r.
Proof.
  induction items as [|x items IH]; intros [|r0 rs] shell0 p Hk Hlen Hp;
    try done.
  { by apply elem_of_nil in Hp. }
  cbn [zip zip_with foldl fst snd].
  destruct (decide (VPrim p ∈ items.*1)) as [Hin|Hnin].
  - destruct (IH rs (assign_obj x.1 r0 shell0) p Hk) as (j & r & ? & ? & ?);
      [simpl in Hlen; lia|done|]. by exists (S j), r.
  - rewrite fmap_cons in Hp. apply elem_of_cons in Hp as [Hx|?]; [|done].
    exists 0, r0. split_and!; [by rewrite fmap_cons, Hx|done|].
    rewrite fold_assign_other by done. rewrite <- Hx.
    by apply assign_obj_get_eq.
Qed.

Lemma imap_fst (ks : list value) (f : nat → value) :
  (imap (λ i v, (v, f i)) ks).*1 = ks.
Proof.
  revert f. induction ks as [|k ks IH]; intros f; [done|].
  cbn [imap fmap list_fmap fst]. f_equal. apply (IH (f ∘ S)).
Qed.

Lemma copies_props_loop o :
  copies_props (kind o) = true →
  isTypedArray o = false
  ∧ (∀ ks, loop_items o ks = imap (λ i v, (v, VPrim (PNum (Z.of_nat i)))) ks)
  ∧ (∀ parent h x, loop_sub o parent h x = get h parent x.1)
  ∧ loop_key o = fst
  ∧ loop_put o = assign_obj.
Proof.
  unfold isTypedArray, loop_items, loop_sub, loop_key, loop_put.
  by destruct (kind o).
Qed.

Lemma copies_props_reg object bitmask o :
  copies_props (kind o) = true → flag bitmask CLONE_DEEP_FLAG = true →
  classify object bitmask o = CReg.
Proof.
  intros Hk Hd. destruct o as [[] ? ?]; try done; unfold classify;
    rewrite ?tag_plain, ?tag_cloneable, Hd; done.
Qed.

(** A deep clone of a structure [a] at the root: the clone [c] is
    registered for [a] first, and every enumerated key of [c] holds the
    result of a recursive call on the value [a] holds under that key. *)
Lemma deep_props h a o bitmask key object depth :
  heap_ok h = true → h !! a = Some o → copies_props (kind o) = true →
  flag bitmask CLONE_DEEP_FLAG = true → length h < depth →
  ∃ c s' h' ks subs rs b,
    baseClone depth (VRef a) bitmask None key object None h
    = Some (VRef c, Some s', h')
    ∧ length h ≤ c < length h' ∧ frame h h' ∧ stack_inv h bitmask h' s'
    ∧ stack_get s' (VRef a) = VRef c
    ∧ (∃ add, s' = add ++ [(VRef a, VRef c)])
    ∧ c < b ∧ trace_ok h (VRef a) bitmask s' h' b subs rs
    ∧ Forall2 (λ k sub, ∃ hx, frame h hx ∧ sub = get hx (VRef a) k) ks subs
    ∧ (∀ p, p ∈ (props o).*1 → is_string_key p = true → VPrim p ∈ ks)
    ∧ (∀ p, key_ok p = true → VPrim p ∈ ks →
         ∃ j r, ks !! j = Some (VPrim p) ∧ rs !! j = Some r
                ∧ get h' (VRef c) (VPrim p) = r).
Proof.
  intros Hok Ha Hk Hdeep Hd.
  assert (Hv : val_ok (length h) (VRef a) = true).
  { simpl. apply Nat.ltb_lt. by eapply lookup_lt_Some. }
  destruct (top_level h (VRef a) bitmask key object depth Hok Hv Hd)
    as (r & stack' & h' & Hcall & Hfr & Hinv & _ & Hcl & Hsp).
  unfold clone_in in Hcl. unfold stack_post in Hsp.
  rewrite Ha, (copies_props_reg object bitmask o Hk Hdeep) in Hcl, Hsp.
  cbn [default] in *. destruct Hsp as [Hst [[Hin _]|[_ Hmiss]]].
  { by apply elem_of_nil in Hin. }
  destruct stack' as [s'|]; [clear Hst|done].
  unfold stack_after in *. cbn [default from_option id] in *.
  destruct Hmiss as (add & c & -> & Hc & -> & [Hty|Hpop]).
  { by rewrite (proj1 (copies_props_loop o Hk)) in Hty. }
  destruct Hpop as (ks & subs & rs & shell0 & b & Hks & HF2 & _ & Hshell & Hb & Htr).
  destruct (copies_props_loop o Hk) as (_ & Hitems & Hsub & Hkey & Hput).
  rewrite Hitems in HF2, Hshell. rewrite Hput, Hkey in Hshell.
  destruct Hcl as (Hget & c' & [= <-] & Hc').
  exists c, (add ++ [(VRef a, VRef c)]), h', ks, subs, rs, b.
  split_and!; try done; [lia|by exists add| |].
  -     rewrite <- (imap_fst ks (λ i, VPrim (PNum (Z.of_nat i)))) at 1.
    apply Forall2_fmap_l. eapply Forall2_impl; [done|].
    intros x sub (hx & ? & ->). exists hx. by rewrite Hsub.
  - intros p Hp Hin.
    pose proof (Forall2_length _ _ _ HF2) as Hlen1.
    pose proof (trace_ok_length _ _ _ _ _ _ _ _ Htr) as Hlen2.
    destruct (fold_assign_last
                (imap (λ i v, (v, VPrim (PNum (Z.of_nat i)))) ks) rs shell0 p Hp)
      as (j & r & Hj & Hr & Hown).
    { lia. }
    { by rewrite imap_fst. }
    exists j, r. rewrite imap_fst in Hj. split_and!; [done|done|].
    by eapply get_own.
Qed.

(** The own string-keyed properties of the clone of a structure. *)
Lemma deep_own_keys h a o bitmask key object depth :
  heap_ok h = true → h !! a = Some o → copies_props (kind o) = true →
  flag bitmask CLONE_DEEP_FLAG = true → length h < depth →
  ∃ c s' h',
    baseClone depth (VRef a) bitmask None key object None h
    = Some (VRef c, Some s', h')
    ∧ length h ≤ c < length h' ∧ frame h h' ∧ stack_inv h bitmask h' s'
    ∧ stack_get s' (VRef a) = VRef c
    ∧ (∃ add, s' = add ++ [(VRef a, VRef c)])
    ∧ (∀ p sub, own_get (props o) p = Some sub → is_string_key p = true →
         ∃ b1 b2,
           length h ≤ b1
           ∧ clone_in h (VRef a) bitmask s' h' b1 b2 sub
               (get h' (VRef c) (VPrim p)))
    ∧ (∀ p q subp subq,
         p ≠ q →
         own_get (props o) p = Some subp → is_string_key p = true →
         own_get (props o) q = Some subq → is_string_key q = true →
         ∃ b1 b2 b3 b4,
           (b2 ≤ b3 ∨ b4 ≤ b1) ∧ length h ≤ b1 ∧ length h ≤ b3
           ∧ clone_in h (VRef a) bitmask s' h' b1 b2 subp
               (get h' (VRef c) (VPrim p))
           ∧ clone_in h (VRef a) bitmask s' h' b3 b4 subq
               (get h' (VRef c) (VPrim q))).
Proof.
  intros Hok Ha Hk Hdeep Hd.
  destruct (deep_props h a o bitmask key object depth Hok Ha Hk Hdeep Hd)
    as (c & s' & h' & ks & subs & rs & b & Hcall & Hc & Hfr & Hinv & Hget
        & Hadd & Hb & Htr & HF2 & Hks & Hlast).
  assert (Hat : ∀ p sub,
    own_get (props o) p = Some sub → is_string_key p = true →
    ∃ j, ks !! j = Some (VPrim p) ∧ subs !! j = Some sub
         ∧ rs !! j = Some (get h' (VRef c) (VPrim p))).
  { intros p sub Hown Hs.
    assert (Hkp : key_ok p = true) by (unfold key_ok; by rewrite Hs).
    destruct (Hlast p Hkp) as (j & r & Hj & Hr & Hg).
    { apply Hks; [by eapply own_get_elem|done]. }
    exists j. split_and!; [done| |by rewrite Hg].
    destruct (Forall2_lookup_l _ _ _ _ _ HF2 Hj) as (sub' & -> & hx & Hfx & ->).
    f_equal. eapply get_own; [by apply Hfx|done|done]. }
  exists c, s', h'. do 6 (split; [done|]). split.
  - intros p sub Hown Hs. destruct (Hat p sub Hown Hs) as (j & _ & Hj & Hr).
    destruct (trace_ok_lookup _ _ _ _ _ _ _ _ _ _ Htr Hj)
      as (r & b1 & b2 & Hr' & ? & _ & _ & Hcl).
    exists b1, b2. split; [lia|congruence].
  - intros p q subp subq Hpq Hp Hsp Hq Hsq.
    destruct (Hat p subp Hp Hsp) as (i & Hki & Hi & Hri).
    destruct (Hat q subq Hq Hsq) as (j & Hkj & Hj & Hrj).
    assert (i ≠ j) as Hij by (intros ->; congruence).
    destruct (decide (i < j)).
    + destruct (trace_ok_lookup2 _ _ _ _ _ _ _ _ i j subp subq Htr)
        as (ri & rj & b1 & b2 & b3 & Hri' & Hrj' & ? & ? & ? & ? & ?);
        try done.
      exists b1, b2, b3, (length h').
      split_and!; [by left|lia|lia|congruence|congruence].
    + destruct (trace_ok_lookup2 _ _ _ _ _ _ _ _ j i subq subp Htr)
        as (rj & ri & b1 & b2 & b3 & Hrj' & Hri' & ? & ? & ? & ? & ?);
        try done; [lia|].
      exists b3, (length h'), b1, b2.
      split_and!; [by right|lia|lia|congruence|congruence].
Qed.

Lemma registrable_reg object bitmask o :
  registrable (kind o) = true → flag bitmask CLONE_DEEP_FLAG = true →
  classify object bitmask o = CReg.
Proof.
  intros Hk Hd. destruct o as [[| | | | | | | | | | | | | | | | [] | ] ? ?];
    try done; unfold classify; rewrite ?tag_plain, ?tag_cloneable, Hd; done.
Qed.

Lemma buffer_class object bitmask o :
  isBuffer o = true → classify object bitmask o = CBuffer.
Proof. intros Hb. by destruct o as [[] ? ?]. Qed.

(** * The specified properties *)



(** ** Collections *)

Lemma entries_set_new (es : list (value * value)) k v :
  k ∉ es.*1 → entries_set es k v = es ++ [(k, v)].
Proof.
  induction es as [|[k' v'] es IH]; simpl; [done|]. intros Hk.
  rewrite not_elem_of_cons in Hk. destruct Hk as [Hne Hk].
  rewrite decide_False by done. by rewrite IH.
Qed.

Lemma fold_map_set (es : list (value * value)) : ∀ rs acc p ps,
  NoDup (acc.*1 ++ es.*1) → length rs = length es →
  kind (foldl (λ o' (xr : value * value * value),
                 Map_set_obj xr.1.2 xr.2 o')
          (Obj (KMap acc) p ps)
          (zip ((λ e, (e.2, e.1)) <$> es) rs))
  = KMap (acc ++ zip es.*1 rs).
Proof.
  induction es as [|[k v] es IH]; intros [|r rs] acc p ps Hnd Hlen; try done.
  { simpl. by rewrite app_nil_r. }
  cbn [fmap list_fmap zip zip_with foldl fst snd].
  unfold Map_set_obj at 2. cbn [kind proto props].
  simpl in Hnd. apply NoDup_app in Hnd as (Hacc & Hdisj & Hes).
  apply NoDup_cons in Hes as [Hk Hes].
  rewrite entries_set_new by (intros Hin; apply (Hdisj k Hin); left).
  rewrite IH; [by rewrite <- app_assoc| |simpl in Hlen; lia].
  rewrite fmap_app. simpl. rewrite <- app_assoc. simpl.
  apply NoDup_app. split_and!; [done| |by constructor].
  intros x Hx Hx'. apply elem_of_cons in Hx' as [->|Hx'].
  - apply (Hdisj k Hx). left.
  - apply (Hdisj x Hx). by right.
Qed.

Lemma fold_set_add (ms : list value) : ∀ rs acc p ps,
  length rs = length ms →
  kind (foldl (λ o' (xr : value * value * value),
                 Set_add_obj xr.2 o')
          (Obj (KSet acc) p ps)
          (zip ((λ v, (v, v)) <$> ms) rs))
  = KSet (foldl add_once acc rs).
Proof.
  induction ms as [|v ms IH]; intros [|r rs] acc p ps Hlen; try done.
  cbn [fmap list_fmap zip zip_with foldl fst snd].
  unfold Set_add_obj at 2. cbn [kind proto props].
  rewrite IH by (simpl in Hlen; lia). done.
Qed.

Lemma added_elem (rs : list value) : ∀ acc r,
  r ∈ acc ∨ r ∈ rs → r ∈ foldl add_once acc rs.
Proof.
  induction rs as [|r0 rs IH]; intros acc r [Hr|Hr]; simpl.
  - done.
  - by apply elem_of_nil in Hr.
  - apply IH. left. unfold add_once. destruct (decide (r0 ∈ acc)); [done|].
    apply elem_of_app. by left.
  - apply IH. apply elem_of_cons in Hr as [->|Hr]; [|by right]. left.
    unfold add_once. destruct (decide (r0 ∈ acc)); [done|].
    apply elem_of_app. right. by left.
Qed.

Lemma trace_ok_Forall2 h0 object bitmask s h subs : ∀ b rs,
  trace_ok h0 object bitmask s h b subs rs →
  Forall2 (λ v r, ∃ b1 b2, b ≤ b1 ∧
                    clone_in h0 object bitmask s h b1 b2 v r) subs rs.
Proof.
  induction subs as [|v subs IH]; intros b [|r rs] Htr; try done.
  destruct Htr as (b' & Hb & Hcl & Htr). constructor.
  - by exists b, b'.
  - eapply Forall2_impl; [by apply IH|]. intros v' r' (b1 & b2 & ? & ?).
    exists b1, b2. split; [lia|done].
Qed.

Lemma collection_reg object bitmask o :
  (∃ es, kind o = KMap es) ∨ (∃ ms, kind o = KSet ms) →
  classify object bitmask o = CReg.
Proof.
  intros [[es Hk]|[ms Hk]]; destruct o as [k ? ?]; simpl in Hk; subst k;
    unfold classify; rewrite ?tag_plain, ?tag_cloneable; done.
Qed.

Lemma Forall2_fst_eq (items : list (value * value)) (subs : list value)
    (P : heap → Prop) :
  Forall2 (λ x sub, ∃ hx, P hx ∧ sub = x.1) items subs → subs = items.*1.
Proof.
  induction 1 as [|x sub items subs (hx & _ & ->) _ IH]; [done|].
  simpl. by f_equal.
Qed.

(** A Map at the root is rebuilt entry by entry, whatever the flags. *)
Lemma map_rebuilt h m o es bitmask key object depth :
  heap_ok h = true → h !! m = Some o → kind o = KMap es → length h < depth →
  ∃ c s' h' rs oc b,
    baseClone depth (VRef m) bitmask None key object None h
    = Some (VRef c, Some s', h')
    ∧ length h ≤ c ∧ frame h h' ∧ stack_inv h bitmask h' s'
    ∧ h' !! c = Some oc ∧ kind oc = KMap (zip es.*1 rs)
    ∧ length h ≤ b ∧ trace_ok h (VRef m) bitmask s' h' b es.*2 rs.
Proof.
  intros Hok Hm Hk Hd.
  assert (Hv : val_ok (length h) (VRef m) = true).
  { simpl. apply Nat.ltb_lt. by eapply lookup_lt_Some. }
  destruct (top_level h (VRef m) bitmask key object depth Hok Hv Hd)
    as (r & stack' & h' & Hcall & Hfr & Hinv & _ & Hcl & Hsp).
  unfold clone_in in Hcl. unfold stack_post in Hsp.
  rewrite Hm, (collection_reg object bitmask o) in Hcl, Hsp by eauto.
  cbn [default] in *. destruct Hsp as [Hst [[Hin _]|[_ Hmiss]]].
  { by apply elem_of_nil in Hin. }
  destruct stack' as [s'|]; [clear Hst|done].
  unfold stack_after in *. cbn [default from_option id] in *.
  destruct Hmiss as (add & c & -> & Hc & -> & [Hty|Hpop]).
  { unfold isTypedArray in Hty. by rewrite Hk in Hty. }
  destruct Hpop as (ks & subs & rs & shell0 & b & _ & HF2 & Hsh & Hshell & Hb & Htr).
  unfold shell_of, loop_items, loop_sub, loop_key, loop_put, map_entries in *.
  rewrite Hk in *.
  apply Forall2_fst_eq in HF2 as ->.
  rewrite <- list_fmap_compose in Htr.
  pose proof (trace_ok_length _ _ _ _ _ _ _ _ Htr) as Hlen.
  rewrite length_fmap in Hlen.
  pose proof (heap_ok_lookup _ _ _ Hok Hm) as Hobj.
  apply obj_ok_unpack in Hobj as (_ & _ & _ & Hnd).
  destruct shell0 as [k0 p0 ps0]. simpl in Hsh. subst k0.
  eexists c, _, h', rs, _, b. split_and!; try done; [|lia].
  rewrite (fold_map_set es rs [] p0 ps0); [done| |done].
  simpl. by apply Hnd.
Qed.

(** A Set at the root is rebuilt member by member, whatever the flags. *)
Lemma set_rebuilt h m o ms bitmask key object depth :
  heap_ok h = true → h !! m = Some o → kind o = KSet ms → length h < depth →
  ∃ c s' h' rs oc b,
    baseClone depth (VRef m) bitmask None key object None h
    = Some (VRef c, Some s', h')
    ∧ length h ≤ c ∧ frame h h' ∧ stack_inv h bitmask h' s'
    ∧ h' !! c = Some oc ∧ kind oc = KSet (foldl add_once [] rs)
    ∧ length h ≤ b ∧ trace_ok h (VRef m) bitmask s' h' b ms rs.
Proof.
  intros Hok Hm Hk Hd.
  assert (Hv : val_ok (length h) (VRef m) = true).
  { simpl. apply Nat.ltb_lt. by eapply lookup_lt_Some. }
  destruct (top_level h (VRef m) bitmask key object depth Hok Hv Hd)
    as (r & stack' & h' & Hcall & Hfr & Hinv & _ & Hcl & Hsp).
  unfold clone_in in Hcl. unfold stack_post in Hsp.
  rewrite Hm, (collection_reg object bitmask o) in Hcl, Hsp by eauto.
  cbn [default] in *. destruct Hsp as [Hst [[Hin _]|[_ Hmiss]]].
  { by apply elem_of_nil in Hin. }
  destruct stack' as [s'|]; [clear Hst|done].
  unfold stack_after in *. cbn [default from_option id] in *.
  destruct Hmiss as (add & c & -> & Hc & -> & [Hty|Hpop]).
  { unfold isTypedArray in Hty. by rewrite Hk in Hty. }
  destruct Hpop as (ks & subs & rs & shell0 & b & _ & HF2 & Hsh & Hshell & Hb & Htr).
  unfold shell_of, loop_items, loop_sub, loop_key, loop_put, set_entries in *.
  rewrite Hk in *.
  apply Forall2_fst_eq in HF2 as ->.
  rewrite <- list_fmap_compose in Htr.
  pose proof (trace_ok_length _ _ _ _ _ _ _ _ Htr) as Hlen.
  rewrite length_fmap in Hlen.
  destruct shell0 as [k0 p0 ps0]. simpl in Hsh. subst k0.
  eexists c, _, h', rs, _, b. split_and!; try done; [|lia|].
  - by rewrite (fold_set_add ms rs [] p0 ps0).
  - by rewrite list_fmap_id in Htr.
Qed.

Lemma shallow_class object bitmask o :
  plain_kind (kind o) || isArray o = true →
  flag bitmask CLONE_DEEP_FLAG = false →
  classify object bitmask o = CShallow.
Proof.
  intros Hk Hd. destruct o as [[] ? ?]; try done; unfold classify;
    rewrite ?tag_plain, ?tag_cloneable, Hd; done.
Qed.

Lemma opaque_child_class object bitmask o :
  cloneable_kind (kind o) = false → truthy object = true →
  classify object bitmask o = CSame.
Proof.
  intros Hk Hobj. destruct o as [[] ? ?]; try done;
    unfold classify; rewrite Hobj; by destruct (flag bitmask CLONE_DEEP_FLAG).
Qed.




Lemma shallow_root_class object bitmask o :
  plain_kind (kind o) || isArray o
  || (isFunction o && negb (truthy object)) = true →
  flag bitmask CLONE_DEEP_FLAG = false →
  classify object bitmask o = CShallow.
Proof.
  intros Hk Hd. destruct o as [[] ? ?]; try done; unfold classify;
    rewrite ?tag_plain, ?tag_cloneable, Hd; try done.
  cbn in Hk. by rewrite Hk.
Qed.




Lemma function_child_class object bitmask o :
  isFunction o = true → truthy object = true →
  classify object bitmask o = CSame.
Proof.
  intros Hfn Hobj. destruct o as [[] ? ?]; try done.
  unfold classify. rewrite Hobj.
  by destruct (flag bitmask CLONE_DEEP_FLAG).
Qed.




(** * Further properties of the engine *)

(** ** Termination and the original store *)



(** ** The cell of a clone at the root *)

Lemma populate_keys rec bitmask o l c stack h1 :
  populate rec (VRef l) (VRef c) o bitmask None stack h1
  = if isTypedArray o then Some (VRef c, Some stack, h1)
    else '(s', h') ← forEach (loop_items o (keysFunc bitmask h1 (VRef l)))
                      (loop_cb rec bitmask o (VRef l) c) (stack, h1);
         Some (VRef c, Some s', h').
Proof.
  unfold keysFunc.
  destruct o as [[| | | | | | | | | | | | | | | | [] | ] ? ?]; reflexivity.
Qed.

(** A call at the root on a value that reaches the registry: the shell
    made by the first half of the activation receives, entry by entry,
    the results of the calls on the children. *)
Lemma root_cell h l o bitmask key object d :
  heap_ok h = true → h !! l = Some o →
  classify object bitmask o = CReg → isTypedArray o = false →
  length h ≤ d →
  ∃ c h1 shell0 s' h' subs rs,
    init_phase object (VRef l) l o bitmask h = Shell (VRef c) h1
    ∧ length h ≤ c < length h1 ∧ h1 !! c = Some shell0 ∧ frame h h1
    ∧ baseClone (S d) (VRef l) bitmask None key object None h
      = Some (VRef c, Some s', h')
    ∧ Forall2 (λ x sub, ∃ hx, frame h hx ∧ sub = loop_sub o (VRef l) hx x)
        (loop_items o (keysFunc bitmask h1 (VRef l))) subs
    ∧ h' !! c
      = Some (foldl (λ o' xr, loop_put o (loop_key o xr.1) xr.2 o') shell0
                (zip (loop_items o (keysFunc bitmask h1 (VRef l))) rs))
    ∧ frame h h' ∧ stack_inv h bitmask h' s'
    ∧ (∃ add, s' = add ++ [(VRef l, VRef c)])
    ∧ trace_ok h (VRef l) bitmask s' h' (length h1) subs rs.
Proof.
  intros Hok Hl Hcls Htyped Hd.
  destruct (init_phase_reg object bitmask l o h Hl
              (heap_ok_ctor _ _ _ Hok Hl) Hcls)
    as ([r h1] & Hinit & c & h1' & shell0 & [= -> ->] & Hfr & Hc & Hc' & Hshell).
  cbn [fst snd] in Hinit.
  pose proof (frame_length _ _ Hfr) as Hlen1.
  assert (Hlt : l < length h) by by eapply lookup_lt_Some.
  set (s2 := stack_set [] (VRef l) (VRef c)).
  assert (Hinv2 : stack_inv h bitmask h1' s2).
  { eapply stack_inv_set; [apply stack_inv_nil|by intros ?%elem_of_nil|done| |lia].
    by eapply classify_reg_root. }
  assert (Hm2 : unreg (length h) s2 < d).
  { pose proof (unreg_set (length h) [] l (VRef c) Hlt) as Hset.
    pose proof (unreg_bound (length h) []). unfold s2.
    assert (VRef l ∉ ([] : Stack).*1) as Hnil by by intros ?%elem_of_nil.
    specialize (Hset Hnil). lia. }
  destruct (loop_trace h bitmask d (baseClone d) (VRef l) c (loop_put o)
              (loop_sub o (VRef l)) (loop_key o)
              (loop_cb (baseClone d) bitmask o (VRef l) c)
              (loop_store o c) (keeps_kind o)
              (baseClone_clones h d Hok)
              (λ _ _ _ _, eq_refl) (loop_store_put o c)
              (loop_items o (keysFunc bitmask h1' (VRef l))) s2 h1' shell0
              Hfr Hinv2 Hm2)
    as (subs & rs & s' & h' & Hloop & HF2 & Hcell & Hfb & [add ->] & Hinv' & Htr);
    [lia|done|by apply shell_of_keeps| |].
  { intros x hx Hx Hfx. by eapply loop_sub_ok. }
  exists c, h1', shell0, (add ++ s2), h', subs, rs.
  split_and!; try done; try lia.
  - cbn [baseClone]. unfold baseClone_body.
    cbn [is_undefined negb isObject]. rewrite Hl. cbn [mbind option_bind].
    rewrite Hinit. cbn [default stack_get truthy].
    fold s2. rewrite populate_keys, Htyped, Hloop. done.
  - eapply (frame_but_frame c); [lia|done|done].
  - by exists add.
Qed.

Lemma init_phase_slots object bitmask l o h k p :
  h !! l = Some o → ctor_ok o = true → classify object bitmask o = CReg →
  shell_slots (flag bitmask CLONE_FLAT_FLAG) o = Some (k, p) →
  init_phase object (VRef l) l o bitmask h
  = Shell (VRef (length h)) (h ++ [Obj k p []]).
Proof.
  intros Hl Hctor Hcls Hs. rewrite (init_phase_plain _ _ _ _ _ Hl Hctor).
  assert (Hp : uses_ctor (kind o) = true → proto o = None).
  { revert Hctor. unfold ctor_ok, uses_ctor.
    destruct (kind o); try done; rewrite !andb_true_iff, bool_decide_eq_true;
      tauto. }
  clear Hctor. revert Hcls Hs Hp. unfold shell_slots.
  destruct o as [[] pr ps]; init_simpl;
    destruct (flag bitmask CLONE_DEEP_FLAG) eqn:?; cbn [negb andb orb];
    try destruct (truthy object) eqn:?; cbn [negb andb orb];
    try discriminate; intros _ [= <- <-] Hp;
    try (cbn [uses_ctor kind proto] in Hp; rewrite (Hp eq_refl));
    unfold cloneArrayBuffer, initCloneObject, cloneRegExp,
      cloneSymbol, alloc, bytes_of, empty_object;
    rewrite ?Hl; cbn [kind proto props fmap option_fmap option_map mbind
                      option_bind];
    try reflexivity;
    destruct (flag bitmask CLONE_FLAT_FLAG); reflexivity.
Qed.

Lemma init_phase_shell_props object bitmask l o h c h1 shell0 :
  h !! l = Some o → ctor_ok o = true →
  classify object bitmask o = CReg → isArray o = false →
  init_phase object (VRef l) l o bitmask h = Shell (VRef c) h1 →
  h1 !! c = Some shell0 →
  props shell0 = [] ∧ ∀ es, kind shell0 ≠ KArray es.
Proof.
  intros Hl Hctor Hcls Harr. rewrite (init_phase_plain _ _ _ _ _ Hl Hctor).
  clear Hl Hctor. revert Hcls.
  destruct o as [[] pr ps]; try discriminate Harr; init_simpl;
    destruct (flag bitmask CLONE_DEEP_FLAG) eqn:?; cbn [negb andb orb];
    try destruct (truthy object) eqn:?; cbn [negb andb orb];
    try discriminate; intros _;
    unfold cloneArrayBuffer, initCloneObject, cloneRegExp,
      cloneSymbol, cloneDataView, cloneTypedArray, alloc, empty_object;
    cbn [kind proto props];
    try destruct (flag bitmask CLONE_FLAT_FLAG);
    intros [= <- <-]; rewrite lookup_alloc; intros [= <-]; done.
Qed.

Lemma own_set_new (ps : list (prim * value)) k v :
  k ∉ ps.*1 → own_set ps k v = ps ++ [(k, v)].
Proof.
  induction ps as [|[k' v'] ps IH]; simpl; [done|]. intros Hk.
  rewrite not_elem_of_cons in Hk. destruct Hk as [Hne Hk].
  rewrite decide_False by done. by rewrite IH.
Qed.

Lemma assign_obj_keyed p v o :
  (∀ es, kind o ≠ KArray es) →
  assign_obj (VPrim p) v o = Obj (kind o) (proto o) (own_set (props o) p v).
Proof.
  intros Hk. unfold assign_obj. destruct (kind o) eqn:E; try done.
  by edestruct Hk.
Qed.

(** Assignments under property keys leave the internal slots and the
    prototype of an object that is not an array as they are. *)
Lemma fold_assign_slots (items : list (value * value * value)) : ∀ shell0,
  (∀ es, kind shell0 ≠ KArray es) →
  kind (foldl (λ o' xr, assign_obj xr.1.1 xr.2 o') shell0 items) = kind shell0
  ∧ proto (foldl (λ o' xr, assign_obj xr.1.1 xr.2 o') shell0 items)
    = proto shell0.
Proof.
  induction items as [|[[k i] r] items IH]; intros shell0 Hk; [done|].
  cbn [foldl fst snd].
  assert (kind (assign_obj k r shell0) = kind shell0
          ∧ proto (assign_obj k r shell0) = proto shell0) as [Hk1 Hp1].
  { destruct k as [|p|]; [done| |done]. by rewrite assign_obj_keyed. }
  destruct (IH (assign_obj k r shell0)) as [-> ->]; [|done].
  intros es. rewrite Hk1. apply Hk.
Qed.

(** Assignments under distinct new keys append the keys in order. *)
Lemma fold_assign_keys (ks : list prim) :
  ∀ (items : list (value * value)) rs shell0,
  items.*1 = VPrim <$> ks → (∀ es, kind shell0 ≠ KArray es) →
  NoDup ((props shell0).*1 ++ ks) → length rs = length ks →
  (props (foldl (λ o' (xr : value * value * value),
                   assign_obj xr.1.1 xr.2 o') shell0 (zip items rs))).*1
  = (props shell0).*1 ++ ks.
Proof.
  induction ks as [|k ks IH]; intros [|[x i] items] [|r rs] shell0 Hit Hk Hnd Hlen;
    try done.
  { simpl. by rewrite app_nil_r. }
  simpl in Hit. injection Hit as -> Hit.
  cbn [zip zip_with foldl fst snd].
  apply NoDup_app in Hnd as (Hps & Hdisj & Hks).
  apply NoDup_cons in Hks as [Hkn Hks].
  assert (k ∉ (props shell0).*1) as Hnew
    by (intros Hin; apply (Hdisj k Hin); left).
  rewrite IH; [| done | | |simpl in Hlen; lia].
  - rewrite assign_obj_keyed by done. cbn [props].
    rewrite own_set_new by done. rewrite fmap_app. simpl.
    by rewrite <- app_assoc.
  - intros es. rewrite assign_obj_keyed by done. apply Hk.
  - rewrite assign_obj_keyed by done. cbn [props].
    rewrite own_set_new by done. rewrite fmap_app. simpl.
    rewrite <- app_assoc. simpl.
    apply NoDup_app. split_and!; [done| |by constructor].
    intros y Hy Hy'. apply elem_of_cons in Hy' as [->|Hy']; [done|].
    apply (Hdisj y Hy). by right.
Qed.

Lemma boxed_reg object bitmask o :
  boxed (kind o) = true → classify object bitmask o = CReg.
Proof.
  intros Hk. destruct o as [[] ? ?]; try done; unfold classify;
    rewrite ?tag_plain, ?tag_cloneable; done.
Qed.

(** The objects whose clone is populated key by key: those of
    [copies_props] and a function cloned at the root. *)
Lemma keyed_loop o :
  copies_props (kind o) || isFunction o = true →
  isTypedArray o = false ∧ isArray o = false
  ∧ (∀ ks, loop_items o ks = imap (λ i v, (v, VPrim (PNum (Z.of_nat i)))) ks)
  ∧ loop_key o = fst
  ∧ loop_put o = assign_obj.
Proof.
  unfold isTypedArray, isArray, isFunction, loop_items, loop_key, loop_put.
  by destruct (kind o).
Qed.

(** ** Boxed primitives and dates *)

Lemma boxed_slots isFlat o :
  boxed (kind o) = true → shell_slots isFlat o = Some (kind o, proto o).
Proof. by destruct o as [[] ? ?]. Qed.



(** ** The keys of a deep clone *)

Lemma keysFunc_own bitmask h l o :
  h !! l = Some o → flag bitmask CLONE_FLAT_FLAG = false →
  keysFunc bitmask h (VRef l)
  = VPrim <$> (own_keys is_string_key o
               ++ if flag bitmask CLONE_SYMBOLS_FLAG
                  then own_keys is_symbol_key o else []).
Proof.
  intros Hl Hflat. unfold keysFunc. rewrite Hflat.
  destruct (flag bitmask CLONE_SYMBOLS_FLAG);
    unfold getAllKeys, keys, getSymbols, keys_of, own_of; rewrite Hl.
  - by rewrite fmap_app.
  - by rewrite app_nil_r.
Qed.

Lemma own_keys_NoDup o (full : bool) :
  NoDup (props o).*1 →
  NoDup (own_keys is_string_key o
         ++ if full then own_keys is_symbol_key o else []).
Proof.
  intros Hnd. unfold own_keys. destruct full.
  - apply NoDup_app. split_and!; [by apply NoDup_filter| |by apply NoDup_filter].
    intros k [Hs _]%list_elem_of_filter [Hy _]%list_elem_of_filter.
    by destruct k.
  - rewrite app_nil_r. by apply NoDup_filter.
Qed.



(** ** Arrays *)

Lemma assign_elems (es2 : list value) : ∀ (items : list (value * value))
    (es1 xs2 : list value) p ps,
  length xs2 = length es2 → length items = length es2 →
  (∀ i x, items !! i = Some x →
          x.2 = VPrim (PNum (Z.of_nat (length es1 + i)))) →
  foldl (λ o' (xr : value * value * value), assign_obj xr.1.2 xr.2 o')
    (Obj (KArray (es1 ++ xs2)) p ps) (zip items es2)
  = Obj (KArray (es1 ++ es2)) p ps.
Proof.
  induction es2 as [|v es2 IH]; intros [|x items] es1 [|y xs2] p ps Hlen Hit Hkey;
    simpl in Hlen, Hit; try done.
  cbn [zip zip_with foldl fst snd].
  rewrite (Hkey 0 x eq_refl). unfold assign_obj at 2.
  cbn [kind proto props].
  assert ((0 <=? Z.of_nat (length es1 + 0))%Z = true) as ->
    by (apply Z.leb_le; lia).
  rewrite Nat2Z.id, Nat.add_0_r. unfold set_elem.
  rewrite decide_True by (rewrite length_app; simpl; lia).
  rewrite insert_app_r_alt, Nat.sub_diag by lia. cbn [insert list_insert].
  rewrite (cons_middle v es1 xs2), app_assoc.
  rewrite (IH items (es1 ++ [v]) xs2 p ps); [|lia|lia|].
  - by rewrite <- app_assoc.
  - intros i x' Hi. rewrite (Hkey (S i) x' Hi). rewrite length_app. simpl.
    do 3 f_equal. lia.
Qed.

(** The cell made by [initCloneArray] (lines 147-161): as many empty
    slots as the array has elements, and the [index] and [input] of a
    [RegExp#exec] result. *)
Lemma get_named h l o name :
  h !! l = Some o → proto o = None →
  get h (VRef l) (VPrim (PStr name))
  = default VUndef (own_get (props o) (PStr name)).
Proof.
  intros Hl Hp. unfold get. rewrite Hl, (proto_chain_own h l o Hl Hp).
  cbn [chain_get]. destruct o as [[] ? ?]; cbn [props];
    by destruct (own_get _ _).
Qed.

Lemma initCloneArray_cell h l o es :
  h !! l = Some o → kind o = KArray es → ctor_ok o = true →
  ∃ h1 ps',
    initCloneArray h l o = Ok (VRef (length h), h1)
    ∧ frame h h1 ∧ length h1 = S (length h)
    ∧ h1 !! length h
      = Some (Obj (KArray (replicate (length es) VUndef)) None ps')
    ∧ (negb (length es =? 0) && is_string_value (default VUndef (es !! 0))
       && hasOwnProperty o (PStr "index") = false → ps' = [])
    ∧ (negb (length es =? 0) && is_string_value (default VUndef (es !! 0))
       && hasOwnProperty o (PStr "index") = true →
       ps' = [(PStr "index",
               default VUndef (own_get (props o) (PStr "index")));
              (PStr "input",
               default VUndef (own_get (props o) (PStr "input")))]).
Proof.
  intros Hl Hk Hctor.
  rewrite (initCloneArray_plain h l o Hl Hctor) by (unfold isArray; by rewrite Hk).
  destruct (ctor_ok_array o es Hctor Hk) as (Hp & _ & _).
  unfold array_shell, elems_of. rewrite Hk.
  rewrite alloc_spec. set (o' := Obj _ _ _).
  assert (Hne : l ≠ length h) by (apply lookup_lt_Some in Hl; lia).
  assert (Hlen : length (h ++ [o']) = S (length h))
    by (rewrite length_app; simpl; lia).
  assert (Hl1 : (h ++ [o']) !! l = Some o) by by apply lookup_app_l_Some.
  destruct (_ && _) eqn:Hcond.
  - unfold assignValue.
    set (v1 := get (h ++ [o']) (VRef l) (VPrim (PStr "index"))).
    set (h2 := alter (assign_obj (VPrim (PStr "index")) v1) (length h)
                 (h ++ [o'])).
    set (v2 := get h2 (VRef l) (VPrim (PStr "input"))).
    assert (Hl2 : h2 !! l = Some o)
      by (unfold h2; by rewrite list_lookup_alter_ne).
    eexists _, _. split; [done|]. split_and!.
    + do 2 (apply frame_alter; [lia|]). apply frame_app.
    + unfold h2. by rewrite !length_alter.
    + unfold h2. rewrite !list_lookup_alter_eq, lookup_alloc. done.
    + done.
    + intros _. unfold o'. cbn [assign_obj kind props own_set].
      rewrite decide_False by done. cbn [own_set].
      unfold v1, v2.
      by rewrite (get_named _ _ _ "index" Hl1 Hp),
        (get_named _ _ _ "input" Hl2 Hp).
  - eexists _, _. split; [done|]. split_and!; [apply frame_app|done| |done|done].
    apply lookup_alloc.
Qed.

Lemma fold_elems_slots (xs : list (nat * value)) : ∀ o es,
  kind o = KArray es →
  proto (foldl (λ o' (x : nat * value),
                  assign_obj (VPrim (PNum (Z.of_nat x.1))) x.2 o') o xs)
  = proto o
  ∧ props (foldl (λ o' (x : nat * value),
                    assign_obj (VPrim (PNum (Z.of_nat x.1))) x.2 o') o xs)
    = props o.
Proof.
  induction xs as [|[i v] xs IH]; intros o es Hk; [done|].
  cbn [foldl fst snd].
  assert (assign_obj (VPrim (PNum (Z.of_nat i))) v o
          = Obj (KArray (set_elem es (Z.to_nat (Z.of_nat i)) v)) (proto o)
              (props o)) as Hstep.
  { unfold assign_obj. rewrite Hk.
    by assert ((0 <=? Z.of_nat i)%Z = true) as -> by (apply Z.leb_le; lia). }
  rewrite Hstep.
  by destruct (IH (Obj (KArray (set_elem es (Z.to_nat (Z.of_nat i)) v))
                     (proto o) (props o)) _ eq_refl) as [-> ->].
Qed.

(** X7 (shallow clone of an array).  The shallow clone of an array that
    is an instance of [Array] (lines 208-213): a new array with the built-in
    prototype that holds at every index what the original reads there.  It
    has the named properties [index] and [input] exactly when the array is
    not empty, its first element is a string and [index] is an own property
    (the result of [RegExp#exec]); they hold what the original reads under
    these names, [undefined] for an [input] that the original has not.  It
    has no other named property.  Nothing is visited recursively, no
    original is changed and the variable [stack] is left as it was. *)
Theorem shallow_array_clone (h : heap) l o es bitmask d key object stack :
  h !! l = Some o → kind o = KArray es → ctor_ok o = true →
  flag bitmask CLONE_DEEP_FLAG = false →
  ∃ h' ps',
    baseClone (S d) (VRef l) bitmask None key object stack h
    = Some (VRef (length h), stack, h')
    ∧ h' !! length h = Some (Obj (KArray es) None ps')
    ∧ frame h h'
    ∧ ps' = if negb (length es =? 0)
               && is_string_value (default VUndef (es !! 0))
               && hasOwnProperty o (PStr "index")
            then [(PStr "index",
                   default VUndef (own_get (props o) (PStr "index")));
                  (PStr "input",
                   default VUndef (own_get (props o) (PStr "input")))]
            else [].
Proof.
  intros Hl Hk Hctor Hshallow.
  destruct (initCloneArray_cell h l o es Hl Hk Hctor)
    as (h1 & ps' & Hinit & Hfr & Hlen & Hcell & Hno & Hyes).
  set (cell := foldl (λ o' (x : nat * value),
                        assign_obj (VPrim (PNum (Z.of_nat x.1))) x.2 o')
                 (Obj (KArray (replicate (length es) VUndef)) None ps')
                 (imap (λ i v, (i, v)) es)).
  assert (Hcopy : copyArray h1 es (VRef (length h))
                  = (VRef (length h), alter (λ _, cell) (length h) h1)).
  { unfold copyArray. f_equal.
    rewrite (foldl_alter_ext _
               (λ x, assign_obj (VPrim (PNum (Z.of_nat x.1))) x.2) (length h))
      by by intros ? [].
    apply list_eq. intros i. destruct (decide (i = length h)) as [->|Hne].
    - by rewrite !list_lookup_alter_eq, Hcell.
    - by rewrite !list_lookup_alter_ne. }
  assert (Hobj : cell = Obj (KArray es) None ps').
  { pose proof (copy_elems None ps' es [] (replicate (length es) VUndef)
                  (length_replicate _ _)) as Hkind.
    destruct (fold_elems_slots (imap (λ i v, (i, v)) es)
                (Obj (KArray (replicate (length es) VUndef)) None ps')
                (replicate (length es) VUndef) eq_refl) as [Hp Hps].
    fold cell in Hp, Hps. change (kind cell = KArray es) in Hkind.
    cbn [proto props] in Hp, Hps.
    destruct cell as [k p ps]. cbn [kind proto props] in *. by subst. }
  exists (alter (λ _, cell) (length h) h1), ps'. split_and!.
  - cbn [baseClone]. unfold baseClone_body.
    cbn [is_undefined negb isObject]. rewrite Hl. cbn [mbind option_bind].
    unfold init_phase, isArray, elems_of. rewrite Hk, Hshallow, Hinit.
    cbn [negb]. by rewrite Hcopy.
  - rewrite list_lookup_alter_eq, Hcell. simpl. by rewrite Hobj.
  - apply frame_alter; [lia|done].
  - destruct (_ && _); auto.
Qed.

Lemma shallow_array_clone_witness :
  (∃ h',
     shallowClone 1 (VRef 0) exec_result = Some (VRef 2, None, h')
     ∧ h' !! 2
       = Some (Obj (KArray [VPrim (PStr "ab"); VPrim (PStr "b")]) None
                 [(PStr "index", VPrim (PNum 3));
                  (PStr "input", VPrim (PStr "xyzab"))]))
  ∧ (∃ h',
       shallowClone 1 (VRef 1) exec_result = Some (VRef 2, None, h')
       ∧ h' !! 2 = Some (Obj (KArray [VPrim (PNum 1)]) None [])).
Proof.
  split.
  - destruct (shallow_array_clone exec_result 0
                (Obj (KArray [VPrim (PStr "ab"); VPrim (PStr "b")]) None
                   [(PStr "index", VPrim (PNum 3));
                    (PStr "input", VPrim (PStr "xyzab"));
                    (PStr "groups", VUndef)])
                [VPrim (PStr "ab"); VPrim (PStr "b")] 0%Z 0 VUndef VUndef None)
      as (h' & ps' & H1 & H2 & _ & H3); [reflexivity..|].
    exists h'. split; [exact H1|]. rewrite H3 in H2. exact H2.
  - destruct (shallow_array_clone exec_result 1
                (Obj (KArray [VPrim (PNum 1)]) None
                   [(PStr "index", VPrim (PNum 3))])
                [VPrim (PNum 1)] 0%Z 0 VUndef VUndef None)
      as (h' & ps' & H1 & H2 & _ & H3); [reflexivity..|].
    exists h'. split; [exact H1|]. rewrite H3 in H2. exact H2.
Defined.

Lemma init_phase_array_deep object bitmask l o h es r h1 :
  kind o = KArray es → flag bitmask CLONE_DEEP_FLAG = true →
  initCloneArray h l o = Ok (r, h1) →
  init_phase object (VRef l) l o bitmask h = Shell r h1.
Proof.
  intros Hk Hdeep Hinit. unfold init_phase, isArray.
  by rewrite Hk, Hdeep, Hinit.
Qed.

Lemma array_loop o es :
  kind o = KArray es →
  isTypedArray o = false
  ∧ (∀ ks, loop_items o ks = imap (λ i v, (v, VPrim (PNum (Z.of_nat i)))) es)
  ∧ (∀ parent h x, loop_sub o parent h x = x.1)
  ∧ loop_key o = snd
  ∧ loop_put o = assign_obj.
Proof.
  intros Hk.
  unfold isTypedArray, loop_items, loop_sub, loop_key, loop_put.
  by rewrite Hk.
Qed.



(** ** Sets *)

Lemma add_once_NoDup (rs : list value) : ∀ acc,
  NoDup acc →
  NoDup (foldl add_once acc rs)
  ∧ length (foldl add_once acc rs) ≤ length acc + length rs
  ∧ ∀ r, r ∈ foldl add_once acc rs → r ∈ acc ∨ r ∈ rs.
Proof.
  induction rs as [|r0 rs IH]; intros acc Hnd; simpl.
  { split_and!; [done|lia|auto]. }
  destruct (IH (add_once acc r0)) as (Hnd' & Hlen & Hin).
  { unfold add_once. destruct (decide (r0 ∈ acc)); [done|].
    apply NoDup_app. split_and!; [done| |apply NoDup_singleton].
    intros x Hx Heq. apply list_elem_of_singleton in Heq as ->. done. }
  split_and!; [done| |].
  - etransitivity; [exact Hlen|]. unfold add_once.
    destruct (decide (r0 ∈ acc)); [lia|]. rewrite length_app. simpl. lia.
  - intros r Hr. destruct (Hin r Hr) as [Hacc|Hrs]; [|right; by right].
    unfold add_once in Hacc. destruct (decide (r0 ∈ acc)); [by left|].
    apply elem_of_app in Hacc as [?|Heq]; [by left|].
    apply list_elem_of_singleton in Heq as ->. right. left.
Qed.



(** ** A customizer without opinion *)

Lemma forEach_ext items (cb1 cb2 : value → value → St → option St) :
  (∀ x k st, cb1 x k st = cb2 x k st) →
  ∀ st, forEach items cb1 st = forEach items cb2 st.
Proof.
  intros Hcb. induction items as [|[x k] items IH]; intros st; [done|].
  simpl. rewrite Hcb. destruct (cb2 x k st) as [st'|]; [apply IH|done].
Qed.

Lemma populate_ext (rec : clone_fn) (f : Customizer) v result o bitmask
    stack h1 :
  (∀ x key object st h,
     rec x bitmask (Some f) key object st h
     = rec x bitmask None key object st h) →
  populate rec v result o bitmask (Some f) stack h1
  = populate rec v result o bitmask None stack h1.
Proof.
  intros Hrec. unfold populate, arrayEach.
  repeat case_match; try done;
    (erewrite forEach_ext; [done|]);
    intros x k [s h]; cbn beta iota; by rewrite Hrec.
Qed.

(** X15 (a customizer without opinion).  A customizer that answers
    [undefined] at every node changes nothing: the call returns what it
    returns without customizer, in the same store and with the same registry
    (lines 190-196 fall through at every node of the traversal). *)
Theorem declining_customizer_is_none (f : Customizer) :
  (∀ v key object stack h, f v key object stack h = VUndef) →
  ∀ depth v bitmask key object stack (h : heap),
    baseClone depth v bitmask (Some f) key object stack h
    = baseClone depth v bitmask None key object stack h.
Proof.
  intros Hf. induction depth as [|d IH]; intros v bitmask key object stack h;
    [done|].
  cbn [baseClone]. unfold baseClone_body. rewrite !Hf.
  destruct (truthy object); cbn [is_undefined negb];
    (destruct (isObject v); cbn [negb]; [|done]);
    (destruct v as [| |l]; [done..|]);
    (destruct (h !! l) as [o|]; cbn [mbind option_bind]; [|done]);
    (destruct (init_phase object (VRef l) l o bitmask h); [done| |done]);
    (destruct (truthy (stack_get (default [] stack) (VRef l))); [done|]);
    apply populate_ext; intros; apply IH.
Qed.

Lemma declining_customizer_is_none_witness :
  deepCloneWith 3 (VRef 1) always_undefined keyed_store
  = deepClone 3 (VRef 1) keyed_store.
Proof.
  apply (declining_customizer_is_none always_undefined); reflexivity.
Defined.

(** ** Every registered clone is finished *)

Lemma clone_in_image h0 object bitmask s h b b' v r :
  clone_in h0 object bitmask s h b b' v r → length h0 ≤ b →
  image h0 object bitmask s v r.
Proof.
  unfold clone_in, image. intros Hcl Hb.
  destruct v as [| |l]; [done..|]. destruct (h0 !! l) as [o|]; [|done].
  destruct (classify object bitmask o); [done|..].
  - destruct Hcl as (c & ? & ? & _). exists c. split; [done|lia].
  - destruct Hcl as (c & o' & ? & ? & _). exists c. split; [done|lia].
  - destruct Hcl as (c & o' & ? & ? & _). exists c. split; [done|lia].
  - destruct Hcl as (? & c & ? & ?). split; [done|]. exists c. split; [done|lia].
Qed.

Lemma image_grow h0 hx parent bitmask (add s : Stack) v r :
  stack_inv h0 bitmask hx (add ++ s) →
  image h0 parent bitmask s v r → image h0 parent bitmask (add ++ s) v r.
Proof.
  intros Hinv. unfold image.
  destruct v as [| |l]; [done..|]. destruct (h0 !! l) as [o|]; [|done].
  destruct (classify parent bitmask o); try done.
  intros (Hget & c & -> & Hc). split; [|by exists c].
  rewrite (stack_get_grow _ _ _ _ _ _ Hinv); [done|].
  by eapply stack_get_ref_elem.
Qed.

Lemma finished_stable h0 hx bitmask (add s : Stack) h h' v r :
  stack_inv h0 bitmask hx (add ++ s) →
  (∀ c o', r = VRef c → h !! c = Some o' → h' !! c = Some o') →
  finished h0 bitmask s h v r → finished h0 bitmask (add ++ s) h' v r.
Proof.
  intros Hinv Hcell (l & c & o & -> & -> & Ho & Hc & Hdone).
  exists l, c, o. split_and!; [done..|].
  destruct Hdone as [?|(ks & subs & rs & shell0 & Hks & HF2 & Hsh & Hc' & Him)];
    [by left|right].
  exists ks, subs, rs, shell0. split_and!; [done|done|done|by apply Hcell|].
  eapply Forall2_impl; [done|]. intros sub r' ?. by eapply image_grow.
Qed.

Lemma NoDup_snd_inj (s : Stack) v v' r :
  NoDup s.*2 → (v, r) ∈ s → (v', r) ∈ s → v = v'.
Proof.
  intros Hnd [i Hi]%list_elem_of_lookup [j Hj]%list_elem_of_lookup.
  assert (i = j) as ->.
  { eapply (NoDup_lookup _ _ _ r Hnd); by rewrite list_lookup_fmap, ?Hi, ?Hj. }
  congruence.
Qed.

Lemma NoDup_fst_inj (s : Stack) v r r' :
  NoDup s.*1 → (v, r) ∈ s → (v, r') ∈ s → r = r'.
Proof.
  intros Hnd [i Hi]%list_elem_of_lookup [j Hj]%list_elem_of_lookup.
  assert (i = j) as ->.
  { eapply (NoDup_lookup _ _ _ v Hnd); by rewrite list_lookup_fmap, ?Hi, ?Hj. }
  congruence.
Qed.

Lemma stack_inv_snd_bound h0 bitmask h (s : Stack) v c :
  stack_inv h0 bitmask h s → (v, VRef c) ∈ s → c < length h.
Proof.
  intros [_ Hall] Hin. rewrite Forall_forall in Hall.
  destruct (Hall _ Hin) as (l & c' & o & [= -> ->] & _ & _ & ?). lia.
Qed.

Lemma finished_but_frame h0 bitmask open (s : Stack) h h' :
  stack_inv h0 bitmask h s → frame h h' →
  finished_but h0 bitmask open s h → finished_but h0 bitmask open s h'.
Proof.
  intros Hinv Hfr [Hnd Hall]. split; [done|]. intros v r Hin.
  destruct (Hall v r Hin) as [?|Hfin]; [by left|right].
  apply (finished_stable h0 h bitmask [] s h h'); [done| |done].
  intros c o' _. apply Hfr.
Qed.

Lemma init_phase_shell_ok object bitmask l o h c h1 shell0 :
  h !! l = Some o → ctor_ok o = true → classify object bitmask o = CReg →
  init_phase object (VRef l) l o bitmask h = Shell (VRef c) h1 →
  h1 !! c = Some shell0 → shell_ok (flag bitmask CLONE_FLAT_FLAG) o shell0.
Proof.
  intros Hl Hctor Hcls Hinit Hshell. unfold shell_ok.
  assert (Hslots : ∀ k p,
            shell_slots (flag bitmask CLONE_FLAT_FLAG) o = Some (k, p) →
            shell0 = Obj k p []).
  { intros k p Hs.
    rewrite (init_phase_slots object bitmask l o h k p Hl Hctor Hcls Hs)
      in Hinit.
    injection Hinit as <- <-. rewrite lookup_alloc in Hshell.
    by injection Hshell as <-. }
  destruct (kind o) as [| | | | |es| | | | | | |es|ms| | | |] eqn:Hk;
    try (split_and!;
         [apply (init_phase_shell_props object bitmask l o h c h1 shell0
                   Hl Hctor Hcls); [unfold isArray; by rewrite Hk|done|done]
         |apply (init_phase_shell_props object bitmask l o h c h1 shell0
                   Hl Hctor Hcls); [unfold isArray; by rewrite Hk|done|done]
         |intros k p Hs; by rewrite (Hslots k p Hs)]).
  - assert (Hdeep : flag bitmask CLONE_DEEP_FLAG = true).
    { unfold classify, isArray in Hcls. rewrite Hk in Hcls.
      by destruct (flag bitmask CLONE_DEEP_FLAG). }
    destruct (initCloneArray_cell h l o es Hl Hk Hctor)
      as (h1' & ps' & Harr & _ & _ & Hcell0 & Hno & Hyes).
    rewrite (init_phase_array_deep object bitmask l o h es _ _ Hk Hdeep Harr)
      in Hinit.
    injection Hinit as <- <-.
    rewrite Hcell0 in Hshell. injection Hshell as <-. f_equal.
    unfold match_props, elems_of. rewrite Hk.
    destruct (_ && _); auto.
  - destruct (ctor_ok_collection o Hctor) as [Hp _]; [by rewrite Hk|].
    rewrite <- Hp. apply Hslots. unfold shell_slots. by rewrite Hk.
  - destruct (ctor_ok_collection o Hctor) as [Hp _]; [by rewrite Hk|].
    rewrite <- Hp. apply Hslots. unfold shell_slots. by rewrite Hk.
Qed.

(** The second half of an activation, in any state of a traversal: the
    registered shell receives the results of the calls on the children. *)
Lemma populate_cell h0 m rec bitmask l o c s h1 shell0 :
  heap_ok h0 = true → clones h0 m rec →
  h0 !! l = Some o → classify VUndef bitmask o = CReg → frame h0 h1 →
  stack_inv h0 bitmask h1 s → VRef l ∉ s.*1 → unreg (length h0) s < S m →
  length h0 ≤ c < length h1 → h1 !! c = Some shell0 →
  keeps_kind o shell0 → isTypedArray o = false →
  ∃ s' h' subs rs,
    forEach (loop_items o (keysFunc bitmask h1 (VRef l)))
      (loop_cb rec bitmask o (VRef l) c) (stack_set s (VRef l) (VRef c), h1)
    = Some (s', h')
    ∧ Forall2 (λ x sub, ∃ hx, frame h0 hx ∧ sub = loop_sub o (VRef l) hx x)
        (loop_items o (keysFunc bitmask h1 (VRef l))) subs
    ∧ h' !! c
      = Some (foldl (λ o' xr, loop_put o (loop_key o xr.1) xr.2 o') shell0
                (zip (loop_items o (keysFunc bitmask h1 (VRef l))) rs))
    ∧ stack_inv h0 bitmask h' s'
    ∧ (∃ add, s' = add ++ stack_set s (VRef l) (VRef c))
    ∧ frame_but c h1 h'
    ∧ trace_ok h0 (VRef l) bitmask s' h' (length h1) subs rs.
Proof.
  intros Hok Hrec Ho Hroot Hf Hinv Hmiss Hm Hc Hshell Hkeeps Htyped.
  assert (Hl : l < length h0) by by eapply lookup_lt_Some.
  set (s2 := stack_set s (VRef l) (VRef c)).
  assert (Hinv2 : stack_inv h0 bitmask h1 s2) by by eapply stack_inv_set.
  assert (Hm2 : unreg (length h0) s2 < m).
  { pose proof (unreg_set (length h0) s l (VRef c) Hl Hmiss). unfold s2. lia. }
  destruct (loop_trace h0 bitmask m rec (VRef l) c (loop_put o)
              (loop_sub o (VRef l)) (loop_key o)
              (loop_cb rec bitmask o (VRef l) c)
              (loop_store o c) (keeps_kind o) Hrec
              (λ _ _ _ _, eq_refl) (loop_store_put o c)
              (loop_items o (keysFunc bitmask h1 (VRef l))) s2 h1 shell0
              Hf Hinv2 Hm2 Hc Hshell Hkeeps)
    as (subs & rs & s' & h' & Hloop & HF2 & Hc' & Hfb & Hadd & Hinv' & Htr).
  { intros x hx Hx Hfx. by eapply loop_sub_ok. }
  by exists s', h', subs, rs.
Qed.

Lemma keysFunc_covers bitmask h l o p :
  h !! l = Some o → p ∈ (props o).*1 → is_string_key p = true →
  VPrim p ∈ keysFunc bitmask h (VRef l).
Proof. intros. unfold keysFunc. by eapply own_string_key_enumerated. Qed.

Section LoopFinished.
Context (h0 : heap) (bitmask : Z) (m : nat) (rec : clone_fn).
Context (parent : value) (c : loc) (g : value → value → obj → obj).
Context (sub_of : heap → value * value → value).
Context (key_of : value * value → value).
Context (cb : value → value → St → option St).
Context (put : value → value → heap → option heap).
Context (open : list value).
Hypothesis Hrec : clones h0 m rec.
Hypothesis Hrec2 : finishes h0 m rec.
Hypothesis Hcb : ∀ x k s h,
  cb x k (s, h) =
  '(r, out, h2) ← rec (sub_of h (x, k)) bitmask None (key_of (x, k)) parent
                    (Some s) h;
  h3 ← put (key_of (x, k)) r h2;
  Some (stack_after s out, h3).
Hypothesis Hput : ∀ key r (h h3 : heap),
  put key r h = Some h3 → h3 = alter (g key r) c h.
Hypothesis Hopen : parent ∈ open.

(** The loop of an activation keeps the finished pairs finished: it
    only writes to the shell [c] of its own original, which is open. *)
Lemma loop_finished items : ∀ s h s' h',
  frame h0 h → stack_inv h0 bitmask h s → unreg (length h0) s < m →
  length h0 ≤ c < length h →
  (∀ x hx, x ∈ items → frame h0 hx → val_ok (length h0) (sub_of hx x) = true) →
  (parent, VRef c) ∈ s →
  finished_but h0 bitmask open s h →
  forEach items cb (s, h) = Some (s', h') →
  finished_but h0 bitmask open s' h'.
Proof.
  induction items as [|[x k] items IH];
    intros s h s' h' Hf Hinv Hm Hc Hsub Hpair Hfin Hloop.
  { simpl in Hloop. by injection Hloop as <- <-. }
  simpl in Hloop. rewrite Hcb in Hloop.
  assert (Hpre : call_pre h0 bitmask m (sub_of h (x, k)) (Some s) h).
  { unfold call_pre. split_and!; [done|done| |done]. apply Hsub; [left|done]. }
  destruct (Hrec (sub_of h (x, k)) bitmask (key_of (x, k)) parent (Some s) h
              Hpre)
    as (r & out & h1 & Hcall & Hfr & Hinv1 & [add1 Hadd1] & _ & _).
  pose proof (Hrec2 _ _ _ _ _ _ open _ _ _ Hpre Hfin Hcall) as [Hnd1 Hall1].
  rewrite Hcall in Hloop. cbn [mbind option_bind] in Hloop.
  destruct (put (key_of (x, k)) r h1) as [h3|] eqn:Hstore; [|done].
  apply Hput in Hstore as ->. simpl in *.
  set (s1 := stack_after s out) in *.
  set (h1' := alter (g (key_of (x, k)) r) c h1) in *.
  assert (Hlen1 : length h ≤ length h1) by by apply frame_length.
  assert (Hlen1' : length h1' = length h1) by apply length_alter.
  assert (Hpair1 : (parent, VRef c) ∈ s1).
  { rewrite Hadd1. apply elem_of_app. by right. }
  apply (IH s1 h1' s' h'); try done.
  - apply frame_alter; [lia|]. by eapply frame_trans.
  - eapply stack_inv_mono; [|done]. lia.
  - rewrite Hadd1. pose proof (unreg_app (length h0) add1 s). lia.
  - lia.
  - intros y hy Hy. apply Hsub. by right.
  - split; [done|]. intros v r' Hin.
    destruct (Hall1 v r' Hin) as [?|Hdone]; [by left|].
    destruct (decide (r' = VRef c)) as [->|Hne].
    { left. by rewrite (NoDup_snd_inj s1 v parent (VRef c) Hnd1 Hin Hpair1). }
    right. apply (finished_stable h0 h1 bitmask [] s1 h1 h1'); [done| |done].
    intros c' o' -> Hc'. unfold h1'. rewrite list_lookup_alter_ne; [done|].
    congruence.
Qed.

End LoopFinished.

Section BodyFinished.
Context (h0 : heap) (Hok : heap_ok h0 = true).
Context (m : nat) (rec : clone_fn).
Context (Hrec : clones h0 m rec) (Hrec2 : finishes h0 m rec).

Lemma body_finishes : finishes h0 (S m) (baseClone_body rec).
Proof.
  intros v bitmask key object stack h open r stack' h'
    (Hf & Hinv & Hv & Hm) Hfin Hcall.
  unfold baseClone_body in Hcall. cbn [is_undefined negb] in Hcall.
  destruct v as [|p|l];
    [cbn in Hcall; injection Hcall as <- <- <-;
     by rewrite stack_after_default..|].
  cbn [isObject negb] in Hcall. destruct (val_ok_lookup _ _ Hv) as [o Ho].
  rewrite (Hf _ _ Ho) in Hcall. cbn [mbind option_bind] in Hcall.
  assert (Hlen : length h0 ≤ length h) by by apply frame_length.
  pose proof (heap_ok_lookup _ _ _ Hok Ho) as Hobj.
  apply obj_ok_unpack in Hobj as (_ & _ & Hkeys & _).
  destruct (classify object bitmask o) eqn:Hcls.
  - rewrite (init_phase_same _ _ _ _ _ Hcls) in Hcall.
    injection Hcall as <- <- <-. by rewrite stack_after_default.
  - rewrite (init_phase_empty _ _ _ _ _ Hcls) in Hcall.
    injection Hcall as <- <- <-. rewrite stack_after_default.
    apply (finished_but_frame _ _ _ _ h); [done|apply frame_app|done].
  - destruct (init_phase_buffer object bitmask l o h Hcls)
      as ([r0 h1] & Heq & c & h1' & o' & [= -> ->] & Hfr & _).
    rewrite Heq in Hcall. injection Hcall as <- <- <-.
    rewrite stack_after_default. by apply (finished_but_frame _ _ _ _ h).
  - destruct (init_phase_shallow object bitmask l o h Hcls (Hf _ _ Ho) Hkeys
                (heap_ok_ctor _ _ _ Hok Ho))
      as (h1 & o' & Heq & Hfr & _).
    rewrite Heq in Hcall. injection Hcall as <- <- <-.
    rewrite stack_after_default. by apply (finished_but_frame _ _ _ _ h).
  - destruct (init_phase_reg object bitmask l o h (Hf _ _ Ho)
                (heap_ok_ctor _ _ _ Hok Ho) Hcls)
      as ([r0 h1] & Heq & c & h1' & shell0 & [= -> ->] & Hfr & Hc & Hc'
          & Hshell0).
    cbn [fst snd] in Heq. rewrite Heq in Hcall.
    set (s := default [] stack) in *.
    pose proof (frame_length _ _ Hfr) as Hlen1.
    assert (Hinv1 : stack_inv h0 bitmask h1' s)
      by (eapply stack_inv_mono; [|done]; lia).
    destruct (truthy (stack_get s (VRef l))) eqn:Hhit.
    { injection Hcall as <- <- <-. unfold stack_after; cbn [default from_option id].
      by apply (finished_but_frame _ _ _ _ h). }
    apply (stack_miss _ _ _ _ _ Hinv) in Hhit as Hmiss.
    pose proof (classify_reg_root _ _ _ Hcls) as Hroot.
    assert (Hfresh : VRef c ∉ s.*2).
    { intros Hin. apply list_elem_of_fmap in Hin as ([v0 r0] & Hr0 & Hin).
      simpl in Hr0. subst r0.
      pose proof (stack_inv_snd_bound _ _ _ _ _ _ Hinv Hin). lia. }
    assert (Hinv2 : stack_inv h0 bitmask h1' (stack_set s (VRef l) (VRef c))).
    { eapply stack_inv_set; [done|done|done|done|lia]. }
    destruct Hfin as [Hnd Hall].
    assert (Hfin2 : finished_but h0 bitmask (VRef l :: open)
                      (stack_set s (VRef l) (VRef c)) h1').
    { split; [simpl; by constructor|]. intros v r0 Hin.
      apply elem_of_cons in Hin as [[= -> ->]|Hin]; [left; left|].
      destruct (Hall v r0 Hin) as [?|Hdone]; [left; by right|right].
      apply (finished_stable h0 h1' bitmask [(VRef l, VRef c)] s h h1');
        [done| |done].
      intros c0 o0 _. apply Hfr. }
    rewrite populate_keys in Hcall.
    destruct (isTypedArray o) eqn:Hty.
    { injection Hcall as <- <- <-. unfold stack_after; cbn [default from_option id].
      split; [simpl; by constructor|]. intros v r0 Hin.
      destruct (proj2 Hfin2 v r0 Hin) as [Hopen|?]; [|by right].
      apply elem_of_cons in Hopen as [->|?]; [|by left]. right.
      assert (r0 = VRef c) as ->.
      { eapply (NoDup_fst_inj _ (VRef l)); [by destruct Hinv2|done|left]. }
      exists l, c, o. split_and!; [done|done|done|lia|by left]. }
    destruct (populate_cell h0 m rec bitmask l o c s h1' shell0 Hok Hrec Ho
                Hroot)
      as (s' & h2 & subs & rs & Hloop & HF2 & Hcell & Hinv' & [add Hadd]
          & Hfb & Htr);
      try done; [by eapply frame_trans|lia|by apply shell_of_keeps|].
    rewrite Hloop in Hcall. cbn in Hcall. injection Hcall as <- <- <-.
    unfold stack_after; cbn [default from_option id].
    assert (Hl : l < length h0) by by eapply lookup_lt_Some.
    assert (Hm2 : unreg (length h0) (stack_set s (VRef l) (VRef c)) < m).
    { pose proof (unreg_set (length h0) s l (VRef c) Hl Hmiss). lia. }
    assert (Hfin' : finished_but h0 bitmask (VRef l :: open) s' h2).
    { eapply (loop_finished h0 bitmask m rec (VRef l) c (loop_put o)
                (loop_sub o (VRef l)) (loop_key o)
                (loop_cb rec bitmask o (VRef l) c) (loop_store o c)
                (VRef l :: open)
                Hrec Hrec2 (λ _ _ _ _, eq_refl) (loop_store_alter o c));
        [left| | | | | | | |exact Hloop]; try done.
      - by eapply frame_trans.
      - lia.
      - intros x hx Hx Hfx. by eapply loop_sub_ok.
      - left. }
    destruct Hfin' as [Hnd' Hall']. split; [done|]. intros v r0 Hin.
    destruct (Hall' v r0 Hin) as [Hopen|?]; [|by right].
    apply elem_of_cons in Hopen as [->|?]; [|by left]. right.
    assert (r0 = VRef c) as ->.
    { eapply (NoDup_fst_inj s' (VRef l)); [by destruct Hinv'|done|].
      rewrite Hadd. apply elem_of_app. right. left. }
    exists l, c, o. split_and!; [done|done|done|lia|]. right.
    exists (keysFunc bitmask h1' (VRef l)), subs, rs, shell0.
    split_and!; [|done| |done|].
    + intros p Hp Hs. eapply keysFunc_covers; [|done|done].
      apply Hfr. by apply Hf.
    + eapply (init_phase_shell_ok object bitmask l o h);
        [by apply Hf|by eapply heap_ok_ctor|done|done|done].
    + eapply Forall2_impl; [by apply trace_ok_Forall2|].
      intros sub r1 (b1 & b2 & Hb & Hcl). eapply clone_in_image; [done|lia].
Qed.

End BodyFinished.

Lemma baseClone_finishes h0 depth :
  heap_ok h0 = true → finishes h0 depth (baseClone depth).
Proof.
  intros Hok. induction depth as [|d IH].
  - by intros v bitmask key object stack h open r stack' h' _ _ Hcall.
  - simpl. apply body_finishes; [done|by apply baseClone_clones|done].
Qed.

(** At the end of a traversal every pair of the registry is finished. *)
Lemma top_finished h v bitmask key object depth :
  heap_ok h = true → val_ok (length h) v = true → length h < depth →
  ∃ r stack' h',
    baseClone depth v bitmask None key object None h = Some (r, stack', h')
    ∧ frame h h'
    ∧ stack_inv h bitmask h' (stack_after [] stack')
    ∧ image h object bitmask (stack_after [] stack') v r
    ∧ NoDup (stack_after [] stack').*2
    ∧ ∀ v' r', (v', r') ∈ stack_after [] stack' →
               finished h bitmask (stack_after [] stack') h' v' r'.
Proof.
  intros Hok Hv Hd.
  destruct (top_level h v bitmask key object depth Hok Hv Hd)
    as (r & stack' & h' & Hcall & Hfr & Hinv & _ & Hcl & _).
  assert (Hpre : call_pre h bitmask depth v None h).
  { split_and!; [apply frame_refl|apply stack_inv_nil|done|].
    pose proof (unreg_bound (length h) []). simpl. lia. }
  destruct (baseClone_finishes h depth Hok v bitmask key object None h []
              r stack' h' Hpre) as [Hnd Hall]; [|done|].
  { split; [constructor|]. by intros ? ? ?%elem_of_nil. }
  exists r, stack', h'. split_and!; try done.
  - eapply clone_in_image; [done|lia].
  - intros v' r' Hin. destruct (Hall v' r' Hin) as [?%elem_of_nil|?]; done.
Qed.

(** The string-keyed properties of a finished clone. *)
Lemma finished_props h0 bitmask s h l c o p sub :
  heap_ok h0 = true → finished h0 bitmask s h (VRef l) (VRef c) →
  h0 !! l = Some o → copies_props (kind o) || isFunction o = true →
  own_get (props o) p = Some sub → is_string_key p = true →
  image h0 (VRef l) bitmask s sub (get h (VRef c) (VPrim p)).
Proof.
  intros Hok (l' & c' & o' & [= <-] & [= <-] & Ho' & Hc & Hdone) Ho Hk Hown Hs.
  assert (o' = o) as -> by congruence.
  destruct (keyed_loop o Hk) as (Hty & _ & Hitems & Hkey & Hput).
  destruct Hdone as [?|(ks & subs & rs & shell0 & Hks & HF2 & _ & Hcell & Him)];
    [congruence|].
  rewrite Hitems in HF2, Hcell. rewrite Hput, Hkey in Hcell.
  assert (Hkp : key_ok p = true) by (unfold key_ok; by rewrite Hs).
  pose proof (Forall2_length _ _ _ HF2) as Hlen1.
  pose proof (Forall2_length _ _ _ Him) as Hlen2.
  destruct (fold_assign_last
              (imap (λ i v, (v, VPrim (PNum (Z.of_nat i)))) ks) rs shell0 p Hkp)
    as (j & r & Hj & Hr & Hgot).
  { lia. }
  { rewrite imap_fst. apply Hks; [by eapply own_get_elem|done]. }
  rewrite imap_fst in Hj.
  rewrite (get_own _ _ _ _ _ Hcell Hkp Hgot).
  assert (HF2' : Forall2 (λ k sub, ∃ hx, frame h0 hx ∧ sub = get hx (VRef l) k)
                   ks subs).
  { rewrite <- (imap_fst ks (λ i, VPrim (PNum (Z.of_nat i)))) at 1.
    apply Forall2_fmap_l. eapply Forall2_impl; [done|].
    intros x sub' (hx & ? & ->). exists hx. split; [done|].
    unfold loop_sub. unfold isFunction in Hk. by destruct (kind o). }
  destruct (Forall2_lookup_l _ _ _ _ _ HF2' Hj) as (sub' & Hsub' & hx & Hfx & ->).
  rewrite (get_own hx l o p sub (Hfx _ _ Ho) Hkp Hown) in Hsub'.
  destruct (Forall2_lookup_l _ _ _ _ _ Him Hsub') as (r' & Hr' & Himg).
  congruence.
Qed.

(** ** The clone of a graph of objects *)

Lemma function_root_class bitmask o :
  isFunction o = true → flag bitmask CLONE_DEEP_FLAG = true →
  classify VUndef bitmask o = CReg.
Proof.
  intros Hfn Hd. destruct o as [[] ? ?]; try done; unfold classify;
    rewrite ?tag_plain, ?tag_cloneable, Hd; done.
Qed.





(** ** Nested arrays and Maps *)

Lemma finished_elems h0 bitmask s h l c o es :
  finished h0 bitmask s h (VRef l) (VRef c) →
  h0 !! l = Some o → kind o = KArray es →
  ∃ rs pr ps,
    h !! c = Some (Obj (KArray rs) pr ps)
    ∧ Forall2 (image h0 (VRef l) bitmask s) es rs.
Proof.
  intros (l' & c' & o' & [= <-] & [= <-] & Ho' & Hc & Hdone) Ho Hk.
  assert (o' = o) as -> by congruence.
  destruct (array_loop o es Hk) as (Hty & Hitems & Hsub & Hkey & Hput).
  destruct Hdone as [?|(ks & subs & rs & shell0 & _ & HF2 & Hsh & Hcell & Him)];
    [congruence|].
  rewrite (Hitems ks) in HF2, Hcell. rewrite Hput, Hkey in Hcell.
  assert (subs = es) as ->.
  { rewrite <- (imap_fst es (λ i, VPrim (PNum (Z.of_nat i)))).
    eapply (Forall2_fst_eq _ _ (frame h0)). eapply Forall2_impl; [done|].
    intros x sub (hx & ? & ->). exists hx. by rewrite Hsub. }
  unfold shell_ok in Hsh. rewrite Hk in Hsh.
  subst shell0.
  rewrite (assign_elems rs _ [] (replicate (length es) VUndef)) in Hcell.
  - by eexists rs, _, _.
  - rewrite length_replicate. by apply Forall2_length in Him.
  - rewrite length_imap. by apply Forall2_length in Him.
  - intros i x Hi. apply list_lookup_imap_Some in Hi as (v & _ & ->). done.
Qed.

Lemma finished_entries h0 bitmask s h l c o es :
  heap_ok h0 = true → finished h0 bitmask s h (VRef l) (VRef c) →
  h0 !! l = Some o → kind o = KMap es →
  ∃ oc rs,
    h !! c = Some oc ∧ kind oc = KMap (zip es.*1 rs)
    ∧ length rs = length es
    ∧ Forall2 (image h0 (VRef l) bitmask s) es.*2 rs.
Proof.
  intros Hok (l' & c' & o' & [= <-] & [= <-] & Ho' & Hc & Hdone) Ho Hk.
  assert (o' = o) as -> by congruence.
  destruct Hdone as [Hty|(ks & subs & rs & shell0 & _ & HF2 & Hsh & Hcell & Him)].
  { unfold isTypedArray in Hty. by rewrite Hk in Hty. }
  unfold shell_ok, loop_items, loop_sub, loop_key, loop_put, map_entries in *.
  rewrite Hk in *.
  apply Forall2_fst_eq in HF2 as ->.
  rewrite <- list_fmap_compose in Him.
  pose proof (Forall2_length _ _ _ Him) as Hlen.
  rewrite length_fmap in Hlen.
  pose proof (heap_ok_lookup _ _ _ Hok Ho) as Hobj.
  apply obj_ok_unpack in Hobj as (_ & _ & _ & Hnd).
  subst shell0.
  eexists _, rs. split_and!; [done| |done|done].
  rewrite (fold_map_set es rs [] None []); [done| |done].
  simpl. by apply Hnd.
Qed.



(** ** The registry at the end of a traversal *)



(** ** The tag of a clone *)

Lemma loop_put_tag o k r o' : getTag (loop_put o k r o') = getTag o'.
Proof.
  unfold loop_put, Map_set_obj, Set_add_obj, assign_obj, getTag.
  destruct (kind o); destruct k as [|[]|]; destruct (kind o') eqn:E;
    cbn [kind]; rewrite ?E; try done;
    match goal with |- context [(0 <=? ?z)%Z] => destruct (0 <=? z)%Z end;
    cbn [kind]; by rewrite ?E.
Qed.

Lemma fold_put_tag o (items : list (value * value * value)) : ∀ shell0,
  getTag (foldl (λ o' xr, loop_put o (loop_key o xr.1) xr.2 o') shell0 items)
  = getTag shell0.
Proof.
  induction items as [|x items IH]; intros shell0; [done|].
  cbn [foldl]. by rewrite IH, loop_put_tag.
Qed.

Lemma init_phase_tag object bitmask l o h c h1 shell0 :
  h !! l = Some o → ctor_ok o = true → classify object bitmask o = CReg →
  kind o ≠ KArguments → isFunction o = false →
  init_phase object (VRef l) l o bitmask h = Shell (VRef c) h1 →
  h1 !! c = Some shell0 → getTag shell0 = getTag o.
Proof.
  intros Hl Hctor Hcls Hna Hfn Hinit Hshell.
  destruct (kind o) as [| | | | |es| | | | | | | | | | | |] eqn:Hk.
  6:{ pose proof (init_phase_shell_ok object bitmask l o h c h1 shell0
                    Hl Hctor Hcls Hinit Hshell) as Hsh.
      unfold shell_ok in Hsh. rewrite Hk in Hsh. unfold getTag.
      by rewrite Hsh, Hk. }
  all: try (by exfalso; apply Hna);
    try (unfold isFunction in Hfn; rewrite Hk in Hfn; discriminate Hfn).
  all: rewrite (init_phase_plain _ _ _ _ _ Hl Hctor) in Hinit.
  all: clear Hna Hfn Hl Hctor.
  all: revert Hcls Hinit Hshell; destruct o as [k pr ps]; cbn [kind] in Hk;
    subst k; init_simpl;
    destruct (flag bitmask CLONE_DEEP_FLAG) eqn:?; cbn [negb andb orb];
    try destruct (truthy object) eqn:?; cbn [negb andb orb];
    try discriminate; intros _;
    unfold cloneArrayBuffer, initCloneObject, cloneRegExp,
      cloneSymbol, cloneDataView, cloneTypedArray, alloc, empty_object;
    cbn [kind proto props];
    try destruct (flag bitmask CLONE_FLAT_FLAG);
    intros [= <- <-]; rewrite lookup_alloc; intros [= <-]; reflexivity.
Qed.



(** ** The prototype of the clone of a plain object *)

Lemma plain_slots isFlat o object :
  plain_kind (kind o) || (isFunction o && negb (truthy object)) = true →
  shell_slots isFlat o
  = Some (KObject, if isFlat || isFunction o then None else proto o).
Proof. destruct o as [[] ? ?], isFlat; done. Qed.

Lemma plain_root_class object bitmask o :
  plain_kind (kind o) || (isFunction o && negb (truthy object)) = true →
  flag bitmask CLONE_DEEP_FLAG = true →
  classify object bitmask o = CReg.
Proof.
  intros Hk Hd. destruct o as [[] ? ?]; try done; unfold classify;
    rewrite ?tag_plain, ?tag_cloneable, Hd; try done.
  cbn in Hk. by rewrite Hk.
Qed.



(** ** The table of cloneable tags and the switch *)

(** The shell that [initCloneByTag] makes is a new object with the tag
    of the original. *)
Lemma shell_by_kind_fresh h l o d :
  h !! l = Some o → cloneable_kind (kind o) = true →
  plain_kind (kind o) = false → isArray o = false → isBuffer o = false →
  fresh_at h (λ o', getTag o' = getTag o) (shell_by_kind h l o d).
Proof.
  intros Hl Hc Hp Ha Hb. unfold shell_by_kind, getTag, isArray, isBuffer in *.
  destruct (kind o) eqn:Hk; try done.
  all: unfold cloneRegExp, cloneSymbol, cloneArrayBuffer, cloneDataView,
         cloneTypedArray; rewrite ?Hk.
  all: try (by apply fresh_alloc).
  - match type of Hk with
    | _ = KDataView ?b ?off ?n =>
        by apply (fresh_view h b (λ b', KDataView b' off n))
    end.
  - match type of Hk with
    | _ = KTypedArray ?t ?b ?off ?n =>
        by apply (fresh_view h b (λ b', KTypedArray t b' off n))
    end.
Qed.

(** X14 (cloneable tags and the switch).  Every tag that [cloneableTags]
    marks as cloneable, other than the three that [baseClone] handles itself
    (arrays, plain objects and arguments objects), has a case in the
    [switch] of [initCloneByTag]: for an object with that tag (an instance
    of the built-in constructor of its kind, and not a Node.js buffer, which
    [baseClone] handles before) the function answers a new object with the
    same tag and leaves the objects of the store as they are.  For every
    other tag the [switch], which has no [default], leaves the result
    [undefined] and the store unchanged. *)
Theorem switch_covers_cloneable_tags (tag : string) :
  (cloneable tag = true →
   tag ≠ argsTag → tag ≠ arrayTag → tag ≠ objectTag →
   ∀ (h : heap) l o isDeep,
     h !! l = Some o → getTag o = tag → isBuffer o = false →
     ctor_ok o = true →
     ∃ c h1 shell,
       initCloneByTag h l o tag isDeep = Ok (VRef c, h1)
       ∧ length h ≤ c ∧ h1 !! c = Some shell ∧ getTag shell = tag
       ∧ ∀ l' o', h !! l' = Some o' → h1 !! l' = Some o')
  ∧ (cloneable tag = false ∨ tag = argsTag ∨ tag = arrayTag
     ∨ tag = objectTag →
     ∀ h l o isDeep, initCloneByTag h l o tag isDeep = Ok (VUndef, h)).
Proof.
  split.
  - intros Hc Hargs Harr Hobj h l o isDeep Hl <- Hb Hctor.
    rewrite (initCloneByTag_kind h l o isDeep Hl Hctor).
    rewrite tag_cloneable in Hc.
    destruct (shell_by_kind_fresh h l o isDeep Hl Hc)
      as (c & h1 & shell & Heq & Hfr & Hc1 & Hshell & Htag); try done.
    + destruct (kind o) eqn:Hk; try done; exfalso;
        [apply Hobj|apply Hargs]; unfold getTag; by rewrite Hk.
    + unfold isArray. destruct (kind o) eqn:Hk; try done. exfalso.
      apply Harr. unfold getTag. by rewrite Hk.
    + rewrite Heq. exists c, h1, shell. split_and!; [done|lia|done|done|done].
  - intros Hnot h l o isDeep. unfold initCloneByTag, tag_in.
    cbn [existsb].
    repeat match goal with
    | |- context [String.eqb tag ?t] =>
        rewrite (proj2 (String.eqb_neq tag t))
          by (intros ->; destruct Hnot as [Hn|[Hn|[Hn|Hn]]];
              vm_compute in Hn; discriminate Hn)
    end.
    reflexivity.
Qed.

Lemma switch_covers_cloneable_tags_witness :
  (∃ c h1 shell,
     initCloneByTag keyed_store 0
       (Obj (KDate 86400000) None [(PStr "label", VPrim (PStr "day one"))])
       dateTag true
     = Ok (VRef c, h1)
     ∧ 2 ≤ c ∧ h1 !! c = Some shell ∧ getTag shell = dateTag)
  ∧ ∀ h l o isDeep, initCloneByTag h l o errorTag isDeep = Ok (VUndef, h).
Proof.
  split.
  - destruct (proj1 (switch_covers_cloneable_tags dateTag) eq_refl)
      with (h := keyed_store) (l := 0)
           (o := Obj (KDate 86400000) None
                   [(PStr "label", VPrim (PStr "day one"))])
           (isDeep := true)
      as (c & h1 & shell & H1 & H2 & H3 & H4 & _);
      [discriminate..|reflexivity|reflexivity|reflexivity|reflexivity|].
    by exists c, h1, shell.
  - apply (proj2 (switch_covers_cloneable_tags errorTag)). by left.
Defined.

(** ** Typed arrays *)



(** ** A customizer that answers for the children *)

Lemma replace_inv (g : value → value → value) ks :
  ∀ (Q : prim → Prop) (h : heap) l c o oc,
  l ≠ c → h !! l = Some o → Forall (λ k, key_ok k = true) (props o).*1 →
  h !! c = Some oc → kind oc = KObject →
  (∀ p v, Q p → own_get (props o) p = Some v →
          own_get (props oc) p = Some (g v (VPrim p))) →
  ∃ oc',
    foldl (λ h' k, assignValue h' (VRef c) k (g (get h' (VRef l) k) k)) h ks
      !! c = Some oc'
    ∧ (∀ l' o', l' ≠ c → h !! l' = Some o' →
         foldl (λ h' k, assignValue h' (VRef c) k (g (get h' (VRef l) k) k))
           h ks !! l' = Some o')
    ∧ (∀ p v, Q p ∨ VPrim p ∈ ks → own_get (props o) p = Some v →
              own_get (props oc') p = Some (g v (VPrim p))).
Proof.
  induction ks as [|k ks IH]; intros Q h l c o oc Hne Hl Hkeys Hc Hkind HQ;
    cbn [foldl].
  - exists oc. split_and!; [done|done|].
    intros p v [?|Hin]; [by apply HQ|]. by apply elem_of_nil in Hin.
  - change (assignValue h (VRef c) k (g (get h (VRef l) k) k))
      with (alter (assign_obj k (g (get h (VRef l) k) k)) c h).
    set (h1 := alter (assign_obj k (g (get h (VRef l) k) k)) c h).
    set (oc1 := assign_obj k (g (get h (VRef l) k) k) oc).
    assert (Hc1 : h1 !! c = Some oc1)
      by (unfold h1; by rewrite list_lookup_alter_eq, Hc).
    assert (Hl1 : h1 !! l = Some o)
      by (unfold h1; by rewrite list_lookup_alter_ne).
    assert (Hk1 : kind oc1 = KObject).
    { unfold oc1. destruct k as [|p|]; [done| |done].
      by rewrite assign_obj_plain. }
    destruct (IH (λ p, Q p ∨ VPrim p = k) h1 l c o oc1 Hne Hl1 Hkeys Hc1 Hk1)
      as (oc' & Hc' & Hfb & Hall).
    { intros p v [HQp|<-] Hown.
      - unfold oc1. destruct k as [|p'|]; [by apply HQ| |by apply HQ].
        rewrite assign_obj_plain by done. cbn [props].
        destruct (decide (p' = p)) as [->|Hpp].
        + rewrite own_get_set_eq. do 2 f_equal. eapply get_own; [done| |done].
          apply own_get_elem in Hown. rewrite Forall_forall in Hkeys. auto.
        + rewrite own_get_set_ne by done. by apply HQ.
      - unfold oc1. rewrite assign_obj_plain by done. cbn [props].
        rewrite own_get_set_eq. do 2 f_equal. eapply get_own; [done| |done].
        apply own_get_elem in Hown. rewrite Forall_forall in Hkeys. auto. }
    exists oc'. split_and!; [done| |].
    + intros l' o' Hl' Ho'. apply Hfb; [done|].
      unfold h1. by rewrite list_lookup_alter_ne.
    + intros p v [HQp|Hin] Hown; apply (Hall p v); auto.
      apply elem_of_cons in Hin as [->|?]; auto.
Qed.

Lemma forEach_replace (g : value → value → value) l c
    (cb : value → value → St → option St) :
  (∀ x k s h,
     cb x k (s, h)
     = Some (s, assignValue h (VRef c) x (g (get h (VRef l) x) x))) →
  ∀ (items : list (value * value)) s h,
    forEach items cb (s, h)
    = Some (s, foldl (λ h' k,
                        assignValue h' (VRef c) k (g (get h' (VRef l) k) k))
                 h items.*1).
Proof.
  intros Hcb. induction items as [|[x k] items IH]; intros s h; [done|].
  cbn [forEach fmap list_fmap foldl fst]. rewrite Hcb.
  cbn [mbind option_bind]. apply IH.
Qed.

(** X16 (a customizer that answers for the children).  A customizer that has
    no opinion on the root and answers for every child of the root: the deep
    clone of a plain object holds, under each own string key, the answer of
    the customizer for the value and the key of the original (lines 191 and
    299 pass the key and the parent).  The children are neither cloned nor
    registered: the registry ends with the pair of the root alone, and a
    call-depth budget of two suffices. *)
Theorem customizer_answers_for_children (h : heap) l o bitmask
    (f : Customizer) (g : value → value → value) d :
  h !! l = Some o → kind o = KObject →
  Forall (λ k, key_ok k = true) (props o).*1 →
  flag bitmask CLONE_DEEP_FLAG = true →
  flag bitmask CLONE_FLAT_FLAG = false →
  (∀ v st hx, f v VUndef VUndef st hx = VUndef) →
  (∀ v k st hx, f v k (VRef l) st hx = g v k) →
  (∀ v k, g v k ≠ VUndef) →
  ∃ h' o',
    baseClone (S (S d)) (VRef l) bitmask (Some f) VUndef VUndef None h
    = Some (VRef (length h), Some [(VRef l, VRef (length h))], h')
    ∧ h' !! length h = Some o'
    ∧ (∀ l' o0, h !! l' = Some o0 → h' !! l' = Some o0)
    ∧ ∀ p sub,
        own_get (props o) p = Some sub → is_string_key p = true →
        own_get (props o') p = Some (g sub (VPrim p)).
Proof.
  intros Hl Hk Hkeys Hdeep Hflat Hroot Hchild Hdef.
  assert (Hne : l ≠ length h) by (apply lookup_lt_Some in Hl; lia).
  set (h1 := h ++ [Obj KObject (proto o) []]).
  assert (Hl1 : h1 !! l = Some o) by by apply lookup_app_l_Some.
  assert (Hc1 : h1 !! length h = Some (Obj KObject (proto o) []))
    by apply lookup_alloc.
  set (ks := keysFunc bitmask h1 (VRef l)).
  destruct (replace_inv g ks (λ _, False) h1 l (length h) o
              (Obj KObject (proto o) []) Hne Hl1 Hkeys Hc1 eq_refl)
    as (oc' & Hcell & Hfb & Hall); [done|].
  eexists _, oc'. split_and!; [|exact Hcell| |].
  - cbn [baseClone]. unfold baseClone_body at 1.
    cbn [truthy]. rewrite Hroot. cbn [is_undefined negb isObject].
    rewrite Hl. cbn [mbind option_bind].
    assert (Hcls : classify VUndef bitmask o = CReg).
    { unfold classify, isArray, isBuffer, getTag. rewrite Hk, Hdeep. done. }
    rewrite (init_phase_slots VUndef bitmask l o h KObject (proto o) Hl)
      by (unfold ctor_ok, shell_slots; by rewrite ?Hk, ?Hflat).
    cbn [default stack_get truthy].
    assert (Hpop : ∀ rec stack h2,
      populate rec (VRef l) (VRef (length h)) o bitmask (Some f) stack h2
      = '(s', h') ← forEach (imap (λ i v, (v, VPrim (PNum (Z.of_nat i))))
                               (keysFunc bitmask h2 (VRef l)))
           (λ subValue key '(s, hx),
              '(r, out, h3) ← rec (get hx (VRef l) subValue) bitmask (Some f)
                                subValue (VRef l) (Some s) hx;
              Some (stack_after s out,
                    assignValue h3 (VRef (length h)) subValue r))
           (stack, h2);
        Some (VRef (length h), Some s', h')).
    { intros rec stack h2. unfold populate, keysFunc, isArray, isTypedArray,
        getTag, arrayEach, elems_of. rewrite Hk.
      change (String.eqb objectTag mapTag) with false.
      change (String.eqb objectTag setTag) with false.
      reflexivity. }
    rewrite Hpop.
    rewrite (forEach_replace g l (length h)).
    + cbn [mbind option_bind]. rewrite imap_fst. reflexivity.
    + intros x k s hx. unfold baseClone_body. cbn [truthy].
      rewrite Hchild.
      destruct (g (get hx (VRef l) x) x) eqn:Hg; [by destruct (Hdef _ _ Hg)|..];
        reflexivity.
  - intros l' o0 Hl'. apply Hfb.
    + apply lookup_lt_Some in Hl'. lia.
    + by apply lookup_app_l_Some.
  - intros p sub Hown Hs. apply Hall; [|done]. right.
    unfold ks. eapply keysFunc_covers; [done|by eapply own_get_elem|done].
Qed.

Lemma customizer_answers_for_children_witness :
  ∃ h' o',
    deepCloneWith 2 (VRef 1) key_of_child keyed_store
    = Some (VRef 2, Some [(VRef 1, VRef 2)], h')
    ∧ h' !! 2 = Some o'
    ∧ own_get (props o') (PStr "when") = Some (VPrim (PStr "when")).
Proof.
  destruct (customizer_answers_for_children keyed_store 1
              (Obj KObject None [(PStr "a", VPrim (PNum 1));
                                 (PSym 7, VPrim (PNum 2));
                                 (PStr "when", VRef 0)])
              CLONE_DEEP_FLAG key_of_child
              (λ _ k, match k with VUndef => VPrim PNull | _ => k end) 0)
    as (h' & o' & H1 & H2 & _ & H3);
    [reflexivity|reflexivity|repeat constructor|reflexivity|reflexivity
    |reflexivity|reflexivity| |].
  - intros v [| |]; discriminate.
  - exists h', o'. split_and!; [exact H1|exact H2|].
    exact (H3 (PStr "when") (VRef 0) eq_refl eq_refl).
Defined.

(** ** The Flat flag *)

(** Reading through the prototype chain of an original only looks at
    originals: two stores of the same size that hold the same originals
    agree on it. *)
Lemma proto_chain_agree (h0 : heap) n : ∀ (h1 h2 : heap) l,
  heap_ok h0 = true → frame h0 h1 → frame h0 h2 → l < length h0 →
  proto_chain n h1 l = proto_chain n h2 l.
Proof.
  induction n as [|n IH]; intros h1 h2 l Hok Hf1 Hf2 Hl; [done|].
  destruct (lookup_lt_is_Some_2 h0 l Hl) as [o Ho].
  cbn [proto_chain]. rewrite (Hf1 _ _ Ho), (Hf2 _ _ Ho).
  f_equal. destruct (proto o) as [p|] eqn:Hp; [|done].
  apply IH; try done.
  pose proof (heap_ok_lookup _ _ _ Hok Ho) as Hobj.
  apply obj_ok_unpack in Hobj as (_ & Hproto & _). exact (Hproto _ Hp).
Qed.

Lemma get_agree (h0 h1 h2 : heap) l k :
  heap_ok h0 = true → frame h0 h1 → frame h0 h2 → l < length h0 →
  length h1 = length h2 → get h1 (VRef l) k = get h2 (VRef l) k.
Proof.
  intros Hok Hf1 Hf2 Hl Hlen. unfold get.
  destruct (lookup_lt_is_Some_2 h0 l Hl) as [o Ho].
  rewrite (Hf1 _ _ Ho), (Hf2 _ _ Ho), Hlen.
  by rewrite (proto_chain_agree h0 (length h2) h1 h2 l).
Qed.

Lemma chain_keys_agree (h0 h1 h2 : heap) f l :
  heap_ok h0 = true → frame h0 h1 → frame h0 h2 → l < length h0 →
  length h1 = length h2 → chain_keys f h1 l = chain_keys f h2 l.
Proof.
  intros Hok Hf1 Hf2 Hl Hlen. unfold chain_keys.
  by rewrite Hlen, (proto_chain_agree h0 (length h2) h1 h2 l).
Qed.

Lemma own_set_keys_sub (ps : list (prim * value)) k v k' :
  k' ∈ (own_set ps k v).*1 → k' = k ∨ k' ∈ ps.*1.
Proof.
  induction ps as [|[k0 v0] ps IH]; simpl.
  - intros Hin. apply list_elem_of_singleton in Hin. by left.
  - destruct (decide (k0 = k)) as [->|Hne]; simpl; intros Hin.
    + apply elem_of_cons in Hin as [->|Hin]; [by left|right; by right].
    + apply elem_of_cons in Hin as [->|Hin]; [right; by left|].
      destruct (IH Hin) as [->|?]; [by left|right; by right].
Qed.

(** The cell [c] after [copyObject] from an original [l], the keys being
    any list: every listed key is an own property of [c] and holds what
    [l] reads under it, through its prototype chain; no other key is
    added. *)
Lemma copyObject_reads (h0 : heap) ks : ∀ (Q : prim → Prop) h l c oc,
  heap_ok h0 = true → l < length h0 → length h0 ≤ c → frame h0 h →
  h !! c = Some oc → kind oc = KObject →
  (∀ p, Q p → own_get (props oc) p = Some (get h (VRef l) (VPrim p))) →
  ∃ oc', (copyObject h (VRef l) ks (VRef c)).2 !! c = Some oc'
    ∧ kind oc' = KObject
    ∧ proto oc' = proto oc
    ∧ frame h0 (copyObject h (VRef l) ks (VRef c)).2
    ∧ length (copyObject h (VRef l) ks (VRef c)).2 = length h
    ∧ (∀ p, Q p ∨ VPrim p ∈ ks →
            own_get (props oc') p = Some (get h (VRef l) (VPrim p)))
    ∧ (∀ p, p ∈ (props oc').*1 → p ∈ (props oc).*1 ∨ VPrim p ∈ ks).
Proof.
  unfold copyObject. cbn [snd].
  induction ks as [|k ks IH]; intros Q h l c oc Hok Hl Hc Hf Hcell Hkind HQ;
    cbn [foldl].
  - exists oc. split_and!; [done..| |by left].
    intros p [?|Hin]; [by apply HQ|]. by apply elem_of_nil in Hin.
  - change (assignValue h (VRef c) k (get h (VRef l) k))
      with (alter (assign_obj k (get h (VRef l) k)) c h).
    set (h1 := alter (assign_obj k (get h (VRef l) k)) c h).
    set (oc1 := assign_obj k (get h (VRef l) k) oc).
    assert (Hc1 : h1 !! c = Some oc1)
      by (unfold h1; by rewrite list_lookup_alter_eq, Hcell).
    assert (Hf1 : frame h0 h1) by (by apply frame_alter).
    assert (Hlen1 : length h1 = length h) by apply length_alter.
    assert (Hget : ∀ k', get h1 (VRef l) k' = get h (VRef l) k')
      by (intros k'; by apply (get_agree h0)).
    assert (Hoc1 : kind oc1 = KObject ∧ proto oc1 = proto oc).
    { unfold oc1. destruct k as [|p|]; [done| |done].
      by rewrite assign_obj_plain. }
    destruct Hoc1 as [Hk1 Hp1].
    destruct (IH (λ p, Q p ∨ VPrim p = k) h1 l c oc1 Hok Hl Hc Hf1 Hc1 Hk1)
      as (oc' & Hc' & Hk' & Hp' & Hfr & Hlen & Hall & Hsub).
    { intros p [HQp|<-]; rewrite Hget.
      - unfold oc1. destruct k as [|p'|]; [by apply HQ| |by apply HQ].
        rewrite assign_obj_plain by done. cbn [props].
        destruct (decide (p' = p)) as [->|Hpp].
        + by rewrite own_get_set_eq.
        + rewrite own_get_set_ne by done. by apply HQ.
      - unfold oc1. rewrite assign_obj_plain by done. cbn [props].
        by rewrite own_get_set_eq. }
    exists oc'. split_and!; [done|done|congruence|done|congruence| |].
    + intros p Hp. rewrite <- Hget. apply Hall.
      destruct Hp as [?|Hin]; [by left; left|].
      apply elem_of_cons in Hin as [->|?]; [left; by right|by right].
    + intros p Hp. destruct (Hsub p Hp) as [Hin|Hin]; [|right; by right].
      unfold oc1 in Hin. destruct k as [|p'|]; [by left| |by left].
      rewrite assign_obj_plain in Hin by done. cbn [props] in Hin.
      apply own_set_keys_sub in Hin as [->|?]; [right; by left|by left].
Qed.

(** X17 (the Flat flag lifts inherited properties).  A clone that is not
    deep, of a plain object or an arguments object under the Flat flag, is a
    new plain object without a prototype.  Every string or symbol key
    enumerated on the original, own or inherited, is an own property of the
    clone and holds what the original reads under that key; the clone has no
    other property.  The variable [stack] is left as it was. *)
Theorem flat_shallow_clone_inherits (h : heap) l o bitmask d key object stack :
  heap_ok h = true → h !! l = Some o → plain_kind (kind o) = true →
  flag bitmask CLONE_DEEP_FLAG = false →
  flag bitmask CLONE_FLAT_FLAG = true →
  ∃ h' o',
    baseClone (S d) (VRef l) bitmask None key object stack h
    = Some (VRef (length h), stack, h')
    ∧ frame h h'
    ∧ h' !! length h = Some o'
    ∧ kind o' = KObject ∧ proto o' = None
    ∧ (∀ p, VPrim p ∈ getAllKeysIn h' (VRef l) →
            own_get (props o') p = Some (get h' (VRef l) (VPrim p)))
    ∧ (∀ p, p ∈ (props o').*1 → VPrim p ∈ getAllKeysIn h' (VRef l)).
Proof.
  intros Hok Hl Hplain Hdeep Hflat.
  assert (Hlt : l < length h) by (by eapply lookup_lt_Some).
  set (h1 := h ++ [empty_object]).
  assert (Hf1 : frame h h1) by apply frame_app.
  assert (Hc1 : h1 !! length h = Some empty_object) by apply lookup_alloc.
  destruct (copyObject_reads h (keysIn h1 (VRef l)) (λ _, False) h1 l
              (length h) empty_object Hok Hlt (le_n _) Hf1 Hc1 eq_refl)
    as (oc2 & Hc2 & Hk2 & Hp2 & Hf2 & Hlen2 & Hall2 & Hsub2); [done|].
  set (h2 := (copyObject h1 (VRef l) (keysIn h1 (VRef l))
                (VRef (length h))).2) in *.
  destruct (copyObject_reads h (getSymbolsIn h2 (VRef l))
              (λ p, VPrim p ∈ keysIn h1 (VRef l)) h2 l
              (length h) oc2 Hok Hlt (le_n _) Hf2 Hc2 Hk2)
    as (oc3 & Hc3 & Hk3 & Hp3 & Hf3 & Hlen3 & Hall3 & Hsub3).
  { intros p Hp. rewrite (get_agree h h2 h1 l) by done. apply Hall2. by right. }
  set (h3 := (copyObject h2 (VRef l) (getSymbolsIn h2 (VRef l))
                (VRef (length h))).2) in *.
  assert (Hkeys : getAllKeysIn h3 (VRef l)
                  = keysIn h1 (VRef l) ++ getSymbolsIn h2 (VRef l)).
  { unfold getAllKeysIn, keysIn, getSymbolsIn, keys_of.
    rewrite (chain_keys_agree h h3 h1) by (done || congruence).
    by rewrite (chain_keys_agree h h3 h2) by (done || congruence). }
  exists h3, oc3. split_and!; [|done|done|done|by rewrite Hp3, Hp2| |].
  - cbn [baseClone]. unfold baseClone_body.
    cbn [is_undefined negb isObject]. rewrite Hl. cbn [mbind option_bind].
    unfold init_phase, copySymbolsIn. rewrite Hdeep, Hflat.
    destruct o as [[] ? ?]; try done.
  - intros p Hp. rewrite Hkeys in Hp.
    rewrite (get_agree h h3 h2 l) by done. apply Hall3.
    apply elem_of_app in Hp as [?|?]; [by left|by right].
  - intros p Hp. rewrite Hkeys. apply elem_of_app.
    destruct (Hsub3 p Hp) as [Hin|?]; [|by right].
    destruct (Hsub2 p Hin) as [Hin'|?]; [|by left].
    by apply elem_of_nil in Hin'.
Qed.

Lemma flat_shallow_clone_inherits_witness :
  ∃ h' o',
    baseClone 1 (VRef 1) CLONE_FLAT_FLAG None VUndef VUndef None with_proto
    = Some (VRef 2, None, h')
    ∧ h' !! 2 = Some o'
    ∧ proto o' = None
    ∧ own_get (props o') (PStr "inherited") = Some (VPrim (PNum 1))
    ∧ own_get (props o') (PStr "own") = Some (VPrim (PNum 2)).
Proof.
  destruct (flat_shallow_clone_inherits with_proto 1
              (Obj KObject (Some 0) [(PStr "own", VPrim (PNum 2))])
              CLONE_FLAT_FLAG 0 VUndef VUndef None)
    as (h' & o' & Hcall & Hfr & Hcell & _ & Hproto & Hall & _);
    [reflexivity..|].
  exists h', o'. split_and!; [exact Hcall|exact Hcell|exact Hproto|..].
  - vm_compute in Hcall. injection Hcall as <-.
    refine (Hall (PStr "inherited") _).
    apply (bool_decide_unpack _); vm_compute; exact I.
  - vm_compute in Hcall. injection Hcall as <-.
    refine (Hall (PStr "own") _).
    apply (bool_decide_unpack _); vm_compute; exact I.
Defined.

(** * Finished clones, cell by cell *)

Lemma fold_map_set_cell (items : list (value * value * value)) :
  ∀ shell0,
    proto (foldl (λ o' xr, Map_set_obj xr.1.2 xr.2 o') shell0 items)
    = proto shell0
    ∧ props (foldl (λ o' xr, Map_set_obj xr.1.2 xr.2 o') shell0 items)
      = props shell0.
Proof.
  induction items as [|[[x k] r] items IH]; intros shell0; [done|].
  cbn [foldl fst snd]. destruct (IH (Map_set_obj k r shell0)) as [-> ->].
  unfold Map_set_obj. by destruct (kind shell0).
Qed.

Lemma fold_set_add_cell (items : list (value * value * value)) :
  ∀ shell0,
    proto (foldl (λ o' xr, Set_add_obj xr.2 o') shell0 items) = proto shell0
    ∧ props (foldl (λ o' xr, Set_add_obj xr.2 o') shell0 items)
      = props shell0.
Proof.
  induction items as [|[[x k] r] items IH]; intros shell0; [done|].
  cbn [foldl fst snd]. destruct (IH (Set_add_obj r shell0)) as [-> ->].
  unfold Set_add_obj. by destruct (kind shell0).
Qed.

Lemma obj_eta (o : obj) k p ps :
  kind o = k → proto o = p → props o = ps → o = Obj k p ps.
Proof. destruct o. simpl. by intros -> -> ->. Qed.

(** The finished clone of an object whose properties are copied: its
    slots and its prototype are those of the shell, and every own string
    key of the original holds the image of the value of the original. *)
Lemma finished_keyed h0 bitmask s h l c o :
  heap_ok h0 = true → finished h0 bitmask s h (VRef l) (VRef c) →
  h0 !! l = Some o → copies_props (kind o) || isFunction o = true →
  ∃ oc,
    h !! c = Some oc
    ∧ (∀ k p, shell_slots (flag bitmask CLONE_FLAT_FLAG) o = Some (k, p) →
              kind oc = k ∧ proto oc = p)
    ∧ ∀ p sub,
        own_get (props o) p = Some sub → is_string_key p = true →
        ∃ r, own_get (props oc) p = Some r
             ∧ image h0 (VRef l) bitmask s sub r.
Proof.
  intros Hok (l' & c' & o' & [= <-] & [= <-] & Ho' & Hc & Hdone) Ho Hk.
  assert (o' = o) as -> by congruence.
  destruct (keyed_loop o Hk) as (Hty & Harr & Hitems & Hkey & Hput).
  destruct Hdone as [?|(ks & subs & rs & shell0 & Hks & HF2 & Hsh & Hcell & Him)];
    [congruence|].
  rewrite Hitems in HF2, Hcell. rewrite Hput, Hkey in Hcell.
  assert (Hshell : props shell0 = [] ∧ (∀ es, kind shell0 ≠ KArray es)
            ∧ ∀ k p, shell_slots (flag bitmask CLONE_FLAT_FLAG) o = Some (k, p) →
                     kind shell0 = k ∧ proto shell0 = p).
  { revert Hsh. unfold shell_ok. unfold isFunction in Hk.
    by destruct (kind o). }
  destruct Hshell as (_ & Hna & Hslots).
  eexists. split; [exact Hcell|]. split.
  - intros k p Hs. destruct (Hslots k p Hs) as [<- <-].
    by apply fold_assign_slots.
  - intros p sub Hown Hs.
    assert (Hkp : key_ok p = true) by (unfold key_ok; by rewrite Hs).
    pose proof (Forall2_length _ _ _ HF2) as Hlen1.
    pose proof (Forall2_length _ _ _ Him) as Hlen2.
    destruct (fold_assign_last
                (imap (λ i v, (v, VPrim (PNum (Z.of_nat i)))) ks) rs shell0 p Hkp)
      as (j & r & Hj & Hr & Hgot).
    { lia. }
    { rewrite imap_fst. apply Hks; [by eapply own_get_elem|done]. }
    rewrite imap_fst in Hj. exists r. split; [done|].
    assert (HF2' : Forall2 (λ k sub, ∃ hx, frame h0 hx ∧ sub = get hx (VRef l) k)
                     ks subs).
    { rewrite <- (imap_fst ks (λ i, VPrim (PNum (Z.of_nat i)))) at 1.
      apply Forall2_fmap_l. eapply Forall2_impl; [done|].
      intros x sub' (hx & ? & ->). exists hx. split; [done|].
      unfold loop_sub. unfold isFunction in Hk. by destruct (kind o). }
    destruct (Forall2_lookup_l _ _ _ _ _ HF2' Hj)
      as (sub' & Hsub' & hx & Hfx & ->).
    rewrite (get_own hx l o p sub (Hfx _ _ Ho) Hkp Hown) in Hsub'.
    destruct (Forall2_lookup_l _ _ _ _ _ Him Hsub') as (r' & Hr' & Himg).
    congruence.
Qed.

(** The finished clone of an array, of a Map and of a Set. *)
Lemma finished_array h0 bitmask s h l c o es :
  finished h0 bitmask s h (VRef l) (VRef c) →
  h0 !! l = Some o → kind o = KArray es →
  ∃ rs, h !! c = Some (Obj (KArray rs) None (match_props o))
        ∧ Forall2 (image h0 (VRef l) bitmask s) es rs.
Proof.
  intros (l' & c' & o' & [= <-] & [= <-] & Ho' & Hc & Hdone) Ho Hk.
  assert (o' = o) as -> by congruence.
  destruct (array_loop o es Hk) as (Hty & Hitems & Hsub & Hkey & Hput).
  destruct Hdone as [?|(ks & subs & rs & shell0 & _ & HF2 & Hsh & Hcell & Him)];
    [congruence|].
  rewrite (Hitems ks) in HF2, Hcell. rewrite Hput, Hkey in Hcell.
  assert (subs = es) as ->.
  { rewrite <- (imap_fst es (λ i, VPrim (PNum (Z.of_nat i)))).
    eapply (Forall2_fst_eq _ _ (frame h0)). eapply Forall2_impl; [done|].
    intros x sub (hx & ? & ->). exists hx. by rewrite Hsub. }
  unfold shell_ok in Hsh. rewrite Hk in Hsh. subst shell0.
  rewrite (assign_elems rs _ [] (replicate (length es) VUndef)) in Hcell.
  - by exists rs.
  - rewrite length_replicate. by apply Forall2_length in Him.
  - rewrite length_imap. by apply Forall2_length in Him.
  - intros i x Hi. apply list_lookup_imap_Some in Hi as (v & _ & ->). done.
Qed.

Lemma finished_map h0 bitmask s h l c o es :
  heap_ok h0 = true → finished h0 bitmask s h (VRef l) (VRef c) →
  h0 !! l = Some o → kind o = KMap es →
  ∃ rs, h !! c = Some (Obj (KMap (zip es.*1 rs)) None [])
        ∧ Forall2 (image h0 (VRef l) bitmask s) es.*2 rs.
Proof.
  intros Hok (l' & c' & o' & [= <-] & [= <-] & Ho' & Hc & Hdone) Ho Hk.
  assert (o' = o) as -> by congruence.
  destruct Hdone as [Hty|(ks & subs & rs & shell0 & _ & HF2 & Hsh & Hcell & Him)].
  { unfold isTypedArray in Hty. by rewrite Hk in Hty. }
  unfold shell_ok, loop_items, loop_sub, loop_key, loop_put, map_entries in *.
  rewrite Hk in *.
  apply Forall2_fst_eq in HF2 as ->.
  rewrite <- list_fmap_compose in Him.
  pose proof (Forall2_length _ _ _ Him) as Hlen.
  rewrite length_fmap in Hlen.
  pose proof (heap_ok_lookup _ _ _ Hok Ho) as Hobj.
  apply obj_ok_unpack in Hobj as (_ & _ & _ & Hnd).
  subst shell0. exists rs. split; [|done]. rewrite Hcell. f_equal.
  apply obj_eta.
  - rewrite (fold_map_set es rs [] None []); [done| |done].
    simpl. by apply Hnd.
  - apply (fold_map_set_cell _ (Obj (KMap []) None [])).
  - apply (fold_map_set_cell _ (Obj (KMap []) None [])).
Qed.

Lemma finished_set h0 bitmask s h l c o ms :
  finished h0 bitmask s h (VRef l) (VRef c) →
  h0 !! l = Some o → kind o = KSet ms →
  ∃ rs, h !! c = Some (Obj (KSet (foldl add_once [] rs)) None [])
        ∧ Forall2 (image h0 (VRef l) bitmask s) ms rs.
Proof.
  intros (l' & c' & o' & [= <-] & [= <-] & Ho' & Hc & Hdone) Ho Hk.
  assert (o' = o) as -> by congruence.
  destruct Hdone as [Hty|(ks & subs & rs & shell0 & _ & HF2 & Hsh & Hcell & Him)].
  { unfold isTypedArray in Hty. by rewrite Hk in Hty. }
  unfold shell_ok, loop_items, loop_sub, loop_key, loop_put, set_entries in *.
  rewrite Hk in *.
  apply Forall2_fst_eq in HF2 as ->.
  rewrite <- list_fmap_compose in Him.
  pose proof (Forall2_length _ _ _ Him) as Hlen.
  rewrite length_fmap in Hlen.
  subst shell0. exists rs. split.
  - rewrite Hcell. f_equal. apply obj_eta.
    + by rewrite (fold_set_add ms rs [] None []).
    + apply (fold_set_add_cell _ (Obj (KSet []) None [])).
    + apply (fold_set_add_cell _ (Obj (KSet []) None [])).
  - by rewrite list_fmap_id in Him.
Qed.

(** Every finished pair of the registry is a clone in the sense of
    [clone_of]. *)
Lemma finished_clone_of h0 bitmask s h l c o :
  heap_ok h0 = true → c < length h →
  finished h0 bitmask s h (VRef l) (VRef c) → h0 !! l = Some o →
  ∃ oc, h !! c = Some oc ∧ clone_of h0 bitmask s l o oc.
Proof.
  intros Hok Hc Hfin Ho. unfold clone_of.
  destruct (kind o) as [| | | | |es| | | | | | |es|ms| | | |] eqn:Hk;
    try (destruct (finished_keyed h0 bitmask s h l c o Hok Hfin Ho)
           as (oc & ? & ? & ?);
         [unfold isFunction; by rewrite Hk|by exists oc]);
    try (destruct (lookup_lt_is_Some_2 h c Hc) as [oc Hoc]; by exists oc).
  - destruct (finished_array h0 bitmask s h l c o es Hfin Ho Hk) as (rs & ? & ?).
    eexists. split; [done|]. by exists rs.
  - destruct (finished_map h0 bitmask s h l c o es Hok Hfin Ho Hk)
      as (rs & ? & ?).
    eexists. split; [done|]. by exists rs.
  - destruct (finished_set h0 bitmask s h l c o ms Hfin Ho Hk) as (rs & ? & ?).
    eexists. split; [done|]. by exists rs.
Qed.

(** At the end of a traversal the registry pairs every original that it
    holds with a new cell, the finished clone of the original. *)
Lemma traversal_clones h v bitmask key object depth :
  heap_ok h = true → val_ok (length h) v = true → length h < depth →
  ∃ r stack' h',
    baseClone depth v bitmask None key object None h = Some (r, stack', h')
    ∧ frame h h'
    ∧ image h object bitmask (stack_after [] stack') v r
    ∧ NoDup (stack_after [] stack').*1
    ∧ NoDup (stack_after [] stack').*2
    ∧ ∀ l c o,
        (VRef l, VRef c) ∈ stack_after [] stack' → h !! l = Some o →
        length h ≤ c
        ∧ ∃ oc, h' !! c = Some oc
                ∧ clone_of h bitmask (stack_after [] stack') l o oc.
Proof.
  intros Hok Hv Hd.
  destruct (top_finished h v bitmask key object depth Hok Hv Hd)
    as (r & stack' & h' & Hcall & Hfr & Hinv & Himg & Hnd & Hall).
  exists r, stack', h'. split_and!; [done|done|done|by destruct Hinv|done|].
  intros l c o Hin Ho. pose proof (Hall _ _ Hin) as Hfin.
  pose proof (stack_inv_snd_bound _ _ _ _ _ _ Hinv Hin) as Hc.
  split.
  - destruct Hfin as (? & ? & ? & [= <-] & [= <-] & _ & ? & _). done.
  - by apply (finished_clone_of h bitmask _ h' l c o).
Qed.

(** A call at the root on an object that reaches the registry creates the
    registry, and answers the clone that the registry holds for the
    object. *)
Lemma root_registered h l o bitmask key object depth :
  heap_ok h = true → h !! l = Some o → classify object bitmask o = CReg →
  length h < depth →
  ∃ c s' h',
    baseClone depth (VRef l) bitmask None key object None h
    = Some (VRef c, Some s', h')
    ∧ (VRef l, VRef c) ∈ s'.
Proof.
  intros Hok Hl Hcls Hd.
  assert (Hv : val_ok (length h) (VRef l) = true).
  { simpl. apply Nat.ltb_lt. by eapply lookup_lt_Some. }
  destruct (top_level h (VRef l) bitmask key object depth Hok Hv Hd)
    as (r & stack' & h' & Hcall & _ & _ & _ & Hcl & Hsp).
  unfold clone_in in Hcl. unfold stack_post in Hsp.
  rewrite Hl, Hcls in Hcl, Hsp. cbn [default] in *.
  destruct Hsp as [Hst _]. destruct Hcl as (Hget & c & -> & _).
  exists c, (stack_after [] stack'), h'. split; [by rewrite <- Hst|].
  rewrite <- Hget. apply stack_get_elem. by eapply stack_get_ref_elem.
Qed.

(** The image of a child that is not an object, of a child that the
    registry tracks, and of a child that is shared. *)
Lemma image_registered h0 parent bitmask s l o r :
  image h0 parent bitmask s (VRef l) r → h0 !! l = Some o →
  classify parent bitmask o = CReg →
  ∃ c, r = VRef c ∧ length h0 ≤ c ∧ (VRef l, VRef c) ∈ s.
Proof.
  unfold image. intros Himg Hl Hcls. rewrite Hl, Hcls in Himg.
  destruct Himg as (Hget & c & -> & Hc). exists c. split_and!; [done..|].
  rewrite <- Hget. apply stack_get_elem. by eapply stack_get_ref_elem.
Qed.

Lemma image_value h0 parent bitmask s v r :
  image h0 parent bitmask s v r → (∀ l, v ≠ VRef l) → r = v.
Proof.
  unfold image. intros Himg Hv. destruct v as [| |l]; [done..|].
  by destruct (Hv l).
Qed.

(** * The claims on Maps, cycles, sharing, buffers and the customizer *)



Lemma regexp_reg object bitmask o source flags lastIndex :
  kind o = KRegExp source flags lastIndex →
  classify object bitmask o = CReg.
Proof.
  intros Hk. destruct o as [k ? ?]. simpl in Hk. subst k.
  unfold classify. by rewrite ?tag_plain, ?tag_cloneable.
Qed.

(** The clone of a RegExp at the root keeps the slots of its shell,
    whatever the flags. *)
Lemma regexp_cloned h l o source flags lastIndex bitmask depth :
  heap_ok h = true → h !! l = Some o →
  kind o = KRegExp source flags lastIndex → length h < depth →
  ∃ c s' h' oc,
    baseClone depth (VRef l) bitmask None VUndef VUndef None h
    = Some (VRef c, Some s', h')
    ∧ length h ≤ c ∧ h' !! c = Some oc
    ∧ kind oc = KRegExp source flags lastIndex.
Proof.
  intros Hok Hl Hk Hd.
  assert (Hv : val_ok (length h) (VRef l) = true).
  { simpl. apply Nat.ltb_lt. by eapply lookup_lt_Some. }
  pose proof (regexp_reg VUndef bitmask o _ _ _ Hk) as Hcls.
  destruct (root_registered h l o bitmask VUndef VUndef depth Hok Hl Hcls Hd)
    as (c & s' & h' & Hcall & Hin).
  destruct (traversal_clones h (VRef l) bitmask VUndef VUndef depth Hok Hv Hd)
    as (r & stack' & h2 & Hcall2 & _ & _ & _ & _ & Hall).
  rewrite Hcall in Hcall2. injection Hcall2 as <- <- <-.
  change (stack_after [] (Some s')) with s' in Hall.
  destruct (Hall l c o Hin Hl) as (Hc & oc & Hoc & Hclone).
  unfold clone_of in Hclone. rewrite Hk in Hclone.
  destruct Hclone as [Hslots _].
  destruct (Hslots (KRegExp source flags lastIndex) (proto o)) as [Hkoc _].
  { unfold shell_slots. by rewrite Hk. }
  by exists c, s', h', oc.
Qed.




(** ** Any call of a traversal on an object whose properties are copied *)

(** A call, at the root or on a child, on an object [a] that reaches the
    registry without an entry: the clone [c] is registered for [a] first,
    and every enumerated key of [c] holds the result of a recursive call on
    the value [a] holds under that key. *)
Lemma call_props h0 a o bitmask key object depth stack h :
  heap_ok h0 = true → call_pre h0 bitmask depth (VRef a) stack h →
  h0 !! a = Some o → copies_props (kind o) || isFunction o = true →
  classify object bitmask o = CReg → VRef a ∉ (default [] stack).*1 →
  ∃ c s' h' ks subs rs b,
    baseClone depth (VRef a) bitmask None key object stack h
    = Some (VRef c, Some s', h')
    ∧ length h ≤ c < length h' ∧ frame h h' ∧ stack_inv h0 bitmask h' s'
    ∧ stack_get s' (VRef a) = VRef c
    ∧ (∃ add, s' = add ++ (VRef a, VRef c) :: default [] stack)
    ∧ c < b ∧ trace_ok h0 (VRef a) bitmask s' h' b subs rs
    ∧ Forall2 (λ k sub, ∃ hx, frame h0 hx ∧ sub = get hx (VRef a) k) ks subs
    ∧ (∀ p, p ∈ (props o).*1 → is_string_key p = true → VPrim p ∈ ks)
    ∧ (∀ p, key_ok p = true → VPrim p ∈ ks →
         ∃ j r, ks !! j = Some (VPrim p) ∧ rs !! j = Some r
                ∧ get h' (VRef c) (VPrim p) = r).
Proof.
  intros Hok Hpre Ha Hk Hcls Hnew.
  destruct (baseClone_clones h0 depth Hok (VRef a) bitmask key object stack h
              Hpre)
    as (r & stack' & h' & Hcall & Hfr & Hinv & _ & Hcl & Hsp).
  unfold clone_in in Hcl. unfold stack_post in Hsp.
  rewrite Ha, Hcls in Hcl, Hsp.
  destruct Hsp as [Hst [[Hin _]|[_ Hmiss]]]; [done|].
  destruct (keyed_loop o Hk) as (Hty & _ & Hitems & Hkey & Hput).
  destruct Hmiss as (add & c & -> & Hc & Hs' & [Hty'|Hpop]);
    [congruence|].
  destruct Hpop
    as (ks & subs & rs & shell0 & b & Hks & HF2 & _ & Hshell & Hb & Htr).
  rewrite Hitems in HF2, Hshell. rewrite Hput, Hkey in Hshell.
  destruct Hcl as (Hget & c' & [= <-] & Hc').
  exists c, (stack_after (default [] stack) stack'), h', ks, subs, rs, b.
  split_and!; try done; [by rewrite Hcall, Hst|lia|by exists add| |].
  - rewrite <- (imap_fst ks (λ i, VPrim (PNum (Z.of_nat i)))) at 1.
    apply Forall2_fmap_l. eapply Forall2_impl; [done|].
    intros x sub (hx & ? & ->). exists hx. split; [done|].
    unfold loop_sub. unfold isFunction in Hk. by destruct (kind o).
  - intros p Hp Hin.
    pose proof (Forall2_length _ _ _ HF2) as Hlen1.
    pose proof (trace_ok_length _ _ _ _ _ _ _ _ Htr) as Hlen2.
    destruct (fold_assign_last
                (imap (λ i v, (v, VPrim (PNum (Z.of_nat i)))) ks) rs shell0 p Hp)
      as (j & r & Hj & Hr & Hown).
    { lia. }
    { by rewrite imap_fst. }
    exists j, r. rewrite imap_fst in Hj. split_and!; [done|done|].
    by eapply get_own.
Qed.

(** The own string-keyed properties of the clone that such a call
    returns: each is the answer of a call on the value of the original,
    and the calls for two keys allocate in disjoint stretches of the
    store. *)
Lemma call_own_keys h0 a o bitmask key object depth stack h :
  heap_ok h0 = true → call_pre h0 bitmask depth (VRef a) stack h →
  h0 !! a = Some o → copies_props (kind o) || isFunction o = true →
  classify object bitmask o = CReg → VRef a ∉ (default [] stack).*1 →
  ∃ c s' h',
    baseClone depth (VRef a) bitmask None key object stack h
    = Some (VRef c, Some s', h')
    ∧ length h ≤ c < length h' ∧ frame h h' ∧ stack_inv h0 bitmask h' s'
    ∧ stack_get s' (VRef a) = VRef c
    ∧ (∃ add, s' = add ++ (VRef a, VRef c) :: default [] stack)
    ∧ (∀ p sub, own_get (props o) p = Some sub → is_string_key p = true →
         ∃ b1 b2,
           length h ≤ b1
           ∧ clone_in h0 (VRef a) bitmask s' h' b1 b2 sub
               (get h' (VRef c) (VPrim p)))
    ∧ (∀ p q subp subq,
         p ≠ q →
         own_get (props o) p = Some subp → is_string_key p = true →
         own_get (props o) q = Some subq → is_string_key q = true →
         ∃ b1 b2 b3 b4,
           (b2 ≤ b3 ∨ b4 ≤ b1) ∧ length h ≤ b1 ∧ length h ≤ b3
           ∧ clone_in h0 (VRef a) bitmask s' h' b1 b2 subp
               (get h' (VRef c) (VPrim p))
           ∧ clone_in h0 (VRef a) bitmask s' h' b3 b4 subq
               (get h' (VRef c) (VPrim q))).
Proof.
  intros Hok Hpre Ha Hk Hcls Hnew.
  destruct (call_props h0 a o bitmask key object depth stack h Hok Hpre Ha Hk
              Hcls Hnew)
    as (c & s' & h' & ks & subs & rs & b & Hcall & Hc & Hfr & Hinv & Hget
        & Hadd & Hb & Htr & HF2 & Hks & Hlast).
  assert (Hat : ∀ p sub,
    own_get (props o) p = Some sub → is_string_key p = true →
    ∃ j, ks !! j = Some (VPrim p) ∧ subs !! j = Some sub
         ∧ rs !! j = Some (get h' (VRef c) (VPrim p))).
  { intros p sub Hown Hs.
    assert (Hkp : key_ok p = true) by (unfold key_ok; by rewrite Hs).
    destruct (Hlast p Hkp) as (j & r & Hj & Hr & Hg).
    { apply Hks; [by eapply own_get_elem|done]. }
    exists j. split_and!; [done| |by rewrite Hg].
    destruct (Forall2_lookup_l _ _ _ _ _ HF2 Hj) as (sub' & -> & hx & Hfx & ->).
    f_equal. eapply get_own; [by apply Hfx|done|done]. }
  exists c, s', h'. do 6 (split; [done|]). split.
  - intros p sub Hown Hs. destruct (Hat p sub Hown Hs) as (j & _ & Hj & Hr).
    destruct (trace_ok_lookup _ _ _ _ _ _ _ _ _ _ Htr Hj)
      as (r & b1 & b2 & Hr' & ? & _ & _ & Hcl).
    exists b1, b2. split; [lia|congruence].
  - intros p q subp subq Hpq Hp Hsp Hq Hsq.
    destruct (Hat p subp Hp Hsp) as (i & Hki & Hi & Hri).
    destruct (Hat q subq Hq Hsq) as (j & Hkj & Hj & Hrj).
    assert (i ≠ j) as Hij by (intros ->; congruence).
    destruct (decide (i < j)).
    + destruct (trace_ok_lookup2 _ _ _ _ _ _ _ _ i j subp subq Htr)
        as (ri & rj & b1 & b2 & b3 & Hri' & Hrj' & ? & ? & ? & ? & ?);
        try done.
      exists b1, b2, b3, (length h').
      split_and!; [by left|lia|lia|congruence|congruence].
    + destruct (trace_ok_lookup2 _ _ _ _ _ _ _ _ j i subq subp Htr)
        as (rj & ri & b1 & b2 & b3 & Hrj' & Hri' & ? & ? & ? & ? & ?);
        try done; [lia|].
      exists b3, (length h'), b1, b2.
      split_and!; [by right|lia|lia|congruence|congruence].
Qed.

(** The state in which a traversal starts. *)
Lemma call_pre_root h v bitmask depth :
  val_ok (length h) v = true → length h < depth →
  call_pre h bitmask depth v None h.
Proof.
  intros Hv Hd. split_and!; [apply frame_refl|apply stack_inv_nil|done|].
  pose proof (unreg_bound (length h) []). simpl. lia.
Qed.

Lemma keyed_root_reg bitmask o :
  copies_props (kind o) || isFunction o = true →
  flag bitmask CLONE_DEEP_FLAG = true →
  classify VUndef bitmask o = CReg.
Proof.
  intros [Hk|Hk]%orb_true_iff Hd;
    [by apply copies_props_reg|by apply function_root_class].
Qed.

Lemma match_props_named o name :
  name ≠ "index"%string → name ≠ "input"%string →
  own_get (match_props o) (PStr name) = None.
Proof.
  intros H1 H2. unfold match_props. destruct (_ && _); [|done].
  cbn [own_get]. rewrite !decide_False by congruence. done.
Qed.







(** A call on a binary buffer, in any state of a traversal. *)
Lemma buffer_call (h0 : heap) d l o bitmask key object stack (h : heap) :
  frame h0 h → h !! l = Some o → isBuffer o = true →
  ∃ c h' o',
    baseClone (S d) (VRef l) bitmask None key object stack h
    = Some (VRef c, stack, h')
    ∧ cloneBuffer h o (flag bitmask CLONE_DEEP_FLAG) = (VRef c, h')
    ∧ length h ≤ c < length h' ∧ frame h h' ∧ h' !! c = Some o'
    ∧ buffer_copy h0 (flag bitmask CLONE_DEEP_FLAG) h' (length h)
        (length h') o o'.
Proof.
  intros Hf Hl Hb. simpl. unfold baseClone_body.
  cbn [is_undefined negb isObject]. rewrite Hl. cbn [mbind option_bind].
  rewrite (init_phase_cloneBuffer object bitmask l o h (buffer_class _ _ _ Hb)).
  destruct (cloneBuffer_copy h0 h o (flag bitmask CLONE_DEEP_FLAG) Hf Hb)
    as (c & h1 & o' & -> & Hfr & Hc & Hc' & Hcopy).
  by exists c, h1, o'.
Qed.



(** ** The customizer *)

(** The loops of lines 254-301 call [baseClone] on every child with the
    customizer of the activation. *)
Lemma populate_hand_on (rec : clone_fn) (c : option Customizer) v result o
    bitmask stack h1 :
  populate rec v result o bitmask c stack h1
  = populate (hand_on c rec) v result o bitmask None stack h1.
Proof. reflexivity. Qed.

(** C4, as amended (customizer short-circuit).  Take any activation of
    [baseClone] with a customizer: at the root or on a child, with any
    key, parent, registry and store, and whatever the recursive calls
    would do.  When the customizer answers a value other than [undefined],
    the activation returns that value verbatim: the store and the variable
    [stack] are as the call found them and no recursive call is made (the
    result is the same for every [rec], and with a call-depth budget of
    one).  The answer [undefined] is the "no opinion" sentinel itself
    (line 194), it cannot be chosen as a replacement: the activation then
    does what it does without customizer, but for the calls on the
    children, which are made with the same customizer (lines 258, 267 and
    299), so that every node of the traversal is treated in this way. *)
Theorem C4_customizer_replacement (rec : clone_fn) v bitmask
    (customizer : Customizer) key object stack (h : heap) r :
  (if truthy object then customizer v key object stack h
   else customizer v VUndef VUndef None h) = r →
  (r ≠ VUndef →
   baseClone_body rec v bitmask (Some customizer) key object stack h
   = Some (r, stack, h)
   ∧ ∀ d, baseClone (S d) v bitmask (Some customizer) key object stack h
          = Some (r, stack, h))
  ∧ (r = VUndef →
     baseClone_body rec v bitmask (Some customizer) key object stack h
     = baseClone_body (hand_on (Some customizer) rec) v bitmask None key
         object stack h
     ∧ ∀ d, baseClone (S d) v bitmask (Some customizer) key object stack h
            = baseClone_body (hand_on (Some customizer) (baseClone d)) v
                bitmask None key object stack h).
Proof.
  intros Hr. split.
  - intros Hdef.
    assert (Hany : ∀ rec', baseClone_body rec' v bitmask (Some customizer) key
                             object stack h = Some (r, stack, h)).
    { intros rec'. unfold baseClone_body. cbv beta zeta.
      rewrite Hr. by destruct r. }
    split; [apply Hany|]. intros d. cbn [baseClone]. apply Hany.
  - intros ->.
    assert (Hany : ∀ rec', baseClone_body rec' v bitmask (Some customizer) key
                             object stack h
                           = baseClone_body (hand_on (Some customizer) rec') v
                               bitmask None key object stack h).
    { intros rec'. unfold baseClone_body. cbv beta zeta. rewrite Hr.
      cbn [is_undefined negb].
      destruct (isObject v); cbn [negb]; [|done].
      destruct v as [| |l]; [done..|].
      destruct (h !! l) as [o|]; cbn [mbind option_bind]; [|done].
      destruct (init_phase object (VRef l) l o bitmask h); [done| |done].
      destruct (truthy (stack_get (default [] stack) (VRef l))); [done|].
      apply populate_hand_on. }
    split; [apply Hany|]. intros d. cbn [baseClone]. apply Hany.
Qed.

Lemma C4_customizer_replacement_witness :
  deepCloneWith 1 (VRef 0) always_42 [Obj KObject None [(PStr "self", VRef 0)]]
  = Some (VPrim (PNum 42), None, [Obj KObject None [(PStr "self", VRef 0)]])
  ∧ deepCloneWith 2 (VRef 0) always_undefined
      [Obj KObject None [(PStr "self", VRef 0)]]
    = baseClone_body (hand_on (Some always_undefined) (baseClone 1)) (VRef 0)
        CLONE_DEEP_FLAG None VUndef VUndef None
        [Obj KObject None [(PStr "self", VRef 0)]].
Proof.
  split.
  - apply (C4_customizer_replacement (baseClone 0) (VRef 0) CLONE_DEEP_FLAG
             always_42 VUndef VUndef None
             [Obj KObject None [(PStr "self", VRef 0)]] (VPrim (PNum 42)));
      [reflexivity|discriminate].
  - apply (C4_customizer_replacement (baseClone 0) (VRef 0) CLONE_DEEP_FLAG
             always_undefined VUndef VUndef None
             [Obj KObject None [(PStr "self", VRef 0)]] VUndef);
      reflexivity.
Defined.

(** C4 as stated fails: the replacement is not unrestricted.  A
    customizer that chooses [undefined] for the root is not obeyed, the
    engine clones the root by default. *)
Lemma C4_undefined_is_not_a_replacement :
  always_undefined (VRef 0) VUndef VUndef None [Obj KObject None []] = VUndef
  ∧ deepCloneWith 1 (VRef 0) always_undefined [Obj KObject None []]
    = Some (VRef 1, Some [(VRef 0, VRef 1)],
            [Obj KObject None []; Obj KObject None []])
  ∧ ¬ (∀ d v bitmask (customizer : Customizer) key object stack (h : heap) r,
         (if truthy object then customizer v key object stack h
          else customizer v VUndef VUndef None h) = r →
         baseClone (S d) v bitmask (Some customizer) key object stack h
         = Some (r, stack, h)).
Proof.
  split_and!; [reflexivity|reflexivity|].
  intros Hall.
  specialize (Hall 0 (VRef 0) CLONE_DEEP_FLAG always_undefined VUndef VUndef
                None [Obj KObject None []] VUndef eq_refl).
  discriminate Hall.
Qed.

(** * Objects that are not instances of the built-in constructors *)

Lemma proto_chain_first (h : heap) l o :
  h !! l = Some o → ∃ os, proto_chain (length h) h l = o :: os.
Proof.
  intros Hl. destruct (length h) as [|n] eqn:Hlen.
  - apply lookup_lt_Some in Hl. lia.
  - simpl. rewrite Hl. eauto.
Qed.

Lemma ctor_of_shadowed (h : heap) l o v :
  h !! l = Some o → own_get (props o) (PStr "constructor") = Some v →
  ctor_of h l = CtorValue v.
Proof.
  intros Hl Hc. unfold ctor_of.
  destruct (proto_chain_first h l o Hl) as [os ->].
  cbn [chain_find]. by rewrite Hc.
Qed.

(** The prototype chain of an object whose prototype is a plain object
    that inherits from [Object.prototype]. *)
Lemma proto_chain_plain (h : heap) l o p po :
  h !! l = Some o → proto o = Some p → h !! p = Some po → l ≠ p →
  proto po = None → proto_chain (length h) h l = [o; po].
Proof.
  intros Hl Hp Hpo Hne Hnone.
  assert (2 ≤ length h).
  { apply lookup_lt_Some in Hl. apply lookup_lt_Some in Hpo. lia. }
  destruct (length h) as [|[|n]] eqn:Hlen; [lia..|].
  cbn [proto_chain]. by rewrite Hl, Hp, Hpo, Hnone.
Qed.

Lemma ctor_of_plain (h : heap) l o p po :
  h !! l = Some o → proto o = Some p → h !! p = Some po → l ≠ p →
  plain_kind (kind po) = true → proto po = None →
  own_get (props o) (PStr "constructor") = None →
  own_get (props po) (PStr "constructor") = None →
  ctor_of h l = CtorBuiltin BObject.
Proof.
  intros Hl Hp Hpo Hne Hk Hnone Hc Hcp. unfold ctor_of.
  rewrite (proto_chain_plain h l o p po Hl Hp Hpo Hne Hnone).
  cbn [chain_find chain_builtin last]. rewrite Hc, Hcp, Hnone.
  by destruct (kind po).
Qed.

(** X18 (a shadowed constructor).  The source reads the constructor of
    the clone from the original (lines 99 and 149).  An array, a boxed
    Boolean, Number or String, a Date, a Map or a Set that has an own
    property [constructor] whose value is not a function cannot be cloned:
    [new] throws a [TypeError], and [baseClone] gives no result, whatever
    the flags and the call-depth budget. *)
Theorem shadowed_constructor_gives_no_clone (h : heap) l o v :
  h !! l = Some o → uses_ctor (kind o) = true →
  own_get (props o) (PStr "constructor") = Some v →
  (∀ f fo, v = VRef f → h !! f = Some fo → isFunction fo = false) →
  (∀ arg, construct h l arg = Fault TypeError)
  ∧ ∀ depth bitmask key object stack,
      baseClone depth (VRef l) bitmask None key object stack h = None.
Proof.
  intros Hl Hk Hc Hnf.
  assert (Hnew : ∀ arg, construct h l arg = Fault TypeError).
  { intros arg. unfold construct. rewrite (ctor_of_shadowed h l o v Hl Hc).
    destruct v as [| |f]; [done..|].
    destruct (h !! f) as [fo|] eqn:Hf; [|done]. by rewrite (Hnf f fo eq_refl Hf). }
  split; [done|]. intros [|d] bitmask key object stack; [done|].
  cbn [baseClone]. unfold baseClone_body. cbn [is_undefined negb isObject].
  rewrite Hl. cbn [mbind option_bind].
  assert (Hinit : ∃ f, init_phase object (VRef l) l o bitmask h = Raise f).
  { unfold init_phase, initCloneArray, initCloneByTag.
    destruct o as [[] pr ps]; try discriminate Hk;
      cbn [isArray isBuffer isFunction kind getTag];
      rewrite ?tag_plain, ?tag_cloneable;
      cbn [String.eqb Ascii.eqb Bool.eqb tag_in existsb orb andb negb];
      rewrite ?Hnew; try (by eexists);
      destruct (to_number _ _ _); rewrite ?Hnew; by eexists. }
  destruct Hinit as [f ->]. done.
Qed.

Lemma shadowed_constructor_gives_no_clone_witness :
  deepClone 5 (VRef 0)
    [Obj (KMap []) None [(PStr "constructor", VPrim (PNum 1))]] = None.
Proof.
  apply (shadowed_constructor_gives_no_clone
           [Obj (KMap []) None [(PStr "constructor", VPrim (PNum 1))]] 0
           (Obj (KMap []) None [(PStr "constructor", VPrim (PNum 1))])
           (VPrim (PNum 1))); [reflexivity..|discriminate].
Defined.

(** X19 (a constructor that is [Object]).  A boxed Number or String
    whose prototype is a plain object inherits its constructor from
    [Object.prototype]: line 127 evaluates [new Object(object)], which
    answers the object itself.  The shell that [initCloneByTag] returns is
    the original, and nothing is allocated. *)
Theorem wrapper_of_plain_prototype_is_its_own_shell (h : heap) l o p po
    isDeep :
  h !! l = Some o → tag_in (getTag o) [numberTag; stringTag] = true →
  proto o = Some p → h !! p = Some po →
  plain_kind (kind po) = true → proto po = None →
  own_get (props o) (PStr "constructor") = None →
  own_get (props po) (PStr "constructor") = None →
  initCloneByTag h l o (getTag o) isDeep = Ok (VRef l, h).
Proof.
  intros Hl Htag Hp Hpo Hk Hnone Hc Hcp.
  assert (Hne : l ≠ p).
  { intros ->. assert (o = po) as -> by congruence.
    destruct po as [[] ? ?]; done. }
  unfold initCloneByTag, construct.
  rewrite (ctor_of_plain h l o p po Hl Hp Hpo Hne Hk Hnone Hc Hcp).
  destruct o as [[| | | | | | | | | | | | | | | | [] | ] ? ?];
    try (vm_compute in Htag; discriminate Htag); reflexivity.
Qed.

Lemma wrapper_of_plain_prototype_is_its_own_shell_witness :
  initCloneByTag
    [Obj (KNumber 5) (Some 1) []; Obj KObject None []] 0
    (Obj (KNumber 5) (Some 1) []) numberTag true
  = Ok (VRef 0, [Obj (KNumber 5) (Some 1) []; Obj KObject None []]).
Proof.
  apply (wrapper_of_plain_prototype_is_its_own_shell
           [Obj (KNumber 5) (Some 1) []; Obj KObject None []] 0
           (Obj (KNumber 5) (Some 1) []) 1 (Obj KObject None []) true);
    reflexivity.
Defined.

(** X20 (an array whose constructor is [Object]).  An array whose
    prototype is a plain object inherits its constructor from
    [Object.prototype]: line 149 evaluates [new Object(length)], a boxed
    Number.  The shell that [initCloneArray] returns for an array that is
    not the result of [RegExp#exec] is a new Number object that wraps the
    length, not an array. *)
Theorem array_of_plain_prototype_gets_number_shell (h : heap) l o es p po :
  h !! l = Some o → kind o = KArray es →
  proto o = Some p → h !! p = Some po →
  plain_kind (kind po) = true → proto po = None →
  own_get (props o) (PStr "constructor") = None →
  own_get (props po) (PStr "constructor") = None →
  hasOwnProperty o (PStr "index") = false →
  initCloneArray h l o
  = Ok (VRef (length h),
        h ++ [Obj (KNumber (Z.of_nat (length es))) None []]).
Proof.
  intros Hl Hko Hp Hpo Hk Hnone Hc Hcp Hidx.
  assert (Hne : l ≠ p).
  { intros ->. assert (o = po) as -> by congruence.
    rewrite Hko in Hk. done. }
  unfold initCloneArray, construct.
  rewrite (ctor_of_plain h l o p po Hl Hp Hpo Hne Hk Hnone Hc Hcp).
  unfold elems_of. rewrite Hko, Hidx. cbn [new_builtin new_object].
  by rewrite andb_false_r.
Qed.

Lemma array_of_plain_prototype_gets_number_shell_witness :
  initCloneArray
    [Obj (KArray [VPrim (PNum 7); VPrim (PNum 8)]) (Some 1) [];
     Obj KObject None []] 0
    (Obj (KArray [VPrim (PNum 7); VPrim (PNum 8)]) (Some 1) [])
  = Ok (VRef 2,
        [Obj (KArray [VPrim (PNum 7); VPrim (PNum 8)]) (Some 1) [];
         Obj KObject None []] ++ [Obj (KNumber 2) None []]).
Proof.
  apply (array_of_plain_prototype_gets_number_shell
           [Obj (KArray [VPrim (PNum 7); VPrim (PNum 8)]) (Some 1) [];
            Obj KObject None []] 0
           (Obj (KArray [VPrim (PNum 7); VPrim (PNum 8)]) (Some 1) [])
           [VPrim (PNum 7); VPrim (PNum 8)] 1 (Obj KObject None []));
    reflexivity.
Defined.
